(** * myvue-bayes: the conjugate-update distribution core

    A shallow embedding of package [distributions] (Beta, Normal,
    NormalConjugate, their posteriors and [ComputeSummary]) together with
    the parts of gonum ([stat], [floats], [distuv]) and of the Go standard
    library ([slices.Sort]) that the package calls, and of its two
    callers: package [models] (the A/B test) and package [metrics]
    (conversion, churn, retention and customer lifetime value).

    Go's [float64] is IEEE-754 binary64, every operation rounded to
    nearest-even.  The code is written over an interface [Float64] of the
    arithmetic it uses, and [binary64] is the arithmetic the compiled
    program performs.  A result that does not depend on the arithmetic
    is stated for every instance of the interface; every other result
    is about [binary64].

    Every operation is rounded on its own.  A Go compiler may fuse
    [x*y + z] into one rounding on some targets (not on amd64 at its
    default level); the only such product-sums of the package are
    [tau0 + n*tau] and [tau0*Mu + n*tau*xBar] in [NormalConjugate.Update]
    and the running sum of squares in gonum's variance. *)

From Stdlib Require Import ZArith Zpower Lia List Bool String.
From Stdlib Require Import Floats.SpecFloat.
From stdpp Require Import base option list strings gmap.

Set Default Proof Using "Type".
Open Scope Z_scope.

(** ** Outcome of a Go call: it returns a value or it panics *)

Inductive outcome (A : Type) : Type :=
| Returned (a : A)
| Panicked (msg : string).
Arguments Returned {A} a.
Arguments Panicked {A} msg.

#[global] Instance outcome_ret : MRet outcome := @Returned.
#[global] Instance outcome_bind : MBind outcome := fun A B k o =>
  match o with
  | Returned a => k a
  | Panicked msg => Panicked msg
  end.

Definition returns {A} (o : outcome A) : Prop := exists a, o = Returned a.
Definition panics {A} (o : outcome A) : Prop := exists msg, o = Panicked msg.

(** ** The float64 arithmetic used by the package *)

Class Float64 (F : Type) : Type := {
  fadd : F -> F -> F;
  fsub : F -> F -> F;
  fmul : F -> F -> F;
  fdiv : F -> F -> F;
  fsqrt : F -> F;            (* math.Sqrt *)
  feqb : F -> F -> bool;     (* x == y *)
  fltb : F -> F -> bool;     (* x < y *)
  fleb : F -> F -> bool;     (* x <= y *)
  of_int : Z -> F;           (* float64(n) for an int n *)
}.

Declare Scope go_scope.
Delimit Scope go_scope with go.
Infix "+" := fadd : go_scope.
Infix "-" := fsub : go_scope.
Infix "*" := fmul : go_scope.
Infix "/" := fdiv : go_scope.
Notation "x <? y" := (fltb x y) : go_scope.
Notation "x <=? y" := (fleb x y) : go_scope.
Notation "x >? y" := (fltb y x) (only parsing) : go_scope.
Notation "x >=? y" := (fleb y x) (only parsing) : go_scope.
Notation "x =? y" := (feqb x y) : go_scope.

(** A decimal literal [n/d] of the source.  Go converts an exact constant
    to float64 by rounding to nearest-even; a correctly rounded division
    of two exactly representable integers gives the same value. *)
Definition lit {F} `{Float64 F} (n d : Z) : F := (of_int n / of_int d)%go.

(** math.IsNaN: [f != f]. *)
Definition IsNaN {F} `{Float64 F} (f : F) : bool := negb (f =? f)%go.

(** *** IEEE-754 binary64 *)

Definition prec : Z := 53.
Definition emax : Z := 1024.

Abbreviation float64 := spec_float.

#[global] Instance binary64 : Float64 float64 := {|
  fadd := SFadd prec emax;
  fsub := SFsub prec emax;
  fmul := SFmul prec emax;
  fdiv := SFdiv prec emax;
  fsqrt := SFsqrt prec emax;
  feqb := SFeqb;
  fltb := SFltb;
  fleb := SFleb;
  of_int := fun n => binary_normalize prec emax n 0 false;
|}.

(** ** Package distributions *)

Section Distributions.
Context {F : Type} `{Float64 F}.
Local Open Scope go_scope.

(** *** gonum stat/distuv

    The package stores a [distuv.Beta] / [distuv.Normal] value and
    forwards PDF, CDF, Quantile, ... to it.  Only [Quantile] is needed
    below; it is taken as given (it panics for a probability outside
    [0,1], hence the [outcome]). *)

Record distuv_Beta : Type := { distuv_Beta_Alpha : F; distuv_Beta_Beta : F }.
Record distuv_Normal : Type := { distuv_Normal_Mu : F; distuv_Normal_Sigma : F }.

Variable distuv_Beta_Quantile : distuv_Beta -> F -> outcome F.
Variable distuv_Normal_Quantile : distuv_Normal -> F -> outcome F.

(** *** beta.go *)

Record Beta : Type := {
  Beta_Alpha : F;
  Beta_Beta : F;
  Beta_dist : distuv_Beta;
}.

(** [NewBeta]: a struct literal, nothing else. *)
Definition NewBeta (alpha beta : F) : outcome Beta :=
  Returned {| Beta_Alpha := alpha;
              Beta_Beta := beta;
              Beta_dist := {| distuv_Beta_Alpha := alpha;
                              distuv_Beta_Beta := beta |} |}.

Definition Beta_Quantile (b : Beta) (p : F) : outcome F :=
  distuv_Beta_Quantile (Beta_dist b) p.

Definition Beta_Mode (b : Beta) : list F :=
  if (Beta_Alpha b >? of_int 1) && (Beta_Beta b >? of_int 1) then
    [ (Beta_Alpha b - of_int 1) / (Beta_Alpha b + Beta_Beta b - of_int 2) ]
  else if (Beta_Alpha b <? of_int 1) && (Beta_Beta b <? of_int 1) then
    [ of_int 0; of_int 1 ]
  else if (Beta_Alpha b <? of_int 1) && (Beta_Beta b >=? of_int 1) then
    [ of_int 0 ]
  else
    [ of_int 1 ].

Record BetaPosterior : Type := { BetaPosterior_Beta : Beta }.

(** The loop of [Update]: [successes++] for every datum [x > 0]. *)
Definition count_successes (data : list F) : F :=
  fold_left (fun successes x => if x >? of_int 0 then successes + of_int 1
                                else successes)
            data (of_int 0).

Definition Beta_Update (b : Beta) (data : list F) : outcome BetaPosterior :=
  let successes := count_successes data in
  let trials := of_int (Z.of_nat (length data)) in
  b' ← NewBeta (Beta_Alpha b + successes) (Beta_Beta b + trials - successes);
  Returned {| BetaPosterior_Beta := b' |}.

Definition Beta_UpdateSingle (b : Beta) (observation : F) : outcome BetaPosterior :=
  if observation >? of_int 0 then
    b' ← NewBeta (Beta_Alpha b + of_int 1) (Beta_Beta b);
    Returned {| BetaPosterior_Beta := b' |}
  else
    b' ← NewBeta (Beta_Alpha b) (Beta_Beta b + of_int 1);
    Returned {| BetaPosterior_Beta := b' |}.

Definition BetaPosterior_CredibleInterval (bp : BetaPosterior) (confidence : F)
  : outcome (F * F) :=
  let alpha := (of_int 1 - confidence) / of_int 2 in
  lower ← Beta_Quantile (BetaPosterior_Beta bp) alpha;
  upper ← Beta_Quantile (BetaPosterior_Beta bp) (of_int 1 - alpha);
  Returned (lower, upper).

Definition BetaPosterior_HPD (bp : BetaPosterior) (confidence : F)
  : outcome (F * F) :=
  BetaPosterior_CredibleInterval bp confidence.

(** *** normal.go *)

Record Normal : Type := {
  Normal_Mu : F;
  Normal_Sigma : F;
  Normal_dist : distuv_Normal;
}.

Definition NewNormal (mu sigma : F) : outcome Normal :=
  Returned {| Normal_Mu := mu;
              Normal_Sigma := sigma;
              Normal_dist := {| distuv_Normal_Mu := mu;
                                distuv_Normal_Sigma := sigma |} |}.

Definition Normal_Quantile (n : Normal) (p : F) : outcome F :=
  distuv_Normal_Quantile (Normal_dist n) p.

Record NormalConjugate : Type := {
  NormalConjugate_Normal : Normal;
  NormalConjugate_KnownVariance : F;
}.

Definition NewNormalConjugate (mu sigma knownVariance : F) : outcome NormalConjugate :=
  n ← NewNormal mu sigma;
  Returned {| NormalConjugate_Normal := n;
              NormalConjugate_KnownVariance := knownVariance |}.

Record NormalPosterior : Type := { NormalPosterior_Normal : Normal }.

(** The loop of [Update]: [sumX += x]. *)
Definition sum_loop (data : list F) : F :=
  fold_left (fun sumX x => sumX + x) data (of_int 0).

Definition NormalConjugate_Update (nc : NormalConjugate) (data : list F)
  : outcome NormalPosterior :=
  let Mu := Normal_Mu (NormalConjugate_Normal nc) in
  let Sigma := Normal_Sigma (NormalConjugate_Normal nc) in
  let n := of_int (Z.of_nat (length data)) in
  let sumX := sum_loop data in
  let xBar := sumX / n in
  let tau0 := of_int 1 / (Sigma * Sigma) in
  let tau := of_int 1 / NormalConjugate_KnownVariance nc in
  let tauNew := tau0 + n * tau in
  let muNew := (tau0 * Mu + n * tau * xBar) / tauNew in
  let sigmaNew := fsqrt (of_int 1 / tauNew) in
  post ← NewNormal muNew sigmaNew;
  Returned {| NormalPosterior_Normal := post |}.

Definition NormalConjugate_UpdateSingle (nc : NormalConjugate) (observation : F)
  : outcome NormalPosterior :=
  NormalConjugate_Update nc [observation].

Definition NormalPosterior_CredibleInterval (np : NormalPosterior) (confidence : F)
  : outcome (F * F) :=
  let alpha := (of_int 1 - confidence) / of_int 2 in
  lower ← Normal_Quantile (NormalPosterior_Normal np) alpha;
  upper ← Normal_Quantile (NormalPosterior_Normal np) (of_int 1 - alpha);
  Returned (lower, upper).

Definition NormalPosterior_HPD (np : NormalPosterior) (confidence : F)
  : outcome (F * F) :=
  NormalPosterior_CredibleInterval np confidence.

End Distributions.

(** ** gonum floats/stat and the standard library's sort *)

Section Stat.
Context {F : Type} `{Float64 F}.
Local Open Scope go_scope.

(** floats.Sum: [sum += v] over the slice. *)
Definition floats_Sum (x : list F) : F :=
  fold_left (fun sum v => sum + v) x (of_int 0).

Definition floats_HasNaN (x : list F) : bool := existsb IsNaN x.

(** stat.Mean with nil weights. *)
Definition stat_Mean (x : list F) : F :=
  floats_Sum x / of_int (Z.of_nat (length x)).

(** stat.MeanVariance with nil weights: the corrected two-pass
    algorithm, normalised by [n - 1] (the unbiased sample variance). *)
Definition meanUnnormalisedVariance (x : list F) : F * F * F :=
  let mean := stat_Mean x in
  let '(ss, compensation) :=
    fold_left (fun '(ss, compensation) v =>
                 let d := v - mean in (ss + d * d, compensation + d))
              x (of_int 0, of_int 0) in
  let n := of_int (Z.of_nat (length x)) in
  (mean, ss - compensation * compensation / n, n).

Definition stat_MeanVariance (x : list F) : F * F :=
  let '(mean, unnormalisedVariance, sumWeights) := meanUnnormalisedVariance x in
  (mean, unnormalisedVariance / (sumWeights - of_int 1)).

Definition stat_Variance (x : list F) : F := snd (stat_MeanVariance x).

Definition stat_StdDev (x : list F) : F := fsqrt (stat_Variance x).

(** The order of sort.Float64Slice and of slices.Sort on floats:
    [x < y || (isNaN(x) && !isNaN(y))]. *)
Definition float_less (x y : F) : bool :=
  (x <? y) || (IsNaN x && negb (IsNaN y)).

(** sort.Float64sAreSorted: no element is less than its predecessor. *)
Fixpoint Float64sAreSorted (x : list F) : bool :=
  match x with
  | a :: (b :: _) as rest => negb (float_less b a) && Float64sAreSorted rest
  | _ => true
  end.

(** slices.Sort, as the insertion sort it runs on short slices: each
    element in turn moves left past the elements it is less than.  (On
    longer slices the library switches to pattern-defeating quicksort;
    the result is the same ascending arrangement, up to the order among
    elements that compare equal.) *)
Fixpoint sort_insert (v : F) (sorted : list F) : list F :=
  match sorted with
  | [] => [v]
  | y :: rest => if float_less v y then v :: y :: rest
                 else y :: sort_insert v rest
  end.

Definition slices_Sort (x : list F) : list F :=
  fold_left (fun sorted v => sort_insert v sorted) x [].

(** stat.Quantile(p, stat.Empirical, x, nil). *)
Fixpoint empiricalQuantile_loop (fidx cumsum : F) (x : list F) : outcome F :=
  match x with
  | [] => Panicked "impossible"
  | xi :: rest =>
      let cumsum := cumsum + of_int 1 in
      if cumsum >=? fidx then Returned xi
      else empiricalQuantile_loop fidx cumsum rest
  end.

Definition empiricalQuantile (p : F) (x : list F) (sumWeights : F) : outcome F :=
  let fidx := p * sumWeights in
  empiricalQuantile_loop fidx (of_int 0) x.

Definition stat_Quantile_Empirical (p : F) (x : list F) : outcome F :=
  if negb ((p >=? of_int 0) && (p <=? of_int 1)) then
    Panicked "stat: percentile out of bounds"
  else if Nat.eqb (length x) 0 then
    Panicked "stat: zero length slice"
  else if floats_HasNaN x then
    Returned (of_int 0 / of_int 0)          (* math.NaN() *)
  else if negb (Float64sAreSorted x) then
    Panicked "x data are not sorted"
  else
    empiricalQuantile p x (of_int (Z.of_nat (length x))).

End Stat.

(** ** distribution.go: Summary and ComputeSummary *)

(** Slices are references into a heap of backing arrays, so that the
    aliasing between the argument of [ComputeSummary], its sorted copy
    and the [Samples] field of the result is visible. *)
Definition loc := positive.

Inductive slice : Type :=
| nil_slice
| slice_at (l : loc).

Abbreviation heap F := (gmap loc (list F)).

Section Summary.
Context {F : Type} `{Float64 F}.
Local Open Scope go_scope.

Definition contents (h : heap F) (s : slice) : list F :=
  match s with
  | nil_slice => []
  | slice_at l => default [] (h !! l)
  end.

Definition slice_store (h : heap F) (s : slice) (x : list F) : heap F :=
  match s with
  | nil_slice => h
  | slice_at l => <[l := x]> h
  end.

(** make([]float64, n): a fresh array of zeros. *)
Definition make (n : nat) (h : heap F) : heap F * slice :=
  let l := fresh (dom h) in
  (<[l := replicate n (of_int 0)]> h, slice_at l).

(** copy(dst, src): the first min(len(dst), len(src)) elements. *)
Definition copy (dst src : slice) (h : heap F) : heap F :=
  let d := contents h dst in
  let s := contents h src in
  let n := Nat.min (length d) (length s) in
  slice_store h dst (take n s ++ drop n d).

Definition slices_Sort_in_place (x : slice) (h : heap F) : heap F :=
  slice_store h x (slices_Sort (contents h x)).

Record Summary : Type := {
  Summary_Mean : F;
  Summary_Median : F;
  Summary_Mode : F;
  Summary_Variance : F;
  Summary_StdDev : F;
  Summary_CI95 : F * F;
  Summary_CI99 : F * F;
  Summary_Samples : slice;
}.

Definition estimateMode (samples : list F) : F := stat_Mean samples.

(** The struct literal of [ComputeSummary]: its fields are evaluated in
    source order, [samples] and [sort] being the contents of the two
    slices at that point. *)
Definition summary_literal (samples sort : list F) (samples_ref : slice)
  : outcome Summary :=
  let mean := stat_Mean samples in
  median ← stat_Quantile_Empirical (lit 5 10) sort;
  let mode := estimateMode samples in
  let variance := stat_Variance samples in
  let stdDev := stat_StdDev samples in
  lo95 ← stat_Quantile_Empirical (lit 25 1000) sort;
  hi95 ← stat_Quantile_Empirical (lit 975 1000) sort;
  lo99 ← stat_Quantile_Empirical (lit 5 1000) sort;
  hi99 ← stat_Quantile_Empirical (lit 995 1000) sort;
  Returned {| Summary_Mean := mean;
              Summary_Median := median;
              Summary_Mode := mode;
              Summary_Variance := variance;
              Summary_StdDev := stdDev;
              Summary_CI95 := (lo95, hi95);
              Summary_CI99 := (lo99, hi99);
              Summary_Samples := samples_ref |}.

Definition ComputeSummary (samples : slice) (h : heap F)
  : heap F * outcome Summary :=
  let '(h, sort) := make (length (contents h samples)) h in
  let h := copy sort samples h in
  let h := slices_Sort_in_place sort h in
  (h, summary_literal (contents h samples) (contents h sort) samples).

End Summary.

(** ** Quantities the specification speaks of *)

(** The number k of entries of [data] that are strictly greater than 0. *)
Definition positives {F} `{Float64 F} (data : list F) : nat :=
  length (List.filter (fun x => (x >? of_int 0)%go) data).

(** The nearest-rank quantile: the sorted sample of the least rank
    [k = 1..n] with [k >= p * n]; no interpolation between samples. *)
Definition nearest_rank {F} `{Float64 F} (p : F) (sorted : list F) : option F :=
  let n := length sorted in
  k ← List.find (fun k => (of_int (Z.of_nat k) >=? p * of_int (Z.of_nat n))%go)
                (seq 1 n);
  sorted !! (k - 1)%nat.

(** The panic at the end of gonum's quantile loop, reached when no rank
    qualifies. *)
Definition found_or_impossible {A} (o : option A) : outcome A :=
  match o with
  | Some a => Returned a
  | None => Panicked "impossible"
  end.

(** A normal binary64 number in (0, 1): sign +, 53-bit mantissa,
    exponent between -1074 and -53. *)
Definition normal_below_one (p : float64) : bool :=
  match p with
  | S754_finite false m e =>
      (Zpos (digits2_pos m) =? 53) && (-1074 <=? e) && (e <=? -53)
  | _ => false
  end.

(** ** Values used in the examples *)

Definition Beta_value {F} `{Float64 F} (alpha beta : F) : Beta :=
  {| Beta_Alpha := alpha;
     Beta_Beta := beta;
     Beta_dist := {| distuv_Beta_Alpha := alpha; distuv_Beta_Beta := beta |} |}.

Definition Normal_value {F} `{Float64 F} (mu sigma : F) : Normal :=
  {| Normal_Mu := mu;
     Normal_Sigma := sigma;
     Normal_dist := {| distuv_Normal_Mu := mu; distuv_Normal_Sigma := sigma |} |}.

Definition NormalConjugate_value {F} `{Float64 F} (mu sigma knownVariance : F)
  : NormalConjugate :=
  {| NormalConjugate_Normal := Normal_value mu sigma;
     NormalConjugate_KnownVariance := knownVariance |}.

(** The float64 values 1, 2, ..., n. *)
Definition one_to (n : nat) : list float64 :=
  map (fun i => of_int (Z.of_nat i)) (seq 1 n).

(** ** Further methods of the posteriors *)

Section PosteriorMethods.
Context {F : Type} `{Float64 F}.
Local Open Scope go_scope.

(** gonum's [distuv.Beta.Mean], taken as given. *)
Variable distuv_Beta_Mean : distuv_Beta (F:=F) -> outcome F.

Definition Beta_Mean (b : Beta) : outcome F := distuv_Beta_Mean (Beta_dist b).

(** [MAP]: the first mode if there is one, the mean otherwise. *)
Definition BetaPosterior_MAP (bp : BetaPosterior) : outcome F :=
  match Beta_Mode (BetaPosterior_Beta bp) with
  | mode0 :: _ => Returned mode0
  | [] => Beta_Mean (BetaPosterior_Beta bp)
  end.

(** [BetaPosterior] embeds [*Beta]: [Update] is promoted to it. *)
Definition BetaPosterior_Update (bp : BetaPosterior) (data : list F)
  : outcome BetaPosterior :=
  Beta_Update (BetaPosterior_Beta bp) data.

Definition Normal_Mode (n : Normal) : list F := [Normal_Mu n].

Definition Normal_Median (n : Normal) : F := Normal_Mu n.

End PosteriorMethods.

(** Two positive binary64 numbers, the second at least two binades or,
    in the same binade, two units in the last place above the first. *)
Definition two_apart (p1 p2 : float64) : bool :=
  match p1, p2 with
  | S754_finite false m1 e1, S754_finite false m2 e2 =>
      (e1 + 2 <=? e2) || ((e1 =? e2) && (Zpos m1 + 2 <=? Zpos m2))
  | _, _ => false
  end.

(** ** Go code with state *)

(** A statement sequence that reads and writes a state [S] (the random
    source, the heap of slices, the receiver of a method) and returns
    or panics. *)
Definition prog (S A : Type) : Type := S -> S * outcome A.

#[global] Instance prog_ret {S} : MRet (prog S) := fun A a s => (s, Returned a).
#[global] Instance prog_bind {S} : MBind (prog S) := fun A B k m s =>
  match m s with
  | (s', Returned a) => k a s'
  | (s', Panicked msg) => (s', Panicked msg)
  end.

Definition lift {S A} (o : outcome A) : prog S A := fun s => (s, o).
Definition get_state {S} : prog S S := fun s => (s, Returned s).

(** A step on one component of a state made of a heap and a random
    source. *)
Definition with_heap {H G A} (m : prog H A) : prog (H * G) A :=
  fun '(h, g) => let '(h', r) := m h in ((h', g), r).
Definition with_rng {H G A} (m : prog G A) : prog (H * G) A :=
  fun '(h, g) => let '(g', r) := m g in ((h, g'), r).

(** *** Run-time checks *)

Definition nil_dereference {A} : outcome A :=
  Panicked "runtime error: invalid memory address or nil pointer dereference".

(** [x[i]] *)
Definition index_get {A} (x : list A) (i : Z) : outcome A :=
  if (i <? 0) || (Z.of_nat (length x) <=? i) then
    Panicked "runtime error: index out of range"
  else match x !! Z.to_nat i with
       | Some v => Returned v
       | None => Panicked "runtime error: index out of range"
       end.

(** [x[i] = v] *)
Definition index_set {A} (x : list A) (i : Z) (v : A) : outcome (list A) :=
  if (i <? 0) || (Z.of_nat (length x) <=? i) then
    Panicked "runtime error: index out of range"
  else Returned (<[Z.to_nat i := v]> x).

(** [a % b] on ints *)
Definition int_rem (a b : Z) : outcome Z :=
  if b =? 0 then Panicked "runtime error: integer divide by zero"
  else Returned (Z.rem a b).

(** [a + b] on the 64-bit [int]: it wraps around. *)
Definition int_add (a b : Z) : Z :=
  (a + b + 2 ^ 63) mod 2 ^ 64 - 2 ^ 63.

(** [int(x)] for a float64 [x]: the fraction is discarded.  For NaN, an
    infinity or a value outside the range of [int] the result depends
    on the implementation; it is [unrepresentable x]. *)
Definition float64_to_int (unrepresentable : float64 -> Z) (x : float64) : Z :=
  match x with
  | S754_zero _ => 0
  | S754_finite s m e =>
      let magnitude := Z.shiftl (Zpos m) e in
      let v := if s then - magnitude else magnitude in
      if (- 2 ^ 63 <=? v) && (v <? 2 ^ 63) then v else unrepresentable x
  | _ => unrepresentable x
  end.

(** ** Sampling, and the interfaces Prior and Posterior *)

Section Sampling.
Context {F : Type} `{Float64 F} {G : Type}.
Local Open Scope go_scope.

(** gonum's [distuv.Beta.Rand] and [distuv.Normal.Rand], taken as given.
    The package never sets the [Src] field, so they draw from the
    process-wide random source, whose state is [G]. *)
Variable distuv_Beta_Rand : distuv_Beta (F:=F) -> prog G F.
Variable distuv_Normal_Rand : distuv_Normal (F:=F) -> prog G F.

(** [make([]float64, n)], as the contents of the new slice.  (The
    memory is taken to suffice for the slice.) *)
Definition make_list (n : Z) : outcome (list F) :=
  if (n <? 0)%Z then Panicked "runtime error: makeslice: len out of range"
  else Returned (replicate (Z.to_nat n) (of_int 0)).

(** The loop of [SampleN]: [samples[i] = Sample()] for i = [i], ...,
    i + [todo] - 1. *)
Fixpoint SampleN_loop (Sample : prog G F) (i : Z) (todo : nat) (samples : list F)
  : prog G (list F) :=
  match todo with
  | O => mret samples
  | S todo =>
      x ← Sample;
      samples ← lift (index_set samples i x);
      SampleN_loop Sample (i + 1)%Z todo samples
  end.

Definition SampleN (Sample : prog G F) (n : Z) : prog G (list F) :=
  samples ← lift (make_list n);
  SampleN_loop Sample 0 (Z.to_nat n) samples.

Definition Beta_Sample (b : Beta) : prog G F := distuv_Beta_Rand (Beta_dist b).
Definition Beta_SampleN (b : Beta) (n : Z) : prog G (list F) :=
  SampleN (Beta_Sample b) n.

Definition Normal_Sample (n : Normal) : prog G F :=
  distuv_Normal_Rand (Normal_dist n).
Definition Normal_SampleN (n : Normal) (nSamples : Z) : prog G (list F) :=
  SampleN (Normal_Sample n) nSamples.

(** The types of the package that implement [Posterior], and those that
    implement [Prior] ([*BetaPosterior] among them: it embeds [*Beta]
    and so has its [Update]).  A nil interface value is [None]. *)
Inductive Posterior : Type :=
| Posterior_Beta (bp : BetaPosterior (F:=F))
| Posterior_Normal (np : NormalPosterior (F:=F)).

Inductive Prior : Type :=
| Prior_Beta (b : Beta (F:=F))
| Prior_BetaPosterior (bp : BetaPosterior (F:=F))
| Prior_NormalConjugate (nc : NormalConjugate (F:=F)).

Definition Prior_Update (prior : option Prior) (data : list F)
  : outcome Posterior :=
  match prior with
  | None => nil_dereference
  | Some (Prior_Beta b) =>
      bp ← Beta_Update b data; Returned (Posterior_Beta bp)
  | Some (Prior_BetaPosterior bp) =>
      bp' ← Beta_Update (BetaPosterior_Beta bp) data; Returned (Posterior_Beta bp')
  | Some (Prior_NormalConjugate nc) =>
      np ← NormalConjugate_Update nc data; Returned (Posterior_Normal np)
  end.

Definition Posterior_SampleN (post : Posterior) (n : Z) : prog G (list F) :=
  match post with
  | Posterior_Beta bp => Beta_SampleN (BetaPosterior_Beta bp) n
  | Posterior_Normal np => Normal_SampleN (NormalPosterior_Normal np) n
  end.

(** ** Package models: the A/B test *)

Record ABTest : Type := {
  ABTest_ControlPrior : option Prior;
  ABTest_TreatmentPrior : option Prior;
  ABTest_ControlData : list F;
  ABTest_TreatmentData : list F;
  ABTest_ControlPost : option Posterior;
  ABTest_TreatmentPost : option Posterior;
}.

Definition NewABTest : outcome ABTest :=
  controlPrior ← NewBeta (of_int 1) (of_int 1);
  treatmentPrior ← NewBeta (of_int 1) (of_int 1);
  Returned {| ABTest_ControlPrior := Some (Prior_Beta controlPrior);
              ABTest_TreatmentPrior := Some (Prior_Beta treatmentPrior);
              ABTest_ControlData := [];
              ABTest_TreatmentData := [];
              ABTest_ControlPost := None;
              ABTest_TreatmentPost := None |}.

Definition NewABTestWithPriors (controlPrior treatmentPrior : option Prior)
  : ABTest :=
  {| ABTest_ControlPrior := controlPrior;
     ABTest_TreatmentPrior := treatmentPrior;
     ABTest_ControlData := [];
     ABTest_TreatmentData := [];
     ABTest_ControlPost := None;
     ABTest_TreatmentPost := None |}.

(** Assignments to the fields of the receiver. *)
Definition set_ControlData (data : list F) : prog ABTest unit := fun ab =>
  ({| ABTest_ControlPrior := ABTest_ControlPrior ab;
      ABTest_TreatmentPrior := ABTest_TreatmentPrior ab;
      ABTest_ControlData := data;
      ABTest_TreatmentData := ABTest_TreatmentData ab;
      ABTest_ControlPost := ABTest_ControlPost ab;
      ABTest_TreatmentPost := ABTest_TreatmentPost ab |}, Returned tt).

Definition set_TreatmentData (data : list F) : prog ABTest unit := fun ab =>
  ({| ABTest_ControlPrior := ABTest_ControlPrior ab;
      ABTest_TreatmentPrior := ABTest_TreatmentPrior ab;
      ABTest_ControlData := ABTest_ControlData ab;
      ABTest_TreatmentData := data;
      ABTest_ControlPost := ABTest_ControlPost ab;
      ABTest_TreatmentPost := ABTest_TreatmentPost ab |}, Returned tt).

Definition set_ControlPost (post : Posterior) : prog ABTest unit := fun ab =>
  ({| ABTest_ControlPrior := ABTest_ControlPrior ab;
      ABTest_TreatmentPrior := ABTest_TreatmentPrior ab;
      ABTest_ControlData := ABTest_ControlData ab;
      ABTest_TreatmentData := ABTest_TreatmentData ab;
      ABTest_ControlPost := Some post;
      ABTest_TreatmentPost := ABTest_TreatmentPost ab |}, Returned tt).

Definition set_TreatmentPost (post : Posterior) : prog ABTest unit := fun ab =>
  ({| ABTest_ControlPrior := ABTest_ControlPrior ab;
      ABTest_TreatmentPrior := ABTest_TreatmentPrior ab;
      ABTest_ControlData := ABTest_ControlData ab;
      ABTest_TreatmentData := ABTest_TreatmentData ab;
      ABTest_ControlPost := ABTest_ControlPost ab;
      ABTest_TreatmentPost := Some post |}, Returned tt).

Definition updatePosteriors : prog ABTest unit :=
  ab ← get_state;
  (if (0 <? length (ABTest_ControlData ab))%nat then
     post ← lift (Prior_Update (ABTest_ControlPrior ab) (ABTest_ControlData ab));
     set_ControlPost post
   else mret tt);;
  ab ← get_state;
  if (0 <? length (ABTest_TreatmentData ab))%nat then
    post ← lift (Prior_Update (ABTest_TreatmentPrior ab) (ABTest_TreatmentData ab));
    set_TreatmentPost post
  else mret tt.

Definition AddControlData (data : list F) : prog ABTest unit :=
  ab ← get_state;
  set_ControlData (ABTest_ControlData ab ++ data);;
  updatePosteriors.

Definition AddTreatmentData (data : list F) : prog ABTest unit :=
  ab ← get_state;
  set_TreatmentData (ABTest_TreatmentData ab ++ data);;
  updatePosteriors.

Definition nSamples : Z := 10000.



(** The loop of [ExpectedLoss]. *)
Fixpoint loss_loop (controlSamples treatmentSamples : list F)
    (i : Z) (todo : nat) (controlLoss treatmentLoss : F) : outcome (F * F) :=
  match todo with
  | O => Returned (controlLoss, treatmentLoss)
  | S todo =>
      t ← index_get treatmentSamples i;
      c ← index_get controlSamples i;
      let diff := t - c in
      if diff >? of_int 0 then
        loss_loop controlSamples treatmentSamples (i + 1)%Z todo
                  (controlLoss + diff) treatmentLoss
      else
        loss_loop controlSamples treatmentSamples (i + 1)%Z todo
                  controlLoss (treatmentLoss - diff)
  end.

Definition ExpectedLoss (ab : ABTest) : prog G (F * F) :=
  match ABTest_ControlPost ab, ABTest_TreatmentPost ab with
  | Some controlPost, Some treatmentPost =>
      controlSamples ← Posterior_SampleN controlPost nSamples;
      treatmentSamples ← Posterior_SampleN treatmentPost nSamples;
      '(controlLoss, treatmentLoss) ←
        lift (loss_loop controlSamples treatmentSamples 0 (Z.to_nat nSamples)
                        (of_int 0) (of_int 0));
      mret (controlLoss / of_int nSamples, treatmentLoss / of_int nSamples)
  | _, _ => mret (of_int 0, of_int 0)
  end.

(** A slice built locally is put on the heap where it is handed on. *)
Definition alloc (x : list F) : prog (heap F) slice := fun h =>
  let l := fresh (dom h) in (<[l := x]> h, Returned (slice_at l)).

(** The loop of [RelativeUplift]; [uplifts] grows by [append] within
    its capacity. *)
Fixpoint uplift_loop (controlSamples treatmentSamples : list F)
    (i : Z) (todo : nat) (uplifts : list F) : outcome (list F) :=
  match todo with
  | O => Returned uplifts
  | S todo =>
      c ← index_get controlSamples i;
      if c >? of_int 0 then
        t ← index_get treatmentSamples i;
        uplift_loop controlSamples treatmentSamples (i + 1)%Z todo
                    (uplifts ++ [(t - c) / c])
      else
        uplift_loop controlSamples treatmentSamples (i + 1)%Z todo uplifts
  end.

Definition RelativeUplift (ab : ABTest) : prog (heap F * G) (F * F * F) :=
  match ABTest_ControlPost ab, ABTest_TreatmentPost ab with
  | Some controlPost, Some treatmentPost =>
      controlSamples ← with_rng (Posterior_SampleN controlPost nSamples);
      treatmentSamples ← with_rng (Posterior_SampleN treatmentPost nSamples);
      uplifts ← lift (uplift_loop controlSamples treatmentSamples 0
                                  (Z.to_nat nSamples) []);
      uplifts ← with_heap (alloc uplifts);
      summary ← with_heap (ComputeSummary uplifts);
      mret (Summary_Mean summary, fst (Summary_CI95 summary),
            snd (Summary_CI95 summary))
  | _, _ => mret (of_int 0, of_int 0, of_int 0)
  end.

Definition getRecommendation (prob treatmentLoss : F) : string :=
  if (prob >? lit 95 100) && (treatmentLoss <? lit 1 100) then
    "Strong evidence favors treatment. Recommend implementation."
  else if prob >? lit 80 100 then
    "Moderate evidence favors treatment. Consider implementation or continue testing."
  else if prob <? lit 20 100 then
    "Evidence favors control. Treatment likely inferior."
  else
    "Insufficient evidence to make a recommendation. Continue testing.".

(** The loop of [CredibleIntervalDifference]. *)
Fixpoint differences_loop (controlSamples treatmentSamples : list F)
    (i : Z) (todo : nat) (differences : list F) : outcome (list F) :=
  match todo with
  | O => Returned differences
  | S todo =>
      t ← index_get treatmentSamples i;
      c ← index_get controlSamples i;
      differences ← index_set differences i (t - c);
      differences_loop controlSamples treatmentSamples (i + 1)%Z todo differences
  end.

(** [CredibleIntervalDifference], with the conversion [int(x)] of the
    two indices as a parameter.  [sort.Float64s] puts the slice in the
    order of [slices.Sort] (ascending, NaN first). *)
Definition CredibleIntervalDifference (to_int : F -> Z)
    (ab : ABTest) (confidence : F) : prog (heap F * G) (F * F) :=
  match ABTest_ControlPost ab, ABTest_TreatmentPost ab with
  | Some controlPost, Some treatmentPost =>
      controlSamples ← with_rng (Posterior_SampleN controlPost nSamples);
      treatmentSamples ← with_rng (Posterior_SampleN treatmentPost nSamples);
      differences ← lift (make_list nSamples);
      differences ← lift (differences_loop controlSamples treatmentSamples 0
                                           (Z.to_nat nSamples) differences);
      differences ← with_heap (alloc differences);
      summary ← with_heap (ComputeSummary differences);
      let alpha := (of_int 1 - confidence) / of_int 2 in
      if confidence =? lit 95 100 then
        mret (fst (Summary_CI95 summary), snd (Summary_CI95 summary))
      else if confidence =? lit 99 100 then
        mret (fst (Summary_CI99 summary), snd (Summary_CI99 summary))
      else
        sortedDiff ← with_heap (fun h =>
          let '(h, s) := make (length (contents h differences)) h in
          (h, Returned s));
        with_heap (fun h => (copy sortedDiff differences h, Returned tt));;
        with_heap (fun h => (slices_Sort_in_place sortedDiff h, Returned tt));;
        '(h, _) ← get_state;
        let len := Z.of_nat (length (contents h sortedDiff)) in
        let lowerIdx := to_int (alpha * of_int len) in
        let upperIdx := to_int ((of_int 1 - alpha) * of_int len) in
        lower ← lift (index_get (contents h sortedDiff) lowerIdx);
        upper ← lift (index_get (contents h sortedDiff) upperIdx);
        mret (lower, upper)
  | _, _ => mret (of_int 0, of_int 0)
  end.

(** ** Package metrics *)

Record MetricEstimate : Type := {
  MetricEstimate_Mean : F;
  MetricEstimate_Median : F;
  MetricEstimate_Mode : F;
  MetricEstimate_CI95 : F * F;
  MetricEstimate_CI99 : F * F;
  MetricEstimate_Samples : slice;
  MetricEstimate_Summary : Summary (F:=F);
}.

Definition estimate_literal (summary : Summary) (samples : slice)
  : MetricEstimate :=
  {| MetricEstimate_Mean := Summary_Mean summary;
     MetricEstimate_Median := Summary_Median summary;
     MetricEstimate_Mode := Summary_Mode summary;
     MetricEstimate_CI95 := Summary_CI95 summary;
     MetricEstimate_CI99 := Summary_CI99 summary;
     MetricEstimate_Samples := samples;
     MetricEstimate_Summary := summary |}.

Record BusinessMetrics : Type := {
  BusinessMetrics_DefaultPriors : gmap string Prior;
}.

Definition NewBusinessMetrics : outcome BusinessMetrics :=
  conversion ← NewBeta (of_int 1) (of_int 1);
  revenue ← NewNormalConjugate (of_int 100) (of_int 50) (of_int 100);
  retention ← NewBeta (of_int 1) (of_int 1);
  churn ← NewBeta (of_int 1) (of_int 1);
  Returned {| BusinessMetrics_DefaultPriors :=
                <["conversion" := Prior_Beta conversion]>
                (<["revenue" := Prior_NormalConjugate revenue]>
                 (<["retention" := Prior_Beta retention]>
                  (<["churn" := Prior_Beta churn]> ∅))) |}.

(** The loop of [ConversionRate]: [data[i] = 1.0] for i < [successes]. *)
Fixpoint ones_loop (i : Z) (todo : nat) (data : list F) : outcome (list F) :=
  match todo with
  | O => Returned data
  | S todo =>
      data ← index_set data i (of_int 1);
      ones_loop (i + 1)%Z todo data
  end.

Definition ConversionRate (bm : BusinessMetrics) (successes trials : Z)
  : prog (heap F * G) MetricEstimate :=
  let prior := BusinessMetrics_DefaultPriors bm !! "conversion" in
  data ← lift (make_list trials);
  data ← lift (ones_loop 0 (Z.to_nat successes) data);
  posterior ← lift (Prior_Update prior data);
  samples ← with_rng (Posterior_SampleN posterior 10000);
  samples ← with_heap (alloc samples);
  summary ← with_heap (ComputeSummary samples);
  mret (estimate_literal summary samples).

Definition ChurnProbability (bm : BusinessMetrics)
    (activeCustomers churnedCustomers : Z) : prog (heap F * G) MetricEstimate :=
  ConversionRate bm churnedCustomers (int_add activeCustomers churnedCustomers).

(** [xs[i % len(xs)]] *)
Definition index_cyclic (samples : list F) (i : Z) : outcome F :=
  j ← int_rem i (Z.of_nat (length samples));
  index_get samples j.

(** The loop of [CustomerLifetimeValue]. *)
Fixpoint clv_loop (aovSamples freqSamples churnSamples : list F)
    (i : Z) (todo : nat) (clvSamples : list F) : outcome (list F) :=
  match todo with
  | O => Returned clvSamples
  | S todo =>
      aov ← index_cyclic aovSamples i;
      freq ← index_cyclic freqSamples i;
      churn ← index_cyclic churnSamples i;
      clvSamples ←
        (if churn >? of_int 0 then
           index_set clvSamples i (aov * freq * (of_int 1 / churn))
         else
           index_set clvSamples i (aov * freq * of_int 100));
      clv_loop aovSamples freqSamples churnSamples (i + 1)%Z todo clvSamples
  end.

Definition CustomerLifetimeValue
    (avgOrderValue purchaseFrequency churnRate : MetricEstimate)
  : prog (heap F) MetricEstimate :=
  h ← get_state;
  clvSamples ← lift (make_list nSamples);
  clvSamples ← lift (clv_loop (contents h (MetricEstimate_Samples avgOrderValue))
                              (contents h (MetricEstimate_Samples purchaseFrequency))
                              (contents h (MetricEstimate_Samples churnRate))
                              0 (Z.to_nat nSamples) clvSamples);
  clvSamples ← alloc clvSamples;
  summary ← ComputeSummary clvSamples;
  mret (estimate_literal summary clvSamples).

(** The zero value of [MetricEstimate]. *)
Definition zero_MetricEstimate : MetricEstimate :=
  estimate_literal {| Summary_Mean := of_int 0;
                      Summary_Median := of_int 0;
                      Summary_Mode := of_int 0;
                      Summary_Variance := of_int 0;
                      Summary_StdDev := of_int 0;
                      Summary_CI95 := (of_int 0, of_int 0);
                      Summary_CI99 := (of_int 0, of_int 0);
                      Summary_Samples := nil_slice |} nil_slice.




End Sampling.

(** ** Quantities the further properties speak of *)

(** The posterior an arm of the test should hold: none before any data
    has come in, the prior updated with all the data afterwards. *)
Definition posterior_of_data {F} `{Float64 F}
    (prior : option Prior) (data : list F) : option Posterior :=
  match data with
  | [] => None
  | _ => match Prior_Update prior data with
         | Returned post => Some post
         | Panicked _ => None
         end
  end.

Definition posteriors_follow_data {F} `{Float64 F} (ab : ABTest) : Prop :=
  ABTest_ControlPost ab
  = posterior_of_data (ABTest_ControlPrior ab) (ABTest_ControlData ab) /\
  ABTest_TreatmentPost ab
  = posterior_of_data (ABTest_TreatmentPrior ab) (ABTest_TreatmentData ab).

(** The estimate made of 10000 draws from a posterior, as
    [ConversionRate] makes it from the updated prior. *)
Definition estimate_of_posterior {F} `{Float64 F} {G : Type}
    (distuv_Beta_Rand : distuv_Beta -> prog G F)
    (distuv_Normal_Rand : distuv_Normal -> prog G F)
    (posterior : Posterior) : prog (heap F * G) MetricEstimate :=
  samples ← with_rng (Posterior_SampleN distuv_Beta_Rand distuv_Normal_Rand
                                        posterior 10000);
  samples ← with_heap (alloc samples);
  summary ← with_heap (ComputeSummary samples);
  mret (estimate_literal summary samples).


(** A sampler that always delivers the same value, and a test with one
    posterior on each arm, for the examples. *)
Definition constant_draw {A F : Type} (x : F) : A -> prog unit F :=
  fun _ g => (g, Returned x).

Definition example_ABTest : ABTest (F:=float64) :=
  {| ABTest_ControlPrior := Some (Prior_Beta (Beta_value (of_int 1) (of_int 1)));
     ABTest_TreatmentPrior := Some (Prior_Beta (Beta_value (of_int 1) (of_int 1)));
     ABTest_ControlData := [of_int 1; of_int 0];
     ABTest_TreatmentData := [of_int 1; of_int 1];
     ABTest_ControlPost :=
       Some (Posterior_Beta
               {| BetaPosterior_Beta := Beta_value (of_int 2) (of_int 2) |});
     ABTest_TreatmentPost :=
       Some (Posterior_Beta
               {| BetaPosterior_Beta := Beta_value (of_int 3) (of_int 1) |}) |}.

(** * Properties *)

(** ** Facts about binary64 comparisons and NaN *)

Lemma SFcompare_antisym (x y : float64) :
  SFcompare y x = option_map CompOpp (SFcompare x y).
Proof.
  destruct x as [sx|sx| |sx mx ex], y as [sy|sy| |sy my ey];
    try reflexivity; try (destruct sx; reflexivity);
    try (destruct sy; reflexivity); try (destruct sx, sy; reflexivity).
  cbn [SFcompare option_map]. f_equal.
  destruct sx, sy; try reflexivity;
    rewrite (Z.compare_antisym ex ey);
    destruct (ex ?= ey)%Z; cbn [CompOpp]; try reflexivity;
    rewrite (Pos.compare_cont_antisym mx my Eq); cbn [CompOpp];
    reflexivity.
Qed.

Lemma fltb_asym (x y : float64) : (x <? y)%go = true -> (y <? x)%go = false.
Proof.
  cbn [fltb binary64]. unfold SFltb. rewrite (SFcompare_antisym x y).
  by destruct (SFcompare x y) as [[]|].
Qed.

Lemma fleb_not_fltb (x y : float64) : (x <=? y)%go = true -> (y <? x)%go = false.
Proof.
  cbn [fltb fleb binary64]. unfold SFltb, SFleb. rewrite (SFcompare_antisym x y).
  by destruct (SFcompare x y) as [[]|].
Qed.

Lemma SFcompare_refl (x : float64) :
  x <> S754_nan -> SFcompare x x = Some Eq.
Proof.
  destruct x as [s|s| |s m e]; intros Hx; try done;
    try (by destruct s).
  cbn [SFcompare]. rewrite Z.compare_refl, Pos.compare_cont_refl.
  by destruct s.
Qed.

Lemma IsNaN_true (x : float64) : IsNaN x = true <-> x = S754_nan.
Proof.
  split; [|by intros ->].
  intros Hx. destruct x as [s|s| |s m e]; [exfalso..|reflexivity|exfalso];
    unfold IsNaN in Hx; cbn [feqb binary64] in Hx; unfold SFeqb in Hx;
    rewrite SFcompare_refl in Hx by discriminate; discriminate.
Qed.

Lemma fadd_nan_r (x : float64) : (x + S754_nan)%go = S754_nan.
Proof. by destruct x. Qed.

Lemma fmul_nan_r (x : float64) : (x * S754_nan)%go = S754_nan.
Proof. by destruct x. Qed.

Lemma fdiv_nan_l (y : float64) : (S754_nan / y)%go = S754_nan.
Proof. by destruct y. Qed.

(** Division by [+0] never gives a zero (nor any finite number). *)
Lemma fdiv_zero_r (x : float64) :
  (x / S754_zero false)%go = S754_nan \/
  exists s, (x / S754_zero false)%go = S754_infinity s.
Proof. destruct x as [s|s| |s m e]; cbn; eauto. Qed.

(** ** Whole numbers below 2^53 are exact in binary64

    [float64(n)] and the increment [x++] involve no rounding while the
    value stays below 2^53.  The lemmas follow the rounding algorithm of
    [SpecFloat]: align, shift right, round to nearest-even. *)

Ltac fexp_lia := unfold fexp, emin, prec, emax in *; lia.

Lemma iter_xO_Z (p n : positive) :
  Zpos (Pos.iter xO p n) = Zpos p * 2 ^ Zpos n.
Proof.
  change (Pos.iter xO p n) with (shift_pos n p).
  rewrite shift_pos_correct. change (Z.pow_pos 2 n) with (2 ^ Zpos n). lia.
Qed.

Lemma digits2_pos_bounds (x : positive) :
  2 ^ (Zpos (digits2_pos x) - 1) <= Zpos x < 2 ^ Zpos (digits2_pos x).
Proof.
  induction x as [x IH|x IH|]; cbn [digits2_pos].
  - rewrite Pos2Z.inj_succ, (Pos2Z.inj_xI x).
    replace (Z.succ (Zpos (digits2_pos x)) - 1)
      with (Z.succ (Zpos (digits2_pos x) - 1)) by lia.
    rewrite !Z.pow_succ_r by lia. lia.
  - rewrite Pos2Z.inj_succ, (Pos2Z.inj_xO x).
    replace (Z.succ (Zpos (digits2_pos x)) - 1)
      with (Z.succ (Zpos (digits2_pos x) - 1)) by lia.
    rewrite !Z.pow_succ_r by lia. lia.
  - cbn. lia.
Qed.

Lemma digits2_pos_unique (x : positive) (d : Z) :
  2 ^ (d - 1) <= Zpos x < 2 ^ d -> Zpos (digits2_pos x) = d.
Proof.
  intros Hd. pose proof (digits2_pos_bounds x) as Hx.
  set (dx := Zpos (digits2_pos x)) in *.
  assert (0 < d).
  { destruct (Z_lt_le_dec 0 d) as [|Hle]; [done|].
    assert (2 ^ d <= 1); [|lia].
    destruct (Z.eq_dec d 0) as [->|]; [cbn; lia|].
    rewrite Z.pow_neg_r by lia. lia. }
  destruct (Z.lt_trichotomy dx d) as [Hlt|[Heq|Hgt]]; [|done|].
  - assert (2 ^ dx <= 2 ^ (d - 1)) by (apply Z.pow_le_mono_r; lia). lia.
  - assert (2 ^ d <= 2 ^ (dx - 1)) by (apply Z.pow_le_mono_r; lia). lia.
Qed.

Lemma digits2_pos_shift (p n : positive) (j : Z) :
  0 <= j -> Zpos n = Zpos p * 2 ^ j ->
  Zpos (digits2_pos n) = Zpos (digits2_pos p) + j.
Proof.
  intros Hj Hn. apply digits2_pos_unique. rewrite Hn.
  pose proof (digits2_pos_bounds p) as [Hlo Hhi].
  replace (Zpos (digits2_pos p) + j - 1) with (Zpos (digits2_pos p) - 1 + j) by lia.
  rewrite !Z.pow_add_r by lia.
  assert (0 < 2 ^ j) by (apply Z.pow_pos_nonneg; lia).
  split; nia.
Qed.

Lemma shl_align_spec (mx : positive) (ex ex' : Z) :
  exists mz, shl_align mx ex ex' = (mz, Z.min ex ex') /\
             Zpos mz = Zpos mx * 2 ^ (ex - Z.min ex ex').
Proof.
  unfold shl_align. destruct (ex' - ex) as [|d|d] eqn:Hd.
  - exists mx. replace (Z.min ex ex') with ex by lia.
    rewrite Z.sub_diag. split; [done|cbn; lia].
  - exists mx. replace (Z.min ex ex') with ex by lia.
    rewrite Z.sub_diag. split; [done|cbn; lia].
  - exists (Pos.iter xO mx d). replace (Z.min ex ex') with ex' by lia.
    split; [done|]. rewrite iter_xO_Z. f_equal. f_equal. lia.
Qed.

Lemma iter_pos_nat {A} (f : A -> A) (p : positive) (x : A) :
  SpecFloat.iter_pos f p x = @Nat.iter (Pos.to_nat p) A f x.
Proof.
  revert x. induction p as [p IH|p IH|]; intros x; cbn [SpecFloat.iter_pos].
  - rewrite !IH, Pos2Nat.inj_xI.
    replace (S (2 * Pos.to_nat p))%nat with (Pos.to_nat p + (Pos.to_nat p + 1))%nat by lia.
    rewrite !Nat.iter_add. done.
  - rewrite !IH, Pos2Nat.inj_xO.
    replace (2 * Pos.to_nat p)%nat with (Pos.to_nat p + Pos.to_nat p)%nat by lia.
    by rewrite Nat.iter_add.
  - done.
Qed.

Lemma iter_shr_1_exact (t : nat) (m q : positive) :
  Zpos m = Zpos q * 2 ^ Z.of_nat t ->
  @Nat.iter t shr_record shr_1 {| shr_m := Zpos m; shr_r := false; shr_s := false |}
  = {| shr_m := Zpos q; shr_r := false; shr_s := false |}.
Proof.
  revert q. induction t as [|t IH]; intros q Hm.
  - cbn in *. f_equal. lia.
  - rewrite Nat.iter_succ, (IH (xO q)).
    + reflexivity.
    + rewrite Hm, Nat2Z.inj_succ, Z.pow_succ_r by lia. lia.
Qed.

Lemma shr_exact (m q : positive) (e t : Z) :
  0 <= t -> Zpos m = Zpos q * 2 ^ t ->
  shr {| shr_m := Zpos m; shr_r := false; shr_s := false |} e t
  = ({| shr_m := Zpos q; shr_r := false; shr_s := false |}, e + t).
Proof.
  intros Ht Hm. destruct t as [|t|t]; [| |lia].
  - cbn in *. rewrite Z.add_0_r. do 2 f_equal. lia.
  - cbn [shr]. rewrite iter_pos_nat. f_equal.
    apply iter_shr_1_exact. by rewrite positive_nat_Z.
Qed.

(** Rounding an integer below 2^53, given as [n * 2^-j]: the result is
    the 53-bit mantissa [q] with exponent [digits - 53]. *)
Lemma binary_round_exact (p n q : positive) (j : Z) :
  0 <= j ->
  Zpos n = Zpos p * 2 ^ j ->
  Zpos (digits2_pos p) <= 53 ->
  Zpos q = Zpos p * 2 ^ (53 - Zpos (digits2_pos p)) ->
  binary_round prec emax false n (- j)
  = S754_finite false q (Zpos (digits2_pos p) - 53).
Proof.
  intros Hj Hn Hd Hq.
  pose proof (digits2_pos_shift p n j Hj Hn) as Hdn.
  assert (Hdq : Zpos (digits2_pos q) = 53)
    by (rewrite (digits2_pos_shift p q (53 - Zpos (digits2_pos p)) ltac:(lia) Hq); lia).
  remember (Zpos (digits2_pos p)) as d eqn:Hdp.
  assert (Hd1 : 1 <= d) by lia.
  unfold binary_round. rewrite Hdn.
  replace (fexp prec emax (d + j + - j)) with (d - 53)
    by fexp_lia.
  destruct (shl_align_spec n (- j) (d - 53)) as (mz & -> & Hmz).
  remember (Z.min (- j) (d - 53)) as ez eqn:Hez.
  assert (Hmzp : Zpos mz = Zpos p * 2 ^ (- ez)).
  { rewrite Hmz, Hn, <- Z.mul_assoc, <- Z.pow_add_r by lia. do 2 f_equal. lia. }
  assert (Hdz : Zpos (digits2_pos mz) = d - ez)
    by (rewrite (digits2_pos_shift p mz (- ez) ltac:(lia) Hmzp); lia).
  unfold binary_round_aux, shr_fexp. cbn [Zdigits2 shr_record_of_loc].
  rewrite Hdz.
  replace (fexp prec emax (d - ez + ez) - ez) with (d - 53 - ez)
    by fexp_lia.
  rewrite (shr_exact mz q ez (d - 53 - ez)); [|lia|].
  2:{ rewrite Hmzp, Hq, <- Z.mul_assoc, <- Z.pow_add_r by lia. do 2 f_equal. lia. }
  cbn [shr_m loc_of_shr_record round_nearest_even Zdigits2].
  rewrite Hdq.
  replace (fexp prec emax (53 + (ez + (d - 53 - ez))) - (ez + (d - 53 - ez)))
    with 0 by fexp_lia.
  cbn [shr shr_m].
  replace (ez + (d - 53 - ez)) with (d - 53) by lia.
  replace (d - 53 <=? emax - prec) with true; [done|].
  symmetry. apply Z.leb_le. unfold emax, prec. lia.
Qed.

Lemma digits2_pos_le_53 (p : positive) :
  Zpos p < 2 ^ 53 -> Zpos (digits2_pos p) <= 53.
Proof.
  intros Hp. pose proof (digits2_pos_bounds p) as [Hlo _].
  destruct (Z_le_gt_dec (Zpos (digits2_pos p)) 53) as [|Hgt]; [done|].
  assert (2 ^ 53 <= 2 ^ (Zpos (digits2_pos p) - 1))
    by (apply Z.pow_le_mono_r; lia).
  lia.
Qed.

(** float64(n) for 0 < n < 2^53 is exact: a 53-bit mantissa holding n. *)
Lemma of_int_pos_exact (p : positive) :
  Zpos p < 2 ^ 53 ->
  exists q, (of_int (Zpos p) : float64)
            = S754_finite false q (Zpos (digits2_pos p) - 53) /\
            Zpos q = Zpos p * 2 ^ (53 - Zpos (digits2_pos p)).
Proof.
  intros Hp. pose proof (digits2_pos_le_53 p Hp) as Hd.
  assert (Hpos : 0 < Zpos p * 2 ^ (53 - Zpos (digits2_pos p))).
  { apply Z.mul_pos_pos; [lia|]. apply Z.pow_pos_nonneg; lia. }
  exists (Z.to_pos (Zpos p * 2 ^ (53 - Zpos (digits2_pos p)))).
  rewrite Z2Pos.id by done. split; [|done].
  cbn [of_int binary64 binary_normalize].
  apply (binary_round_exact p p _ 0); [lia|cbn; lia|done|].
  by rewrite Z2Pos.id.
Qed.

(** Below 2^53 the increment [x + 1.0] of a whole number is exact. *)
Lemma of_int_succ (k : Z) :
  0 <= k -> k + 1 < 2 ^ 53 ->
  ((of_int k : float64) + of_int 1)%go = of_int (k + 1).
Proof.
  intros Hk Hk1. destruct k as [|p|p]; [reflexivity| |lia].
  replace (Zpos p + 1) with (Zpos (p + 1)) in * by lia.
  destruct (of_int_pos_exact p ltac:(lia)) as (q & -> & Hq).
  pose proof (digits2_pos_le_53 (p + 1) Hk1) as Hd'.
  destruct (of_int_pos_exact (p + 1) Hk1) as (q' & -> & Hq').
  pose proof (digits2_pos_le_53 p ltac:(lia)) as Hd.
  remember (Zpos (digits2_pos p)) as d eqn:Hdp.
  assert (Hd1 : 1 <= d) by lia.
  change (of_int 1 : float64) with (S754_finite false 4503599627370496 (-52)).
  cbn [fadd binary64 SFadd cond_Zopp].
  replace (Z.min (d - 53) (-52)) with (-52) by lia.
  destruct (shl_align_spec q (d - 53) (-52)) as (mz & Hal & Hmz).
  replace (Z.min (d - 53) (-52)) with (-52) in * by lia.
  rewrite Hal.
  change (shl_align 4503599627370496 (-52) (-52))
    with (4503599627370496%positive, -52).
  cbn [fst].
  change (Zpos mz + 4503599627370496) with (Zpos (mz + 4503599627370496)).
  cbn [binary_normalize].
  apply (binary_round_exact (p + 1) _ q' 52); [lia| |done|done].
  rewrite Pos2Z.inj_add, Hmz, Hq, <- Z.mul_assoc, <- Z.pow_add_r by lia.
  replace (53 - d + (d - 53 - - 52)) with 52 by lia. lia.
Qed.

(** ** Exact quotients and differences *)

(** Dividing a valid finite float64 by 1.0 returns it unchanged. *)
Lemma fdiv_one (s : bool) (m : positive) (e : Z) :
  bounded prec emax m e = true ->
  (S754_finite s m e / of_int 1)%go = S754_finite s m e.
Proof.
  intros Hb. unfold bounded, canonical_mantissa in Hb.
  apply andb_true_iff in Hb as [Hc He].
  apply Z.eqb_eq in Hc. apply Z.leb_le in He.
  unfold fexp, emin, prec, emax in Hc, He.
  pose proof (digits2_pos_bounds m) as Hm.
  remember (Zpos (digits2_pos m)) as d eqn:Hd.
  assert (Hd1 : 1 <= d) by lia.
  change (of_int 1 : float64) with (S754_finite false 4503599627370496 (-52)).
  cbn [fdiv binary64 SFdiv]. unfold SFdiv_core_binary.
  cbn [Zdigits2]. rewrite <- Hd.
  change (Zpos (digits2_pos 4503599627370496)) with 53.
  destruct (Z.eq_dec e (-1074)) as [->|Hne].
  - (* least exponent: the quotient needs no shift *)
    replace (Z.min (fexp prec emax (d + -1074 - (53 + -52))) (-1074 - -52))
      with (-1074) by fexp_lia.
    change (-1074 - -52 - -1074) with 52.
    rewrite Z.shiftl_mul_pow2 by lia.
    pose proof (Z.div_eucl_eq (Zpos m * 2 ^ 52) 4503599627370496 ltac:(lia)) as Hdiv.
    pose proof (Z.mod_pos_bound (Zpos m * 2 ^ 52) 4503599627370496 ltac:(lia)) as Hmod.
    unfold Z.modulo in Hmod.
    destruct (Z.div_eucl (Zpos m * 2 ^ 52) 4503599627370496) as [q r].
    change (2 ^ 52) with 4503599627370496 in Hdiv.
    assert (r = 0) by lia. assert (q = Zpos m) by lia. subst q r.
    change (new_location 4503599627370496 0) with loc_Exact.
    unfold binary_round_aux, shr_fexp. cbn [Zdigits2 shr_record_of_loc].
    rewrite <- Hd.
    replace (fexp prec emax (d + -1074) - -1074) with 0
      by fexp_lia.
    cbn [shr shr_m loc_of_shr_record round_nearest_even Zdigits2].
    rewrite <- Hd.
    replace (fexp prec emax (d + -1074) - -1074) with 0
      by fexp_lia.
    cbn [shr shr_m]. by rewrite xorb_false_r.
  - (* normal numbers: the quotient is 2m, shifted back by one bit *)
    assert (Hd53 : d = 53) by lia.
    replace (Z.min (fexp prec emax (d + e - (53 + -52))) (e - -52))
      with (e - 1) by fexp_lia.
    replace (e - -52 - (e - 1)) with 53 by lia.
    rewrite Z.shiftl_mul_pow2 by lia.
    pose proof (Z.div_eucl_eq (Zpos m * 2 ^ 53) 4503599627370496 ltac:(lia)) as Hdiv.
    pose proof (Z.mod_pos_bound (Zpos m * 2 ^ 53) 4503599627370496 ltac:(lia)) as Hmod.
    unfold Z.modulo in Hmod.
    destruct (Z.div_eucl (Zpos m * 2 ^ 53) 4503599627370496) as [q r].
    change (2 ^ 53) with (2 * 4503599627370496) in Hdiv.
    assert (r = 0) by lia. assert (q = Zpos (xO m)) by lia. subst q r.
    change (new_location 4503599627370496 0) with loc_Exact.
    unfold binary_round_aux, shr_fexp. cbn [Zdigits2 shr_record_of_loc digits2_pos].
    rewrite Pos2Z.inj_succ, <- Hd.
    replace (fexp prec emax (Z.succ d + (e - 1)) - (e - 1)) with 1
      by fexp_lia.
    cbn [shr SpecFloat.iter_pos shr_1 shr_m loc_of_shr_record
         round_nearest_even Zdigits2 orb].
    rewrite <- Hd.
    replace (fexp prec emax (d + (e - 1 + 1)) - (e - 1 + 1)) with 0
      by fexp_lia.
    cbn [shr shr_m]. rewrite xorb_false_r.
    replace (e - 1 + 1) with e by lia.
    replace (e <=? emax - prec) with true; [done|].
    symmetry. apply Z.leb_le. unfold emax, prec. lia.
Qed.

Lemma fsub_self (s : bool) (m : positive) (e : Z) :
  (S754_finite s m e - S754_finite s m e)%go = S754_zero false.
Proof.
  cbn [fsub binary64 SFsub]. rewrite Z.min_id. unfold shl_align.
  rewrite !Z.sub_diag. reflexivity.
Qed.

(** ** Rounded products with a probability

    The quantile loop compares its rank counter with [p * n].  For a
    normal p < 1 the rounded product stays at or below n, so the loop
    always finds a rank. *)

Lemma shr_1_div2 (mrs : shr_record) :
  0 <= shr_m mrs -> shr_m (shr_1 mrs) = shr_m mrs / 2.
Proof.
  destruct mrs as [m r s]. cbn [shr_m]. intros Hm.
  rewrite <- Z.div2_div.
  destruct m as [|[p|p|]|p]; try reflexivity; lia.
Qed.

Lemma iter_shr_1_div (t : nat) (mrs : shr_record) :
  0 <= shr_m mrs ->
  shr_m (@Nat.iter t shr_record shr_1 mrs) = shr_m mrs / 2 ^ Z.of_nat t.
Proof.
  intros Hm. induction t as [|t IH].
  - cbn. by rewrite Z.div_1_r.
  - rewrite Nat.iter_succ, shr_1_div2, IH.
    + rewrite Nat2Z.inj_succ, Z.pow_succ_r, Z.div_div by lia.
      f_equal. lia.
    + rewrite IH. apply Z.div_pos; [done|]. apply Z.pow_pos_nonneg; lia.
Qed.

Lemma shr_div (m : positive) (e t : Z) :
  0 < t ->
  exists mrs, shr {| shr_m := Zpos m; shr_r := false; shr_s := false |} e t
              = (mrs, e + t) /\ shr_m mrs = Zpos m / 2 ^ t.
Proof.
  intros Ht. destruct t as [|t|t]; try lia.
  cbn [shr]. eexists. split; [reflexivity|].
  rewrite iter_pos_nat, iter_shr_1_div by (cbn; lia).
  cbn [shr_m]. by rewrite positive_nat_Z.
Qed.

Lemma round_nearest_even_bounds (m : Z) (l : location) :
  m <= round_nearest_even m l <= m + 1.
Proof. destruct l as [|[]]; cbn; try destruct (Z.even m); lia. Qed.

(** Rounding a mantissa of more than 53 bits: the mantissa is shifted
    down to 53 bits and goes up by at most one; only the all-ones
    mantissa can carry into the next binade. *)
Lemma binary_round_aux_long (M : positive) (E : Z) :
  let D := Zpos (digits2_pos M) in
  let m1 := Zpos M / 2 ^ (D - 53) in
  53 < D -> -1074 <= E + (D - 53) -> E + (D - 53) < 971 ->
  exists M' E',
    binary_round_aux prec emax false (Zpos M) E loc_Exact
    = S754_finite false M' E' /\
    ((E' = E + (D - 53) /\ m1 <= Zpos M' <= m1 + 1 /\ Zpos M' < 2 ^ 53) \/
     (E' = E + (D - 53) + 1 /\ m1 = 2 ^ 53 - 1 /\ Zpos M' = 2 ^ 52)).
Proof.
  intros D m1 HD Hlo Hhi.
  pose proof (digits2_pos_bounds M) as HM. fold D in HM.
  assert (Hm1 : 2 ^ 52 <= m1 < 2 ^ 53).
  { unfold m1. assert (0 < 2 ^ (D - 53)) by (apply Z.pow_pos_nonneg; lia).
    split.
    - apply Z.div_le_lower_bound; [done|].
      rewrite Z.mul_comm, <- Z.pow_add_r by lia.
      replace (52 + (D - 53)) with (D - 1) by lia. apply HM.
    - apply Z.div_lt_upper_bound; [done|].
      rewrite <- Z.pow_add_r by lia.
      replace (D - 53 + 53) with D by lia. apply HM. }
  unfold binary_round_aux, shr_fexp. cbn [Zdigits2 shr_record_of_loc].
  fold D.
  replace (fexp prec emax (D + E) - E) with (D - 53) by fexp_lia.
  destruct (shr_div M E (D - 53) ltac:(lia)) as (mrs & -> & Hmrs).
  fold m1 in Hmrs. rewrite Hmrs.
  pose proof (round_nearest_even_bounds m1 (loc_of_shr_record mrs)) as Hr.
  destruct (round_nearest_even m1 (loc_of_shr_record mrs)) as [|m2|m2] eqn:Hm2;
    try lia.
  cbn [Zdigits2].
  destruct (Z.eq_dec (Zpos m2) (2 ^ 53)) as [Hcarry|Hnocarry].
  - change (2 ^ 53) with 9007199254740992 in Hcarry.
    assert (m2 = 9007199254740992%positive) as -> by lia.
    change (Zpos (digits2_pos 9007199254740992)) with 54.
    replace (fexp prec emax (54 + (E + (D - 53))) - (E + (D - 53))) with 1
      by fexp_lia.
    cbn [shr SpecFloat.iter_pos shr_1 shr_m].
    replace (E + (D - 53) + 1 <=? emax - prec) with true
      by (symmetry; apply Z.leb_le; unfold emax, prec; lia).
    eexists _, _. split; [reflexivity|]. right.
    split; [done|]. split; [|done]. change (2 ^ 53) with 9007199254740992 in *. lia.
  - assert (Hdm2 : Zpos (digits2_pos m2) = 53)
      by (apply digits2_pos_unique; change (53 - 1) with 52; lia).
    rewrite Hdm2.
    replace (fexp prec emax (53 + (E + (D - 53))) - (E + (D - 53))) with 0
      by fexp_lia.
    cbn [shr shr_m].
    replace (E + (D - 53) <=? emax - prec) with true
      by (symmetry; apply Z.leb_le; unfold emax, prec; lia).
    eexists _, _. split; [reflexivity|]. left. lia.
Qed.

(** For a normal p < 1 and a whole number 0 < n < 2^53, the rounded
    product p * n does not exceed n. *)
Lemma fmul_of_int_le (mp : positive) (ep n : Z) :
  Zpos (digits2_pos mp) = 53 -> -1074 <= ep <= -53 -> 0 < n < 2 ^ 53 ->
  (S754_finite false mp ep * of_int n <=? of_int n)%go = true.
Proof.
  intros Hdp Hep Hn. destruct n as [|pn|pn]; try lia.
  destruct (of_int_pos_exact pn ltac:(lia)) as (q & -> & Hq).
  pose proof (digits2_pos_le_53 pn ltac:(lia)) as Hd.
  assert (Hdq : Zpos (digits2_pos q) = 53)
    by (rewrite (digits2_pos_shift pn q (53 - Zpos (digits2_pos pn))
                   ltac:(lia) Hq); lia).
  remember (Zpos (digits2_pos pn)) as d eqn:Hdpn.
  assert (Hd1 : 1 <= d) by lia.
  pose proof (digits2_pos_bounds mp) as Hmp. rewrite Hdp in Hmp.
  pose proof (digits2_pos_bounds q) as Hqb. rewrite Hdq in Hqb.
  change (53 - 1) with 52 in *.
  change (2 ^ 52) with 4503599627370496 in *.
  change (2 ^ 53) with 9007199254740992 in *.
  cbn [fmul binary64 SFmul xorb].
  pose proof (digits2_pos_bounds (mp * q)) as HM.
  remember (Zpos (digits2_pos (mp * q))) as D eqn:HD.
  rewrite Pos2Z.inj_mul in HM.
  assert (HD' : 105 <= D <= 106).
  { assert (2 ^ 104 <= Zpos mp * Zpos q < 2 ^ 106)
      by (change (2 ^ 104) with (4503599627370496 * 4503599627370496);
          change (2 ^ 106) with (9007199254740992 * 9007199254740992); nia).
    split.
    - destruct (Z_le_gt_dec 105 D) as [|Hgt]; [done|].
      assert (2 ^ D <= 2 ^ 104) by (apply Z.pow_le_mono_r; lia). lia.
    - destruct (Z_le_gt_dec D 106) as [|Hgt]; [done|].
      assert (2 ^ 106 <= 2 ^ (D - 1)) by (apply Z.pow_le_mono_r; lia). lia. }
  destruct (binary_round_aux_long (mp * q) (ep + (d - 53)))
    as (M' & E' & -> & Hcases); rewrite <- ?HD; try lia.
  rewrite <- HD, Pos2Z.inj_mul in Hcases.
  assert (Hm1 : D = 106 -> Zpos mp * Zpos q / 2 ^ (D - 53) < Zpos q).
  { intros ->. apply Z.div_lt_upper_bound; [done|].
    change (2 ^ (106 - 53)) with 9007199254740992. nia. }
  cbn [fleb binary64]. unfold SFleb. cbn [SFcompare].
  destruct (Z.compare_spec E' (d - 53)) as [HE|HE|HE]; [|done|exfalso].
  - rewrite Pos.compare_cont_spec. cbn [Pos.switch_Eq].
    destruct (Pos.compare_spec M' q) as [|?|Hgt]; try done. exfalso.
    destruct Hcases as [(HE' & HM' & _)|(HE' & _ & HM')].
    + assert (D = 106) by lia. specialize (Hm1 ltac:(done)). lia.
    + lia.
  - destruct Hcases as [(HE' & _)|(HE' & Hones & _)]; [lia|].
    assert (D = 106) by lia. specialize (Hm1 ltac:(done)). lia.
Qed.

Lemma normal_below_one_range (p : float64) :
  normal_below_one p = true ->
  (p >=? of_int 0)%go = true /\ (p <=? of_int 1)%go = true.
Proof.
  destruct p as [| | |[] m e]; try discriminate. cbn [normal_below_one].
  intros Hp. apply andb_true_iff in Hp as [_ He]. apply Z.leb_le in He.
  split; [reflexivity|]. cbn [fleb binary64]. unfold SFleb.
  change (of_int 1 : float64) with (S754_finite false 4503599627370496 (-52)).
  cbn [SFcompare]. destruct (Z.compare_spec e (-52)) as [| |]; try done; lia.
Qed.

(** ** Beta *)

Lemma NewBeta_eq {F} `{Float64 F} (alpha beta : F) :
  NewBeta alpha beta = Returned (Beta_value alpha beta).
Proof. reflexivity. Qed.

(** C5, as the code has it: [NewBeta] performs no validation.  For all
    parameters, the non-positive ones included, it returns a Beta value
    holding exactly the parameters it was given. *)
Theorem NewBeta_never_rejects {F} `{Float64 F} (alpha beta : F) :
  exists b, NewBeta alpha beta = Returned b /\
            Beta_Alpha b = alpha /\ Beta_Beta b = beta /\
            distuv_Beta_Alpha (Beta_dist b) = alpha /\
            distuv_Beta_Beta (Beta_dist b) = beta.
Proof. eexists. repeat split. Qed.

(** C5 fails at alpha = 0, beta = -1: both are non-positive and the
    constructor does not panic. *)
Lemma NewBeta_accepts_nonpositive :
  ((of_int 0 : float64) <=? of_int 0)%go = true /\
  ((of_int (-1) : float64) <=? of_int 0)%go = true /\
  ~ panics (NewBeta (F:=float64) (of_int 0) (of_int (-1))) /\
  NewBeta (F:=float64) (of_int 0) (of_int (-1))
  = Returned (Beta_value (of_int 0) (of_int (-1))).
Proof.
  split; [reflexivity|]. split; [reflexivity|]. split; [|reflexivity].
  intros [msg Hmsg]. discriminate Hmsg.
Qed.

(** C8: the four cases of [Mode] in binary64.  The last case is every
    pair of parameters outside the first three, a NaN parameter
    included. *)
Theorem Beta_Mode_four_cases (b : Beta (F:=float64)) :
  let alpha := Beta_Alpha b in
  let beta := Beta_Beta b in
  ((alpha >? of_int 1)%go = true /\ (beta >? of_int 1)%go = true ->
   Beta_Mode b = [((alpha - of_int 1) / (alpha + beta - of_int 2))%go]) /\
  ((alpha <? of_int 1)%go = true /\ (beta <? of_int 1)%go = true ->
   Beta_Mode b = [of_int 0; of_int 1]) /\
  ((alpha <? of_int 1)%go = true /\ (beta >=? of_int 1)%go = true ->
   Beta_Mode b = [of_int 0]) /\
  (~ ((alpha >? of_int 1)%go = true /\ (beta >? of_int 1)%go = true) ->
   ~ ((alpha <? of_int 1)%go = true /\ (beta <? of_int 1)%go = true) ->
   ~ ((alpha <? of_int 1)%go = true /\ (beta >=? of_int 1)%go = true) ->
   Beta_Mode b = [of_int 1]).
Proof.
  intros alpha beta. unfold Beta_Mode. fold alpha beta.
  split; [|split; [|split]].
  - intros [Ha Hb]. by rewrite Ha, Hb.
  - intros [Ha Hb]. by rewrite (fltb_asym _ _ Ha), Ha, Hb.
  - intros [Ha Hb].
    by rewrite (fltb_asym _ _ Ha), Ha, (fleb_not_fltb _ _ Hb), Hb.
  - intros H1 H2 H3.
    destruct (of_int 1 <? alpha)%go, (of_int 1 <? beta)%go,
      (alpha <? of_int 1)%go, (beta <? of_int 1)%go,
      (of_int 1 <=? beta)%go; cbn [andb]; try reflexivity;
      exfalso; auto.
Qed.

Lemma Beta_Mode_four_cases_witness :
  Beta_Mode (Beta_value (F:=float64) (of_int 2) (of_int 3)) = [lit 1 3] /\
  Beta_Mode (Beta_value (F:=float64) (lit 1 2) (lit 1 2)) = [of_int 0; of_int 1] /\
  Beta_Mode (Beta_value (F:=float64) (lit 1 2) (of_int 1)) = [of_int 0] /\
  Beta_Mode (Beta_value (F:=float64) (of_int 1) (of_int 1)) = [of_int 1].
Proof.
  split; [|split; [|split]].
  - destruct (Beta_Mode_four_cases (Beta_value (of_int 2) (of_int 3)))
      as (Hcase & _).
    exact (Hcase (conj eq_refl eq_refl)).
  - destruct (Beta_Mode_four_cases (Beta_value (lit 1 2) (lit 1 2)))
      as (_ & Hcase & _).
    exact (Hcase (conj eq_refl eq_refl)).
  - destruct (Beta_Mode_four_cases (Beta_value (lit 1 2) (of_int 1)))
      as (_ & _ & Hcase & _).
    exact (Hcase (conj eq_refl eq_refl)).
  - destruct (Beta_Mode_four_cases (Beta_value (of_int 1) (of_int 1)))
      as (_ & _ & _ & Hcase).
    apply Hcase; intros [Ha Hb]; vm_compute in Ha; discriminate Ha.
Defined.

(** The counter of [Update] holds the number of successes exactly. *)
Lemma count_successes_from (data : list float64) (c : nat) :
  Z.of_nat (c + length data) < 2 ^ 53 ->
  fold_left (fun (successes x : float64) =>
               if (x >? of_int 0)%go then (successes + of_int 1)%go
               else successes)
            data (of_int (Z.of_nat c))
  = of_int (Z.of_nat (c + positives data)).
Proof.
  revert c. induction data as [|x data IH]; intros c Hc.
  - unfold positives. cbn. by rewrite Nat.add_0_r.
  - cbn [fold_left]. unfold positives. cbn [List.filter length] in *.
    destruct (x >? of_int 0)%go.
    + rewrite of_int_succ by lia.
      replace (Z.of_nat c + 1) with (Z.of_nat (S c)) by lia.
      rewrite IH by lia. unfold positives. cbn [length]. f_equal. lia.
    + rewrite IH by lia. done.
Qed.

Lemma count_successes_exact (data : list float64) :
  Z.of_nat (length data) < 2 ^ 53 ->
  count_successes data = of_int (Z.of_nat (positives data)).
Proof. intros Hn. apply (count_successes_from data 0). by cbn. Qed.

(** The scenario of the specification: 120 successes out of 1000 on a
    Beta(1,1) prior give Beta(121, 881). *)
Example Beta_Update_120_of_1000 :
  Beta_Update (Beta_value (F:=float64) (of_int 1) (of_int 1))
              (repeat (of_int 1) 120 ++ repeat (of_int 0) 880)
  = Returned {| BetaPosterior_Beta := Beta_value (of_int 121) (of_int 881) |}.
Proof. vm_compute. reflexivity. Qed.

(** What [Update] computes on a single observation, in binary64: a
    success leaves [(beta + 1) - 1] in place of beta. *)
Lemma Beta_Update_single_observation (b : Beta (F:=float64)) (x : float64) :
  Beta_Update b [x]
  = if (x >? of_int 0)%go
    then Returned {| BetaPosterior_Beta :=
           Beta_value (Beta_Alpha b + of_int 1)%go
                      (Beta_Beta b + of_int 1 - of_int 1)%go |}
    else Returned {| BetaPosterior_Beta :=
           Beta_value (Beta_Alpha b + of_int 0)%go
                      (Beta_Beta b + of_int 1 - of_int 0)%go |}.
Proof.
  unfold Beta_Update, count_successes. cbn [fold_left length].
  by destruct (x >? of_int 0)%go.
Qed.

(** C4 fails on the code.  On the prior Beta(1, 0.1) and the single
    success x = 1, [UpdateSingle] keeps beta = 0.1 (mantissa
    7205759403792794) while [Update] computes (0.1 + 1) - 1 =
    0.10000000000000009 (mantissa 7205759403792800): the two posteriors
    are not numerically identical. *)
Theorem Beta_UpdateSingle_differs_from_Update :
  let prior := Beta_value (F:=float64) (of_int 1) (lit 1 10) in
  Beta_UpdateSingle prior (of_int 1)
  = Returned {| BetaPosterior_Beta :=
                  Beta_value (of_int 2) (S754_finite false 7205759403792794 (-56)) |} /\
  Beta_Update prior [of_int 1]
  = Returned {| BetaPosterior_Beta :=
                  Beta_value (of_int 2) (S754_finite false 7205759403792800 (-56)) |} /\
  lit 1 10 = S754_finite false 7205759403792794 (-56) /\
  Beta_UpdateSingle prior (of_int 1) <> Beta_Update prior [of_int 1].
Proof.
  split; [vm_compute; reflexivity|]. split; [vm_compute; reflexivity|].
  split; [vm_compute; reflexivity|]. vm_compute. discriminate.
Qed.

(** ** The posterior intervals *)

(** C9: for both posterior families [HPD] is the central credible
    interval, and that interval is the pair of quantiles at
    [(1 - c)/2] and [1 - (1 - c)/2], taken in this order.  Nothing here
    depends on [c]; the equations hold for every confidence level and
    for every behaviour of the two quantile functions. *)
Theorem HPD_is_CredibleInterval {F} `{Float64 F}
    (quantileB : distuv_Beta -> F -> outcome F)
    (quantileN : distuv_Normal -> F -> outcome F)
    (bp : BetaPosterior) (np : NormalPosterior) (c : F) :
  let tail := ((of_int 1 - c) / of_int 2)%go in
  BetaPosterior_HPD quantileB bp c = BetaPosterior_CredibleInterval quantileB bp c /\
  BetaPosterior_CredibleInterval quantileB bp c
  = (lower ← Beta_Quantile quantileB (BetaPosterior_Beta bp) tail;
     upper ← Beta_Quantile quantileB (BetaPosterior_Beta bp) (of_int 1 - tail)%go;
     Returned (lower, upper)) /\
  NormalPosterior_HPD quantileN np c = NormalPosterior_CredibleInterval quantileN np c /\
  NormalPosterior_CredibleInterval quantileN np c
  = (lower ← Normal_Quantile quantileN (NormalPosterior_Normal np) tail;
     upper ← Normal_Quantile quantileN (NormalPosterior_Normal np) (of_int 1 - tail)%go;
     Returned (lower, upper)).
Proof. intros tail. repeat split. Qed.

(** ** NormalConjugate *)

Lemma NewNormalConjugate_eq {F} `{Float64 F} (mu sigma knownVariance : F) :
  NewNormalConjugate mu sigma knownVariance
  = Returned (NormalConjugate_value mu sigma knownVariance).
Proof. reflexivity. Qed.

(** In binary64: the prior N(0, 1) with known variance 1 and the data
    2, 4 give the posterior mean 2 and standard deviation sqrt(1/3). *)
Example NormalConjugate_Update_binary64 :
  NormalConjugate_Update
    (NormalConjugate_value (F:=float64) (of_int 0) (of_int 1) (of_int 1))
    [of_int 2; of_int 4]
  = Returned {| NormalPosterior_Normal :=
                  Normal_value (of_int 2) (fsqrt (lit 1 3)) |}.
Proof. vm_compute. reflexivity. Qed.

(** On no data the sample mean is 0/0: the posterior mean is NaN. *)
Lemma NormalConjugate_Update_empty (nc : NormalConjugate (F:=float64)) :
  exists post, NormalConjugate_Update nc [] = Returned post /\
               Normal_Mu (NormalPosterior_Normal post) = S754_nan.
Proof.
  eexists. split; [reflexivity|]. cbn [NormalPosterior_Normal Normal_Mu].
  change (sum_loop [] / of_int (Z.of_nat (length (A:=float64) [])))%go with S754_nan.
  by rewrite fmul_nan_r, fadd_nan_r, fdiv_nan_l.
Qed.

(** ** ComputeSummary *)

Section SummaryFacts.
Context {F : Type} `{Float64 F}.

Lemma contents_fresh_other (h : heap F) (samples : slice) (x : list F) :
  (contents h samples = [] -> x = []) ->
  contents (<[fresh (dom h) := x]> h) samples = contents h samples.
Proof.
  intros Hx. destruct samples as [|l]; [done|]. simpl.
  destruct (decide (l = fresh (dom h))) as [->|Hne].
  - assert (Hnone : h !! fresh (dom h) = None)
      by (apply not_elem_of_dom, is_fresh).
    rewrite lookup_insert_eq. simpl in Hx. rewrite Hnone in *. simpl in *.
    by rewrite Hx.
  - by rewrite lookup_insert_ne.
Qed.

Lemma contents_store (h : heap F) (l : loc) (x : list F) :
  contents (slice_store h (slice_at l) x) (slice_at l) = x.
Proof. simpl. by rewrite lookup_insert_eq. Qed.

Lemma store_store (h : heap F) (l : loc) (x y : list F) :
  slice_store (slice_store h (slice_at l) x) (slice_at l) y
  = slice_store h (slice_at l) y.
Proof. simpl. by rewrite insert_insert_eq. Qed.

(** The three heap steps of [ComputeSummary] amount to one fresh array
    holding the sorted samples. *)
Lemma ComputeSummary_unfold (samples : slice) (h : heap F) :
  ComputeSummary samples h =
  (<[fresh (dom h) := slices_Sort (contents h samples)]> h,
   summary_literal (contents h samples) (slices_Sort (contents h samples)) samples).
Proof.
  unfold ComputeSummary, make, copy, slices_Sort_in_place.
  set (l := fresh (dom h)). set (xs := contents h samples).
  change (<[l:=replicate (length xs) (of_int 0)]> h)
    with (slice_store h (slice_at l) (replicate (length xs) (of_int 0))).
  rewrite contents_store.
  assert (E1 : contents (slice_store h (slice_at l)
                           (replicate (length xs) (of_int 0))) samples = xs).
  { apply contents_fresh_other. fold xs. by intros ->. }
  rewrite E1, length_replicate, Nat.min_id.
  rewrite firstn_all, drop_ge by (rewrite length_replicate; lia).
  rewrite app_nil_r, store_store, contents_store, store_store.
  f_equal. f_equal; [|apply contents_store].
  apply contents_fresh_other. fold xs. by intros ->.
Qed.

Lemma stat_Quantile_Empirical_empty (p : F) :
  panics (stat_Quantile_Empirical p []).
Proof.
  unfold stat_Quantile_Empirical. destruct (negb _); cbn; eexists; reflexivity.
Qed.

Lemma summary_literal_empty (samples : list F) (ref : slice) :
  panics (summary_literal samples [] ref).
Proof.
  unfold summary_literal.
  destruct (stat_Quantile_Empirical_empty (lit 5 10)) as [msg ->].
  eexists. reflexivity.
Qed.

End SummaryFacts.

(** C6, as the code has it.  On an empty sequence [Update] does not
    fail: the sample mean is 0/0, so it returns a posterior whose mean
    is NaN, for every prior.  [ComputeSummary] on an empty sequence does
    fail: the first quantile computation panics and no summary is
    returned. *)
Theorem empty_input_behaviour :
  (forall nc : NormalConjugate (F:=float64),
     exists post, NormalConjugate_Update nc [] = Returned post /\
                  IsNaN (Normal_Mu (NormalPosterior_Normal post)) = true) /\
  (forall (h : heap float64) (samples : slice),
     contents h samples = [] -> panics (snd (ComputeSummary samples h))).
Proof.
  split.
  - intros nc. destruct (NormalConjugate_Update_empty nc) as (post & Hpost & Hmu).
    exists post. split; [done|]. by rewrite Hmu.
  - intros h samples Hempty. rewrite ComputeSummary_unfold, Hempty.
    apply summary_literal_empty.
Qed.

Lemma empty_input_behaviour_witness :
  (exists post,
     NormalConjugate_Update
       (NormalConjugate_value (F:=float64) (of_int 0) (of_int 1) (of_int 1)) []
     = Returned post /\
     IsNaN (Normal_Mu (NormalPosterior_Normal post)) = true) /\
  panics (snd (ComputeSummary (F:=float64) nil_slice ∅)).
Proof.
  destruct empty_input_behaviour as [Hupdate Hsummary].
  split; [apply Hupdate|]. apply Hsummary. reflexivity.
Defined.

(** C6 fails for [Update]: on the prior N(0, 1) with known variance 1
    and no data it returns, without panicking, a posterior with mean
    NaN and standard deviation 1. *)
Lemma NormalConjugate_Update_empty_returns_NaN :
  NormalConjugate_Update
    (NormalConjugate_value (F:=float64) (of_int 0) (of_int 1) (of_int 1)) []
  = Returned {| NormalPosterior_Normal := Normal_value S754_nan (of_int 1) |} /\
  ~ panics (NormalConjugate_Update
              (NormalConjugate_value (F:=float64) (of_int 0) (of_int 1) (of_int 1)) []).
Proof.
  split; [vm_compute; reflexivity|]. intros [msg Hmsg]. vm_compute in Hmsg.
  discriminate Hmsg.
Qed.

Section SortFacts.
Context {F : Type} `{Float64 F}.

Lemma sort_insert_length (v : F) (l : list F) :
  length (sort_insert v l) = S (length l).
Proof.
  induction l as [|y l IH]; cbn; [done|].
  destruct (float_less v y); cbn; [done|]. by rewrite IH.
Qed.

Lemma sort_insert_existsb (P : F -> bool) (v : F) (l : list F) :
  existsb P (sort_insert v l) = P v || existsb P l.
Proof.
  induction l as [|y l IH]; cbn; [done|].
  destruct (float_less v y); cbn; [done|].
  rewrite IH. by destruct (P v), (P y).
Qed.

Lemma sort_insert_Permutation (v : F) (l : list F) :
  Permutation (sort_insert v l) (v :: l).
Proof.
  induction l as [|y l IH]; cbn; [done|].
  destruct (float_less v y); [done|].
  rewrite IH. apply perm_swap.
Qed.

Lemma slices_Sort_from_Permutation (x acc : list F) :
  Permutation (fold_left (fun sorted v => sort_insert v sorted) x acc)
              (acc ++ x).
Proof.
  revert acc. induction x as [|v x IH]; intros acc; cbn [fold_left].
  - by rewrite app_nil_r.
  - rewrite IH, sort_insert_Permutation. cbn [app].
    apply Permutation_middle.
Qed.

(** [slices.Sort] rearranges: the sorted copy is a permutation of the
    samples. *)
Lemma slices_Sort_Permutation (x : list F) : Permutation (slices_Sort x) x.
Proof. apply (slices_Sort_from_Permutation x []). Qed.

Lemma slices_Sort_length (x : list F) : length (slices_Sort x) = length x.
Proof. apply Permutation_length, slices_Sort_Permutation. Qed.

Lemma slices_Sort_HasNaN (x : list F) :
  floats_HasNaN (slices_Sort x) = floats_HasNaN x.
Proof.
  unfold floats_HasNaN, slices_Sort.
  assert (Hfold : forall acc,
    existsb IsNaN (fold_left (fun sorted v => sort_insert v sorted) x acc)
    = existsb IsNaN acc || existsb IsNaN x).
  { induction x as [|v x IH]; intros acc; cbn [fold_left existsb].
    - by rewrite orb_false_r.
    - rewrite IH, sort_insert_existsb.
      by destruct (IsNaN v), (existsb IsNaN acc). }
  by rewrite Hfold.
Qed.

End SortFacts.

Lemma float_less_asym (x y : float64) :
  float_less x y = true -> float_less y x = false.
Proof.
  unfold float_less. intros Hxy.
  destruct (x <? y)%go eqn:Hlt.
  - rewrite (fltb_asym _ _ Hlt).
    destruct (IsNaN y) eqn:Hy; [|done].
    apply IsNaN_true in Hy as ->. by destruct x.
  - cbn [orb] in Hxy. apply andb_true_iff in Hxy as [Hx Hy].
    apply IsNaN_true in Hx as ->.
    apply negb_true_iff in Hy. rewrite Hy. by destruct y.
Qed.

Lemma sort_insert_sorted (v : float64) (l : list float64) :
  Float64sAreSorted l = true -> Float64sAreSorted (sort_insert v l) = true.
Proof.
  induction l as [|y l IH]; [done|].
  intros Hs. cbn [sort_insert].
  destruct (float_less v y) eqn:Hvy.
  - cbn [Float64sAreSorted]. rewrite (float_less_asym _ _ Hvy).
    exact Hs.
  - assert (Hl : Float64sAreSorted l = true).
    { destruct l as [|z l]; [done|]. cbn [Float64sAreSorted] in Hs.
      by apply andb_true_iff in Hs as [_ ?]. }
    specialize (IH Hl). destruct l as [|z l].
    + cbn. by rewrite Hvy.
    + cbn [sort_insert] in *. cbn [Float64sAreSorted] in Hs.
      apply andb_true_iff in Hs as [Hzy _].
      destruct (float_less v z).
      * change (negb (float_less v y) && Float64sAreSorted (v :: z :: l) = true).
        by rewrite Hvy, IH.
      * change (negb (float_less z y)
                && Float64sAreSorted (z :: sort_insert v l) = true).
        by rewrite Hzy, IH.
Qed.

(** The sorted copy always passes the sortedness check of
    [stat.Quantile]. *)
Lemma slices_Sort_sorted (x : list float64) :
  Float64sAreSorted (slices_Sort x) = true.
Proof.
  unfold slices_Sort.
  assert (Hfold : forall acc, Float64sAreSorted acc = true ->
    Float64sAreSorted (fold_left (fun sorted v => sort_insert v sorted) x acc)
    = true).
  { induction x as [|v x IH]; intros acc Hacc; [done|].
    cbn [fold_left]. by apply IH, sort_insert_sorted. }
  by apply Hfold.
Qed.

(** ** The empirical quantile is the nearest-rank quantile *)

Lemma empiricalQuantile_loop_rank (fidx : float64) (rest : list float64) (i : nat) :
  Z.of_nat (i + length rest) < 2 ^ 53 ->
  empiricalQuantile_loop fidx (of_int (Z.of_nat i)) rest
  = found_or_impossible
      (k ← List.find (fun k => (of_int (Z.of_nat k) >=? fidx)%go)
                     (seq (S i) (length rest));
       rest !! (k - 1 - i)%nat).
Proof.
  revert i. induction rest as [|xi rest IH]; intros i Hi; [done|].
  cbn [empiricalQuantile_loop length seq List.find]. cbn [length] in Hi.
  rewrite of_int_succ by lia.
  replace (Z.of_nat i + 1) with (Z.of_nat (S i)) by lia.
  destruct (fidx <=? of_int (Z.of_nat (S i)))%go.
  - cbn. by replace (i - 0 - i)%nat with 0%nat by lia.
  - rewrite IH by lia.
    destruct (List.find _ (seq (S (S i)) (length rest))) as [k|] eqn:Hfind;
      [|done].
    apply find_some in Hfind as [Hk _]. apply in_seq in Hk.
    cbn [mbind option_bind]. cbn.
    by replace (k - 1 - i)%nat with (S (k - 1 - S i)) by lia.
Qed.

Lemma stat_Quantile_Empirical_rank (p : float64) (x : list float64) :
  (p >=? of_int 0)%go = true -> (p <=? of_int 1)%go = true ->
  x <> [] -> Z.of_nat (length x) < 2 ^ 53 ->
  floats_HasNaN x = false -> Float64sAreSorted x = true ->
  stat_Quantile_Empirical p x = found_or_impossible (nearest_rank p x).
Proof.
  intros Hp0 Hp1 Hx Hlen Hnan Hsorted. unfold stat_Quantile_Empirical.
  rewrite Hp0, Hp1, Hnan, Hsorted. cbn [andb negb].
  destruct x as [|x0 x]; [done|]. cbn [length Nat.eqb].
  unfold empiricalQuantile, nearest_rank.
  rewrite (empiricalQuantile_loop_rank _ (x0 :: x) 0) by (cbn [length] in *; lia).
  cbn [length]. f_equal.
  apply option_bind_ext_fun. intros k. by rewrite Nat.sub_0_r.
Qed.
(** ** A single sample *)

(** The unbiased variance of one sample is 0/0. *)
Lemma stat_Variance_single (v : float64) :
  valid_binary prec emax v = true -> stat_Variance [v] = S754_nan.
Proof.
  intros Hv.
  unfold stat_Variance, stat_MeanVariance, meanUnnormalisedVariance,
    stat_Mean, floats_Sum.
  cbn [fold_left length]. change (Z.of_nat 1) with 1.
  destruct v as [s|s| |s m e].
  - by destruct s.
  - by destruct s.
  - done.
  - change (of_int 0 + S754_finite s m e)%go with (S754_finite s m e).
    rewrite fdiv_one by exact Hv. rewrite fsub_self. reflexivity.
Qed.

Lemma stat_Quantile_Empirical_single (p v : float64) :
  (p >=? of_int 0)%go = true -> (p <=? of_int 1)%go = true ->
  (of_int 0 + of_int 1 >=? p * of_int 1)%go = true ->
  stat_Quantile_Empirical p [v] = Returned v.
Proof.
  intros Hp0 Hp1 Hrank. unfold stat_Quantile_Empirical, floats_HasNaN.
  rewrite Hp0, Hp1. cbn [andb negb length Nat.eqb existsb].
  destruct (IsNaN v) eqn:Hnan.
  - apply IsNaN_true in Hnan as ->. reflexivity.
  - cbn [orb Float64sAreSorted negb]. unfold empiricalQuantile.
    cbn [empiricalQuantile_loop length]. change (Z.of_nat 1) with 1.
    by rewrite Hrank.
Qed.

(** C7, as the code has it: on a single sample v the median and the
    four interval bounds equal v, and the variance is NaN (the sum of
    squares 0 divided by n - 1 = 0), hence not 0; the standard
    deviation is NaN as well.  [valid_binary] is the representation
    invariant of binary64 values: it holds of every float64. *)
Theorem ComputeSummary_single_sample
    (h : heap float64) (samples : slice) (v : float64) :
  contents h samples = [v] ->
  valid_binary prec emax v = true ->
  exists s, snd (ComputeSummary samples h) = Returned s /\
            Summary_Median s = v /\
            Summary_CI95 s = (v, v) /\
            Summary_CI99 s = (v, v) /\
            Summary_Variance s = S754_nan /\
            Summary_StdDev s = S754_nan /\
            (Summary_Variance s =? of_int 0)%go = false.
Proof.
  intros Hv Hvalid. rewrite ComputeSummary_unfold, Hv. cbn [snd].
  change (slices_Sort [v]) with [v]. unfold summary_literal.
  rewrite !stat_Quantile_Empirical_single by reflexivity.
  unfold stat_StdDev. rewrite (stat_Variance_single v Hvalid).
  eexists. split; [reflexivity|]. cbn. done.
Qed.

Lemma ComputeSummary_single_sample_witness :
  exists s, snd (ComputeSummary (F:=float64) (slice_at 7%positive)
                   {[ 7%positive := [lit 314 100] ]})
            = Returned s /\
            Summary_Median s = lit 314 100 /\
            Summary_CI95 s = (lit 314 100, lit 314 100) /\
            Summary_CI99 s = (lit 314 100, lit 314 100) /\
            Summary_Variance s = S754_nan /\
            Summary_StdDev s = S754_nan /\
            (Summary_Variance s =? of_int 0)%go = false.
Proof.
  apply (ComputeSummary_single_sample
           {[ 7%positive := [lit 314 100] ]} (slice_at 7%positive) (lit 314 100));
    reflexivity.
Defined.

(** C7 fails in its last part: summarising the single sample 3.14
    gives variance NaN, which is not 0 (NaN equals nothing). *)
Lemma ComputeSummary_single_sample_variance_not_zero :
  exists s, snd (ComputeSummary (F:=float64) (slice_at 7%positive)
                   {[ 7%positive := [lit 314 100] ]})
            = Returned s /\
            Summary_Variance s = S754_nan /\
            Summary_Variance s <> of_int 0 /\
            (Summary_Variance s =? of_int 0)%go = false.
Proof.
  eexists. split; [vm_compute; reflexivity|]. cbn [Summary_Variance].
  split; [reflexivity|]. split; [discriminate|reflexivity].
Qed.

(** ** The quantiles of the summary *)

(** On non-empty samples the nearest-rank quantile exists (rank n always
    qualifies) and is one of the samples. *)
Lemma nearest_rank_exists (p : float64) (x : list float64) :
  normal_below_one p = true -> x <> [] -> Z.of_nat (length x) < 2 ^ 53 ->
  exists q, nearest_rank p x = Some q /\ q ∈ x.
Proof.
  intros Hp Hx Hlen. unfold nearest_rank.
  destruct (List.find _ (seq 1 (length x))) as [k|] eqn:Hfind.
  - apply find_some in Hfind as [Hk _]. apply in_seq in Hk.
    destruct (lookup_lt_is_Some_2 x (k - 1)%nat ltac:(lia)) as [q Hq].
    exists q. split; [exact Hq|]. by apply list_elem_of_lookup_2 in Hq.
  - exfalso. apply find_none with (x := length x) in Hfind.
    + destruct p as [| | |[] m e]; try discriminate Hp.
      cbn [normal_below_one] in Hp.
      apply andb_true_iff in Hp as [Hp He2].
      apply andb_true_iff in Hp as [Hd He1].
      apply Z.eqb_eq in Hd. apply Z.leb_le in He1, He2.
      rewrite fmul_of_int_le in Hfind; [done|done|lia|].
      destruct x; [done|]. cbn [length] in *. lia.
    + apply in_seq. destruct x; [done|]. cbn [length]. lia.
Qed.

Lemma stat_Quantile_Empirical_sorted_copy (p : float64) (xs : list float64) :
  normal_below_one p = true -> xs <> [] -> Z.of_nat (length xs) < 2 ^ 53 ->
  floats_HasNaN xs = false ->
  exists q, stat_Quantile_Empirical p (slices_Sort xs) = Returned q /\
            nearest_rank p (slices_Sort xs) = Some q /\ q ∈ xs.
Proof.
  intros Hp Hne Hlen Hnan.
  assert (Hne' : slices_Sort xs <> []).
  { intros Hnil. apply (f_equal length) in Hnil.
    rewrite slices_Sort_length in Hnil. by destruct xs. }
  destruct (nearest_rank_exists p (slices_Sort xs) Hp Hne') as (q & Hq & Hin);
    [by rewrite slices_Sort_length|].
  exists q. split; [|split; [exact Hq|]].
  - rewrite stat_Quantile_Empirical_rank, Hq; try done.
    + by destruct p as [| | |[] m e].
    + destruct p as [| | |[] m e]; try discriminate Hp.
      cbn [normal_below_one] in Hp.
      apply andb_true_iff in Hp as [Hp He2].
      apply andb_true_iff in Hp as [Hd He1].
      apply Z.leb_le in He2. cbn [fleb binary64]. unfold SFleb.
      change (of_int 1 : float64) with (S754_finite false 4503599627370496 (-52)).
      cbn [SFcompare].
      destruct (Z.compare_spec e (-52)) as [| |]; try done; lia.
    + by rewrite slices_Sort_length.
    + by rewrite slices_Sort_HasNaN.
    + apply slices_Sort_sorted.
  - by rewrite <- (slices_Sort_Permutation xs).
Qed.

Lemma ComputeSummary_rank_quantiles (h : heap float64) (samples : slice) :
  let xs := contents h samples in
  let sorted := slices_Sort xs in
  xs <> [] -> Z.of_nat (length xs) < 2 ^ 53 -> floats_HasNaN xs = false ->
  exists s, snd (ComputeSummary samples h) = Returned s /\
            nearest_rank (lit 5 10) sorted = Some (Summary_Median s) /\
            nearest_rank (lit 25 1000) sorted = Some (fst (Summary_CI95 s)) /\
            nearest_rank (lit 975 1000) sorted = Some (snd (Summary_CI95 s)) /\
            nearest_rank (lit 5 1000) sorted = Some (fst (Summary_CI99 s)) /\
            nearest_rank (lit 995 1000) sorted = Some (snd (Summary_CI99 s)) /\
            Summary_Median s ∈ xs /\
            fst (Summary_CI95 s) ∈ xs /\ snd (Summary_CI95 s) ∈ xs /\
            fst (Summary_CI99 s) ∈ xs /\ snd (Summary_CI99 s) ∈ xs.
Proof.
  intros xs sorted Hne Hlen Hnan.
  rewrite ComputeSummary_unfold. cbn [snd]. fold xs. fold sorted.
  unfold summary_literal, sorted.
  destruct (stat_Quantile_Empirical_sorted_copy (lit 5 10) xs)
    as (median & -> & Hmedian & ?); try done.
  destruct (stat_Quantile_Empirical_sorted_copy (lit 25 1000) xs)
    as (lo95 & -> & Hlo95 & ?); try done.
  destruct (stat_Quantile_Empirical_sorted_copy (lit 975 1000) xs)
    as (hi95 & -> & Hhi95 & ?); try done.
  destruct (stat_Quantile_Empirical_sorted_copy (lit 5 1000) xs)
    as (lo99 & -> & Hlo99 & ?); try done.
  destruct (stat_Quantile_Empirical_sorted_copy (lit 995 1000) xs)
    as (hi99 & -> & Hhi99 & ?); try done.
  eexists. split; [reflexivity|]. cbn. by repeat split.
Qed.

(** C3, as the code has it: the median and the four bounds are
    nearest-rank (gonum [stat.Empirical]) quantiles of the sorted
    samples at 0.5, 0.025, 0.975, 0.005 and 0.995: each is the sorted
    sample of the least rank k with k >= p * n, hence one of the
    samples and never a value interpolated between two of them.  On
    1, 2, ..., 100 the median is 50 and the 95% interval is [3, 98]. *)
Theorem ComputeSummary_nearest_rank_quantiles :
  (forall (h : heap float64) (samples : slice),
     let xs := contents h samples in
     let sorted := slices_Sort xs in
     xs <> [] -> Z.of_nat (length xs) < 2 ^ 53 -> floats_HasNaN xs = false ->
     exists s, snd (ComputeSummary samples h) = Returned s /\
               nearest_rank (lit 5 10) sorted = Some (Summary_Median s) /\
               nearest_rank (lit 25 1000) sorted = Some (fst (Summary_CI95 s)) /\
               nearest_rank (lit 975 1000) sorted = Some (snd (Summary_CI95 s)) /\
               nearest_rank (lit 5 1000) sorted = Some (fst (Summary_CI99 s)) /\
               nearest_rank (lit 995 1000) sorted = Some (snd (Summary_CI99 s)) /\
               Summary_Median s ∈ xs /\
               fst (Summary_CI95 s) ∈ xs /\ snd (Summary_CI95 s) ∈ xs /\
               fst (Summary_CI99 s) ∈ xs /\ snd (Summary_CI99 s) ∈ xs) /\
  (forall (h : heap float64) (samples : slice),
     contents h samples = one_to 100 ->
     exists s, snd (ComputeSummary samples h) = Returned s /\
               Summary_Median s = of_int 50 /\
               Summary_CI95 s = (of_int 3, of_int 98)).
Proof.
  split.
  - exact ComputeSummary_rank_quantiles.
  - intros h samples Hxs. rewrite ComputeSummary_unfold, Hxs. cbn [snd].
    eexists. split; [vm_compute; reflexivity|]. split; reflexivity.
Qed.

Lemma stat_Quantile_Empirical_NaN (p : float64) (x : list float64) :
  normal_below_one p = true -> floats_HasNaN x = true ->
  stat_Quantile_Empirical p x = Returned S754_nan.
Proof.
  intros Hp Hnan. destruct (normal_below_one_range p Hp) as [Hp0 Hp1].
  unfold stat_Quantile_Empirical. rewrite Hp0, Hp1, Hnan.
  by destruct x.
Qed.

(** [ComputeSummary] returns a summary for every non-empty input, with
    or without NaN among the samples. *)
Lemma ComputeSummary_returns (h : heap float64) (samples : slice) :
  contents h samples <> [] ->
  Z.of_nat (length (contents h samples)) < 2 ^ 53 ->
  returns (snd (ComputeSummary samples h)).
Proof.
  intros Hne Hlen.
  destruct (floats_HasNaN (contents h samples)) eqn:Hnan.
  - rewrite ComputeSummary_unfold. cbn [snd]. unfold summary_literal.
    rewrite !stat_Quantile_Empirical_NaN
      by (try reflexivity; by rewrite slices_Sort_HasNaN).
    eexists. reflexivity.
  - destruct (ComputeSummary_rank_quantiles h samples Hne Hlen Hnan)
      as (s & Hs & _).
    by exists s.
Qed.

Lemma ComputeSummary_nearest_rank_quantiles_witness :
  (exists s, snd (ComputeSummary (F:=float64) (slice_at 7%positive)
                    {[ 7%positive := [of_int 3; of_int 1; of_int 2] ]})
             = Returned s /\
             nearest_rank (lit 5 10) [of_int 1; of_int 2; of_int 3]
             = Some (Summary_Median s)) /\
  (exists s, snd (ComputeSummary (F:=float64) (slice_at 7%positive)
                    {[ 7%positive := one_to 100 ]})
             = Returned s /\
             Summary_Median s = of_int 50 /\
             Summary_CI95 s = (of_int 3, of_int 98)).
Proof.
  destruct ComputeSummary_nearest_rank_quantiles as [Hrank Hhundred].
  split.
  - destruct (Hrank {[ 7%positive := [of_int 3; of_int 1; of_int 2] ]}
                (slice_at 7%positive))
      as (s & Hs & Hmedian & _); [discriminate|reflexivity|reflexivity|].
    exists s. split; [exact Hs|exact Hmedian].
  - apply (Hhundred {[ 7%positive := one_to 100 ]} (slice_at 7%positive)).
    reflexivity.
Defined.

(** C3 fails on 1, 2, ..., 100: the summary has median 50, half a unit
    below 50.5, and 95% interval [3, 98], each bound 0.475 away from
    3.475 and 97.525. *)
Lemma ComputeSummary_1_to_100_not_interpolated :
  exists s, snd (ComputeSummary (F:=float64) (slice_at 7%positive)
                   {[ 7%positive := one_to 100 ]})
            = Returned s /\
            Summary_Median s = of_int 50 /\
            Summary_CI95 s = (of_int 3, of_int 98) /\
            (lit 505 10 - Summary_Median s)%go = lit 5 10 /\
            (lit 3475 1000 - fst (Summary_CI95 s) >? lit 47 100)%go = true /\
            (snd (Summary_CI95 s) - lit 97525 1000 >? lit 47 100)%go = true.
Proof.
  eexists. split; [vm_compute; reflexivity|].
  cbn [Summary_Median Summary_CI95 fst snd].
  repeat split; vm_compute; reflexivity.
Qed.

(** ** The samples are left in place *)

Lemma summary_literal_Returned {F} `{Float64 F}
    (samples sort : list F) (ref : slice) (s : Summary) :
  summary_literal samples sort ref = Returned s ->
  Summary_Samples s = ref /\
  Summary_Mean s = stat_Mean samples /\
  Summary_Mode s = stat_Mean samples /\
  Summary_Variance s = stat_Variance samples /\
  Summary_StdDev s = stat_StdDev samples /\
  stat_Quantile_Empirical (lit 5 10) sort = Returned (Summary_Median s) /\
  stat_Quantile_Empirical (lit 25 1000) sort = Returned (fst (Summary_CI95 s)) /\
  stat_Quantile_Empirical (lit 975 1000) sort = Returned (snd (Summary_CI95 s)) /\
  stat_Quantile_Empirical (lit 5 1000) sort = Returned (fst (Summary_CI99 s)) /\
  stat_Quantile_Empirical (lit 995 1000) sort = Returned (snd (Summary_CI99 s)).
Proof.
  unfold summary_literal.
  destruct (stat_Quantile_Empirical (lit 5 10) sort); [|discriminate].
  destruct (stat_Quantile_Empirical (lit 25 1000) sort); [|discriminate].
  destruct (stat_Quantile_Empirical (lit 975 1000) sort); [|discriminate].
  destruct (stat_Quantile_Empirical (lit 5 1000) sort); [|discriminate].
  destruct (stat_Quantile_Empirical (lit 995 1000) sort); [|discriminate].
  cbn. intros [= <-]. cbn. repeat split.
Qed.

(** C10: [ComputeSummary] leaves every array that existed before the
    call as it was, the array of its argument included; the only write
    goes to a fresh array, which receives the sorted copy.  The summary
    it returns refers, in [Samples], to the argument slice itself, whose
    contents are the samples in their original order; mean, variance and
    standard deviation are those of the unsorted samples, and the median
    and interval bounds are quantiles of the sorted copy. *)
Theorem ComputeSummary_preserves_input {F} `{Float64 F}
    (samples : slice) (h : heap F) :
  let h' := fst (ComputeSummary samples h) in
  let xs := contents h samples in
  (forall l, l ∈ dom h -> h' !! l = h !! l) /\
  (exists l, (l ∉ dom h) /\ h' = <[l := slices_Sort xs]> h) /\
  contents h' samples = xs /\
  (forall s, snd (ComputeSummary samples h) = Returned s ->
     Summary_Samples s = samples /\
     contents h' (Summary_Samples s) = xs /\
     Summary_Mean s = stat_Mean xs /\
     Summary_Variance s = stat_Variance xs /\
     Summary_StdDev s = stat_StdDev xs /\
     stat_Quantile_Empirical (lit 5 10) (slices_Sort xs)
     = Returned (Summary_Median s)).
Proof.
  intros h' xs. unfold h'. rewrite ComputeSummary_unfold. cbn [fst snd].
  fold xs.
  assert (Hsame : contents (<[fresh (dom h) := slices_Sort xs]> h) samples = xs).
  { apply contents_fresh_other. fold xs. by intros ->. }
  split; [|split; [|split]].
  - intros l Hl. apply lookup_insert_ne. intros <-.
    by apply (is_fresh (dom h)).
  - exists (fresh (dom h)). split; [apply is_fresh|done].
  - exact Hsame.
  - intros s Hs. apply summary_literal_Returned in Hs.
    destruct Hs as (-> & -> & _ & -> & -> & -> & _). by rewrite Hsame.
Qed.

Lemma ComputeSummary_preserves_input_witness :
  let h : heap float64 := {[ 7%positive := [of_int 3; of_int 1; of_int 2] ]} in
  fst (ComputeSummary (slice_at 7%positive) h) !! 7%positive
  = Some [of_int 3; of_int 1; of_int 2] /\
  contents (fst (ComputeSummary (slice_at 7%positive) h)) (slice_at 7%positive)
  = [of_int 3; of_int 1; of_int 2] /\
  exists s, snd (ComputeSummary (slice_at 7%positive) h) = Returned s /\
            Summary_Samples s = slice_at 7%positive /\
            Summary_Median s = of_int 2.
Proof.
  intros h.
  destruct (ComputeSummary_preserves_input (slice_at 7%positive) h)
    as (Hframe & _ & Hcontents & Hsummary).
  split; [|split].
  - rewrite Hframe; [reflexivity|]. apply elem_of_dom. eexists. reflexivity.
  - exact Hcontents.
  - destruct (snd (ComputeSummary (slice_at 7%positive) h)) as [s|msg] eqn:Hs;
      [|vm_compute in Hs; discriminate Hs].
    exists s. split; [reflexivity|].
    destruct (Hsummary s eq_refl) as (Hsamples & _ & _ & _ & _ & Hmedian).
    split; [exact Hsamples|].
    vm_compute in Hmedian. injection Hmedian as Hmedian.
    symmetry. exact Hmedian.
Defined.

(** * Further properties *)

(** ** Whole-number arithmetic in binary64 *)

(** Sums and differences of whole numbers below 2^53 are exact. *)
Lemma of_int_add (a b : Z) :
  0 <= a -> 0 <= b -> a + b < 2 ^ 53 ->
  ((of_int a : float64) + of_int b)%go = of_int (a + b).
Proof.
  intros Ha Hb Hab.
  destruct a as [|pa|pa]; [|clear Ha|lia].
  { destruct b as [|pb|pb]; [reflexivity| |lia]. rewrite Z.add_0_l.
    destruct (of_int_pos_exact pb ltac:(lia)) as (q & -> & _). reflexivity. }
  destruct b as [|pb|pb]; [|clear Hb|lia].
  { rewrite Z.add_0_r.
    destruct (of_int_pos_exact pa ltac:(lia)) as (q & -> & _). reflexivity. }
  destruct (of_int_pos_exact pa ltac:(lia)) as (qa & -> & Hqa).
  destruct (of_int_pos_exact pb ltac:(lia)) as (qb & -> & Hqb).
  pose proof (digits2_pos_le_53 pa ltac:(lia)) as Hda.
  pose proof (digits2_pos_le_53 pb ltac:(lia)) as Hdb.
  replace (Zpos pa + Zpos pb) with (Zpos (pa + pb)) in * by lia.
  pose proof (digits2_pos_le_53 (pa + pb) Hab) as Hdab.
  destruct (of_int_pos_exact (pa + pb) Hab) as (q & -> & Hq).
  remember (Zpos (digits2_pos pa)) as da eqn:Hda'.
  remember (Zpos (digits2_pos pb)) as db eqn:Hdb'.
  assert (1 <= da) by lia. assert (1 <= db) by lia.
  cbn [fadd binary64 SFadd cond_Zopp].
  destruct (shl_align_spec qa (da - 53) (Z.min (da - 53) (db - 53)))
    as (ma & Hala & Hma).
  destruct (shl_align_spec qb (db - 53) (Z.min (da - 53) (db - 53)))
    as (mb & Halb & Hmb).
  remember (Z.min (da - 53) (db - 53)) as ez eqn:Hez.
  replace (Z.min (da - 53) ez) with ez in * by lia.
  replace (Z.min (db - 53) ez) with ez in * by lia.
  rewrite Hala, Halb. cbn [fst].
  change (Zpos ma + Zpos mb) with (Zpos (ma + mb)).
  cbn [binary_normalize].
  replace ez with (- - ez) at 1 by lia.
  apply (binary_round_exact (pa + pb) _ q (- ez)); [lia| |done|done].
  rewrite !Pos2Z.inj_add, Hma, Hmb, Hqa, Hqb.
  rewrite <- !Z.mul_assoc, <- !Z.pow_add_r by lia.
  replace (53 - da + (da - 53 - ez)) with (- ez) by lia.
  replace (53 - db + (db - 53 - ez)) with (- ez) by lia. lia.
Qed.

Lemma of_int_sub (a b : Z) :
  0 <= b <= a -> a < 2 ^ 53 ->
  ((of_int a : float64) - of_int b)%go = of_int (a - b).
Proof.
  intros Hb Ha.
  destruct a as [|pa|pa]; [| |lia].
  { assert (b = 0) as -> by lia. reflexivity. }
  destruct b as [|pb|pb]; [| |lia].
  { rewrite Z.sub_0_r.
    destruct (of_int_pos_exact pa ltac:(lia)) as (q & -> & _). reflexivity. }
  assert (Hpa : Zpos pa < 2 ^ 53) by lia.
  destruct (of_int_pos_exact pa ltac:(lia)) as (qa & -> & Hqa).
  destruct (of_int_pos_exact pb ltac:(lia)) as (qb & -> & Hqb).
  pose proof (digits2_pos_le_53 pa ltac:(lia)) as Hda.
  pose proof (digits2_pos_le_53 pb ltac:(lia)) as Hdb.
  remember (Zpos (digits2_pos pa)) as da eqn:Hda'.
  remember (Zpos (digits2_pos pb)) as db eqn:Hdb'.
  assert (1 <= da) by lia. assert (1 <= db) by lia.
  cbn [fsub binary64 SFsub cond_Zopp].
  destruct (shl_align_spec qa (da - 53) (Z.min (da - 53) (db - 53)))
    as (ma & Hala & Hma).
  destruct (shl_align_spec qb (db - 53) (Z.min (da - 53) (db - 53)))
    as (mb & Halb & Hmb).
  remember (Z.min (da - 53) (db - 53)) as ez eqn:Hez.
  replace (Z.min (da - 53) ez) with ez in * by lia.
  replace (Z.min (db - 53) ez) with ez in * by lia.
  rewrite Hala, Halb. cbn [fst].
  assert (Hval : Zpos ma - Zpos mb = (Zpos pa - Zpos pb) * 2 ^ (- ez)).
  { rewrite Hma, Hmb, Hqa, Hqb.
    rewrite <- !Z.mul_assoc, <- !Z.pow_add_r by lia.
    replace (53 - da + (da - 53 - ez)) with (- ez) by lia.
    replace (53 - db + (db - 53 - ez)) with (- ez) by lia. lia. }
  assert (Hpow : 0 < 2 ^ (- ez)) by (apply Z.pow_pos_nonneg; lia).
  destruct (Z.eq_dec (Zpos pa) (Zpos pb)) as [Heq|Hne].
  - rewrite Heq, Z.sub_diag in *. rewrite Z.mul_0_l in Hval.
    rewrite Hval. reflexivity.
  - assert (Hdiff : 0 < Zpos pa - Zpos pb) by lia.
    destruct (Zpos pa - Zpos pb) as [|pd|pd] eqn:Hpd; try lia.
    destruct (Zpos ma - Zpos mb) as [|md|md] eqn:Hmd; try lia.
    assert (Hpd53 : Zpos pd < 2 ^ 53) by lia.
    destruct (of_int_pos_exact pd Hpd53) as (q & -> & Hq).
    cbn [binary_normalize].
    replace ez with (- - ez) at 1 by lia.
    apply (binary_round_exact pd _ q (- ez)); [lia|done| |done].
    by apply digits2_pos_le_53.
Qed.

Lemma fadd_zero_r (x : float64) :
  (x >? of_int 0)%go = true -> (x + of_int 0)%go = x.
Proof. by destruct x as [[]|[]| |[] m e]. Qed.

Lemma fsub_zero_r (x : float64) :
  (x >? of_int 0)%go = true -> (x - of_int 0)%go = x.
Proof. by destruct x as [[]|[]| |[] m e]. Qed.

(** A number that is not NaN is below 1 or at least 1. *)
Lemma flt_or_fle (x y : float64) :
  IsNaN x = false -> IsNaN y = false ->
  (x <? y)%go = true \/ (y <=? x)%go = true.
Proof.
  intros Hx Hy.
  assert (Hxn : x <> S754_nan) by (intros ->; discriminate Hx).
  assert (Hyn : y <> S754_nan) by (intros ->; discriminate Hy).
  cbn [fltb fleb binary64]. unfold SFltb, SFleb.
  rewrite (SFcompare_antisym x y).
  destruct (SFcompare x y) as [[]|] eqn:Hc; cbn; auto.
  by destruct x, y.
Qed.

(** ** More on the Beta update *)

Lemma positives_le_length {F} `{Float64 F} (data : list F) :
  (positives data <= length data)%nat.
Proof. unfold positives. apply filter_length_le. Qed.

Lemma positives_Permutation {F} `{Float64 F} (data data' : list F) :
  Permutation data data' -> positives data = positives data'.
Proof.
  unfold positives. induction 1 as [|x l l' _ IH|x y l|l l' l'' _ IH1 _ IH2];
    cbn [List.filter]; try done.
  - destruct (x >? of_int 0)%go; cbn [length]; lia.
  - by destruct (x >? of_int 0)%go, (y >? of_int 0)%go.
  - lia.
Qed.

Lemma positives_app {F} `{Float64 F} (d1 d2 : list F) :
  positives (d1 ++ d2) = (positives d1 + positives d2)%nat.
Proof. unfold positives. by rewrite List.filter_app, length_app. Qed.

(** The posterior does not depend on the order of the observations. *)
Theorem Beta_Update_order_independent
    (b : Beta (F:=float64)) (data data' : list float64) :
  Permutation data data' -> Z.of_nat (length data) < 2 ^ 53 ->
  Beta_Update b data = Beta_Update b data'.
Proof.
  intros Hperm Hn. unfold Beta_Update.
  rewrite !count_successes_exact
    by (try rewrite <- (Permutation_length Hperm); done).
  by rewrite (positives_Permutation _ _ Hperm), (Permutation_length Hperm).
Qed.

Lemma Beta_Update_order_independent_witness :
  Beta_Update (Beta_value (F:=float64) (lit 1 2) (lit 1 2))
              [of_int 1; of_int 0; of_int 0]
  = Beta_Update (Beta_value (lit 1 2) (lit 1 2)) [of_int 0; of_int 0; of_int 1].
Proof.
  apply Beta_Update_order_independent; [|reflexivity].
  apply Permutation_cons_append.
Defined.

(** Without observations the posterior has the parameters of the prior. *)
Theorem Beta_Update_no_data (b : Beta (F:=float64)) :
  (Beta_Alpha b >? of_int 0)%go = true ->
  (Beta_Beta b >? of_int 0)%go = true ->
  Beta_Update b []
  = Returned {| BetaPosterior_Beta := Beta_value (Beta_Alpha b) (Beta_Beta b) |}.
Proof.
  intros Ha Hb. unfold Beta_Update, count_successes. cbn [fold_left length].
  change (Z.of_nat 0) with 0.
  by rewrite (fadd_zero_r _ Ha), (fadd_zero_r _ Hb), (fsub_zero_r _ Hb).
Qed.

Lemma Beta_Update_no_data_witness :
  Beta_Update (Beta_value (F:=float64) (lit 1 10) (of_int 3)) []
  = Returned {| BetaPosterior_Beta := Beta_value (lit 1 10) (of_int 3) |}.
Proof.
  apply (Beta_Update_no_data (Beta_value (lit 1 10) (of_int 3))); reflexivity.
Defined.

(** On a prior with whole-number parameters a, b the posterior
    parameters are the whole numbers a + k and b + n - k, without any
    rounding. *)
Lemma Beta_Update_whole (a b : Z) (data : list float64) :
  0 <= a -> 0 <= b ->
  a + Z.of_nat (length data) < 2 ^ 53 -> b + Z.of_nat (length data) < 2 ^ 53 ->
  Beta_Update (Beta_value (of_int a) (of_int b)) data
  = Returned {| BetaPosterior_Beta :=
       Beta_value (of_int (a + Z.of_nat (positives data)))
                  (of_int (b + Z.of_nat (length data)
                           - Z.of_nat (positives data))) |}.
Proof.
  intros Ha Hb Han Hbn. pose proof (positives_le_length data) as Hk.
  unfold Beta_Update. rewrite count_successes_exact by lia.
  cbn [Beta_Alpha Beta_Beta Beta_value].
  rewrite of_int_add by lia. rewrite of_int_add by lia.
  by rewrite of_int_sub by lia.
Qed.




(** On a prior with whole-number parameters a, b the posterior
    parameters are the whole numbers a + k and b + n - k. *)
Theorem Beta_Update_whole_numbers (a b : Z) (data : list float64) :
  0 <= a -> 0 <= b ->
  a + Z.of_nat (length data) < 2 ^ 53 -> b + Z.of_nat (length data) < 2 ^ 53 ->
  Beta_Update (Beta_value (of_int a) (of_int b)) data
  = Returned {| BetaPosterior_Beta :=
       Beta_value (of_int (a + Z.of_nat (positives data)))
                  (of_int (b + Z.of_nat (length data)
                           - Z.of_nat (positives data))) |}.
Proof. apply Beta_Update_whole. Qed.

Lemma Beta_Update_whole_numbers_witness :
  Beta_Update (Beta_value (F:=float64) (of_int 2) (of_int 5))
              [of_int 1; of_int 0; of_int 1]
  = Returned {| BetaPosterior_Beta := Beta_value (of_int 4) (of_int 6) |}.
Proof.
  exact (Beta_Update_whole_numbers 2 5 [of_int 1; of_int 0; of_int 1]
           ltac:(lia) ltac:(lia) eq_refl eq_refl).
Defined.

(** Updating a whole-number prior with a first batch and the resulting
    posterior with a second batch gives the posterior of the two batches
    taken together. *)
Theorem Beta_Update_in_two_batches (a b : Z) (d1 d2 : list float64) :
  0 <= a -> 0 <= b ->
  a + Z.of_nat (length (d1 ++ d2)) < 2 ^ 53 ->
  b + Z.of_nat (length (d1 ++ d2)) < 2 ^ 53 ->
  (post1 ← Beta_Update (Beta_value (of_int a) (of_int b)) d1;
   BetaPosterior_Update post1 d2)
  = Beta_Update (Beta_value (of_int a) (of_int b)) (d1 ++ d2).
Proof.
  intros Ha Hb Han Hbn. rewrite length_app in Han, Hbn.
  pose proof (positives_le_length d1) as Hk1.
  pose proof (positives_le_length d2) as Hk2.
  rewrite (Beta_Update_whole a b (d1 ++ d2)) by (rewrite ?length_app; lia).
  rewrite (Beta_Update_whole a b d1) by lia.
  cbn [mbind outcome_bind]. unfold BetaPosterior_Update.
  cbn [BetaPosterior_Beta].
  rewrite Beta_Update_whole by lia.
  rewrite positives_app, length_app. do 3 f_equal; f_equal; lia.
Qed.

Lemma Beta_Update_in_two_batches_witness :
  (post1 ← Beta_Update (Beta_value (F:=float64) (of_int 1) (of_int 1))
                       [of_int 1; of_int 0];
   BetaPosterior_Update post1 [of_int 1])
  = Beta_Update (Beta_value (of_int 1) (of_int 1))
                ([of_int 1; of_int 0] ++ [of_int 1]).
Proof.
  exact (Beta_Update_in_two_batches 1 1 [of_int 1; of_int 0] [of_int 1]
           ltac:(lia) ltac:(lia) eq_refl eq_refl).
Defined.

(** ** MAP of a Beta posterior *)

(** [MAP] never consults the mean: [Mode] always has a first element.
    It is the interior mode for alpha, beta > 1 and 0 whenever
    alpha < 1 (beta not NaN): of the two modes 0 and 1 of a bimodal
    posterior only 0 is reported. *)
Theorem BetaPosterior_MAP_first_mode
    (mean : distuv_Beta -> outcome float64) (bp : BetaPosterior (F:=float64)) :
  let alpha := Beta_Alpha (BetaPosterior_Beta bp) in
  let beta := Beta_Beta (BetaPosterior_Beta bp) in
  (exists mode0, BetaPosterior_MAP mean bp = Returned mode0 /\
                 head (Beta_Mode (BetaPosterior_Beta bp)) = Some mode0) /\
  ((alpha >? of_int 1)%go = true -> (beta >? of_int 1)%go = true ->
   BetaPosterior_MAP mean bp
   = Returned ((alpha - of_int 1) / (alpha + beta - of_int 2))%go) /\
  ((alpha <? of_int 1)%go = true -> IsNaN beta = false ->
   BetaPosterior_MAP mean bp = Returned (of_int 0)).
Proof.
  intros alpha beta. unfold BetaPosterior_MAP, Beta_Mode. fold alpha beta.
  split; [|split].
  - destruct (_ && _); [eexists; split; reflexivity|].
    destruct (_ && _); [eexists; split; reflexivity|].
    destruct (_ && _); eexists; split; reflexivity.
  - intros Ha Hb. by rewrite Ha, Hb.
  - intros Ha Hb. rewrite (fltb_asym _ _ Ha), Ha. cbn [andb].
    assert (Hone : IsNaN (of_int 1 : float64) = false) by reflexivity.
    destruct (flt_or_fle beta _ Hb Hone) as [Hlt|Hge].
    + by rewrite Hlt.
    + rewrite Hge. by destruct (beta <? of_int 1)%go.
Qed.

Lemma BetaPosterior_MAP_first_mode_witness :
  BetaPosterior_MAP (fun _ => Panicked "unused")
    {| BetaPosterior_Beta := Beta_value (F:=float64) (lit 1 2) (lit 1 2) |}
  = Returned (of_int 0) /\
  BetaPosterior_MAP (fun _ => Panicked "unused")
    {| BetaPosterior_Beta := Beta_value (F:=float64) (of_int 2) (of_int 3) |}
  = Returned (lit 1 3).
Proof.
  split.
  - destruct (BetaPosterior_MAP_first_mode (fun _ => Panicked "unused")
                {| BetaPosterior_Beta := Beta_value (lit 1 2) (lit 1 2) |})
      as (_ & _ & Hzero).
    exact (Hzero eq_refl eq_refl).
  - destruct (BetaPosterior_MAP_first_mode (fun _ => Panicked "unused")
                {| BetaPosterior_Beta := Beta_value (of_int 2) (of_int 3) |})
      as (_ & Hinterior & _).
    exact (Hinterior eq_refl eq_refl).
Defined.

(** ** More on the Normal update *)









(** A prior with standard deviation 0 is accepted by the constructor
    and breaks the update: its precision is 1/0 = +Inf, and the
    posterior mean comes out as NaN whatever the prior mean, the known
    variance and the data. *)
Theorem NormalConjugate_zero_sigma_gives_NaN
    (mu v : float64) (data : list float64) :
  exists post,
    (nc ← NewNormalConjugate mu (of_int 0) v; NormalConjugate_Update nc data)
    = Returned post /\
    Normal_Mu (NormalPosterior_Normal post) = S754_nan.
Proof.
  eexists. split; [reflexivity|].
  cbn [NormalPosterior_Normal Normal_Mu NormalConjugate_Normal Normal_Sigma
       NormalConjugate_KnownVariance].
  change (of_int 1 / (of_int 0 * of_int 0))%go with (S754_infinity false).
  generalize (of_int (Z.of_nat (length data)) * (of_int 1 / v))%go.
  intros y.
  generalize (sum_loop data / of_int (Z.of_nat (length data)))%go.
  intros xbar. generalize (y * xbar)%go. intros c.
  destruct mu as [[]|[]| |[] mm me], c as [[]|[]| |[] cm ce],
    y as [[]|[]| |[] ym ye]; reflexivity.
Qed.

(** ** When ComputeSummary returns, and what NaN does to it *)

(** [ComputeSummary] returns a summary exactly on the non-empty inputs:
    the failures of the quantile routine other than the empty-slice one
    (samples not sorted, no rank found) cannot occur. *)
Theorem ComputeSummary_returns_iff_nonempty
    (h : heap float64) (samples : slice) :
  Z.of_nat (length (contents h samples)) < 2 ^ 53 ->
  (returns (snd (ComputeSummary samples h)) <-> contents h samples <> []) /\
  (panics (snd (ComputeSummary samples h)) <-> contents h samples = []).
Proof.
  intros Hlen. destruct (contents h samples) as [|x xs] eqn:Hxs.
  - assert (Hpanic : panics (snd (ComputeSummary samples h))).
    { rewrite ComputeSummary_unfold, Hxs. apply summary_literal_empty. }
    split; split; try done. intros [s Hs]. destruct Hpanic as [msg Hmsg].
    rewrite Hs in Hmsg. discriminate Hmsg.
  - assert (Hret : returns (snd (ComputeSummary samples h))).
    { apply ComputeSummary_returns; by rewrite Hxs. }
    split; split; try done. intros [msg Hmsg]. destruct Hret as [s Hs].
    rewrite Hs in Hmsg. discriminate Hmsg.
Qed.

Lemma ComputeSummary_returns_iff_nonempty_witness :
  returns (snd (ComputeSummary (F:=float64) (slice_at 7%positive)
                  {[ 7%positive := [of_int 3; of_int 1] ]})) /\
  panics (snd (ComputeSummary (F:=float64) (slice_at 7%positive)
                 {[ 7%positive := [] ]})).
Proof.
  split.
  - apply (ComputeSummary_returns_iff_nonempty
             {[ 7%positive := [of_int 3; of_int 1] ]} (slice_at 7%positive));
      [reflexivity|discriminate].
  - apply (ComputeSummary_returns_iff_nonempty
             {[ 7%positive := [] ]} (slice_at 7%positive)); reflexivity.
Defined.

Lemma fadd_nan_l (y : float64) : (S754_nan + y)%go = S754_nan.
Proof. by destruct y. Qed.

Lemma fsub_nan_l (y : float64) : (S754_nan - y)%go = S754_nan.
Proof. by destruct y. Qed.

Lemma fsub_nan_r (x : float64) : (x - S754_nan)%go = S754_nan.
Proof. by destruct x. Qed.

Lemma floats_Sum_NaN (x : list float64) :
  floats_HasNaN x = true -> floats_Sum x = S754_nan.
Proof.
  unfold floats_HasNaN, floats_Sum.
  assert (Hfold : forall acc, acc = S754_nan \/ existsb IsNaN x = true ->
            fold_left (fun sum v => (sum + v)%go) x acc = S754_nan).
  { induction x as [|v x IH]; intros acc [Hacc|Hx]; cbn [fold_left existsb] in *;
      try done.
    - apply IH. left. by rewrite Hacc, fadd_nan_l.
    - apply orb_true_iff in Hx as [Hv|Hx]; apply IH; [left|by right].
      apply IsNaN_true in Hv as ->. apply fadd_nan_r. }
  intros Hx. apply Hfold. by right.
Qed.

Lemma stat_Variance_NaN_mean (x : list float64) :
  x <> [] -> stat_Mean x = S754_nan -> stat_Variance x = S754_nan.
Proof.
  intros Hx Hmean.
  unfold stat_Variance, stat_MeanVariance, meanUnnormalisedVariance.
  rewrite Hmean.
  assert (Hfold : forall (l : list float64) acc,
            fold_left (fun '(ss, compensation) v =>
                         let d := (v - S754_nan)%go in
                         ((ss + d * d)%go, (compensation + d)%go)) l acc
            = if decide (l = []) then acc else (S754_nan, S754_nan)).
  { induction l as [|v l IH]; intros acc; [done|].
    cbn [fold_left]. destruct acc as [ss c]. rewrite IH.
    rewrite fsub_nan_r, fmul_nan_r, !fadd_nan_r. by destruct l. }
  rewrite Hfold. destruct (decide (x = [])); [done|].
  cbn [snd]. by rewrite fsub_nan_l, fdiv_nan_l.
Qed.

(** One NaN among the samples turns the whole summary into NaN, without
    any failure: mean, median, mode, variance, standard deviation and
    the four interval bounds are all NaN. *)
Theorem ComputeSummary_NaN_sample (h : heap float64) (samples : slice) :
  floats_HasNaN (contents h samples) = true ->
  snd (ComputeSummary samples h)
  = Returned {| Summary_Mean := S754_nan;
                Summary_Median := S754_nan;
                Summary_Mode := S754_nan;
                Summary_Variance := S754_nan;
                Summary_StdDev := S754_nan;
                Summary_CI95 := (S754_nan, S754_nan);
                Summary_CI99 := (S754_nan, S754_nan);
                Summary_Samples := samples |}.
Proof.
  intros Hnan. rewrite ComputeSummary_unfold. cbn [snd].
  unfold summary_literal, estimateMode, stat_StdDev.
  rewrite !stat_Quantile_Empirical_NaN
    by (try reflexivity; by rewrite slices_Sort_HasNaN).
  assert (Hmean : stat_Mean (contents h samples) = S754_nan).
  { unfold stat_Mean. by rewrite floats_Sum_NaN, fdiv_nan_l. }
  rewrite stat_Variance_NaN_mean, Hmean; [reflexivity| |done].
  intros Hnil. by rewrite Hnil in Hnan.
Qed.

Lemma ComputeSummary_NaN_sample_witness :
  snd (ComputeSummary (F:=float64) (slice_at 7%positive)
         {[ 7%positive := [of_int 3; S754_nan; of_int 1] ]})
  = Returned {| Summary_Mean := S754_nan;
                Summary_Median := S754_nan;
                Summary_Mode := S754_nan;
                Summary_Variance := S754_nan;
                Summary_StdDev := S754_nan;
                Summary_CI95 := (S754_nan, S754_nan);
                Summary_CI99 := (S754_nan, S754_nan);
                Summary_Samples := slice_at 7%positive |}.
Proof.
  apply (ComputeSummary_NaN_sample
           {[ 7%positive := [of_int 3; S754_nan; of_int 1] ]}
           (slice_at 7%positive)).
  reflexivity.
Defined.

(** ** The interval bounds are ordered and nested *)

Lemma fleb_trans (x y z : float64) :
  (x <=? y)%go = true -> (y <=? z)%go = true -> (x <=? z)%go = true.
Proof.
  cbn [fleb binary64]. unfold SFleb.
  destruct x as [[]|[]| |[] m1 e1], y as [[]|[]| |[] m2 e2],
    z as [[]|[]| |[] m3 e3]; cbn [SFcompare]; try done;
    rewrite !Pos.compare_cont_spec; cbn [Pos.switch_Eq];
    destruct (Z.compare_spec e1 e2), (Z.compare_spec e2 e3),
      (Z.compare_spec e1 e3); try done; try lia;
    destruct (Pos.compare_spec m1 m2), (Pos.compare_spec m2 m3),
      (Pos.compare_spec m1 m3); cbn [CompOpp]; try done; lia.
Qed.

Lemma fleb_refl (x : float64) : IsNaN x = false -> (x <=? x)%go = true.
Proof.
  intros Hx. cbn [fleb binary64]. unfold SFleb.
  rewrite SFcompare_refl; [done|]. intros ->. discriminate Hx.
Qed.

Lemma not_float_less_fleb (a b : float64) :
  IsNaN a = false -> IsNaN b = false ->
  float_less b a = false -> (a <=? b)%go = true.
Proof.
  intros Ha Hb Hless. unfold float_less in Hless.
  apply orb_false_iff in Hless as [Hlt _].
  destruct (flt_or_fle b a Hb Ha) as [Hba|Hab]; [|done].
  rewrite Hba in Hlt. discriminate Hlt.
Qed.

(** In a sorted slice without NaN the head is at most every element. *)
Lemma sorted_head_fleb (a : float64) (l : list float64) :
  floats_HasNaN (a :: l) = false -> Float64sAreSorted (a :: l) = true ->
  forall b, b ∈ l -> (a <=? b)%go = true.
Proof.
  revert a. induction l as [|b0 l IH]; intros a Hnan Hs b Hb.
  - by apply elem_of_nil in Hb.
  - unfold floats_HasNaN in *. cbn [existsb Float64sAreSorted] in Hnan, Hs.
    apply orb_false_iff in Hnan as [Ha Hnan].
    pose proof Hnan as Hnan0.
    apply orb_false_iff in Hnan as [Hb0 Hnan].
    apply andb_true_iff in Hs as [Hadj Hs]. apply negb_true_iff in Hadj.
    pose proof (not_float_less_fleb a b0 Ha Hb0 Hadj) as Hab0.
    apply elem_of_cons in Hb as [->|Hb]; [done|].
    apply (fleb_trans a b0 b Hab0). by apply IH.
Qed.

Lemma sorted_lookup_fleb (l : list float64) (i j : nat) (a b : float64) :
  floats_HasNaN l = false -> Float64sAreSorted l = true ->
  (i <= j)%nat -> l !! i = Some a -> l !! j = Some b -> (a <=? b)%go = true.
Proof.
  revert i j. induction l as [|x l IH]; intros i j Hnan Hs Hij Hi Hj; [done|].
  assert (Hnan' : floats_HasNaN l = false).
  { unfold floats_HasNaN in *. cbn [existsb] in Hnan.
    by apply orb_false_iff in Hnan as [_ ?]. }
  assert (Hs' : Float64sAreSorted l = true).
  { destruct l as [|y l]; [done|]. cbn [Float64sAreSorted] in Hs.
    by apply andb_true_iff in Hs as [_ ?]. }
  destruct i as [|i], j as [|j]; cbn in Hi, Hj; try lia.
  - injection Hi as <-. injection Hj as <-. apply fleb_refl.
    unfold floats_HasNaN in Hnan. cbn [existsb] in Hnan.
    by apply orb_false_iff in Hnan as [? _].
  - injection Hi as <-. apply (sorted_head_fleb x l Hnan Hs).
    by apply list_elem_of_lookup_2 in Hj.
  - apply (IH i j); try done. lia.
Qed.

Lemma find_seq_first (P : nat -> bool) (s n k : nat) :
  List.find P (seq s n) = Some k ->
  (s <= k < s + n)%nat /\ P k = true /\
  forall j, (s <= j < k)%nat -> P j = false.
Proof.
  revert s. induction n as [|n IH]; intros s; cbn [seq List.find]; [done|].
  destruct (P s) eqn:Hs.
  - intros [= <-]. repeat split; try lia. done.
  - intros Hfind. apply IH in Hfind as (Hk & HP & Hfirst).
    repeat split; try lia; [done|]. intros j Hj.
    destruct (decide (j = s)) as [->|]; [done|]. apply Hfirst. lia.
Qed.

(** Nearest-rank quantiles grow with the threshold [p * n]. *)
Lemma nearest_rank_mono (p1 p2 : float64) (x : list float64) (a b : float64) :
  floats_HasNaN x = false -> Float64sAreSorted x = true ->
  (p1 * of_int (Z.of_nat (length x)) <=? p2 * of_int (Z.of_nat (length x)))%go
  = true ->
  nearest_rank p1 x = Some a -> nearest_rank p2 x = Some b ->
  (a <=? b)%go = true.
Proof.
  intros Hnan Hs Hfidx. unfold nearest_rank.
  destruct (List.find _ _) as [k1|] eqn:H1; [|done].
  destruct (List.find _ (seq 1 (length x))) as [k2|] eqn:H2 in |- *; [|done].
  cbn [mbind option_bind]. intros Ha Hb.
  apply find_seq_first in H1 as (Hk1 & _ & Hfirst).
  apply find_seq_first in H2 as (Hk2 & HP2 & _).
  apply (sorted_lookup_fleb x (k1 - 1) (k2 - 1) a b); try done.
  destruct (decide (k1 <= k2)%nat) as [|Hgt]; [lia|exfalso].
  specialize (Hfirst k2 ltac:(lia)).
  rewrite (fleb_trans _ _ _ Hfidx HP2) in Hfirst. discriminate Hfirst.
Qed.

(** The rounded product of two positive 53-bit numbers: a 53-bit
    mantissa within one unit of the truncated product. *)
Lemma fmul_normal_rounded (mp q : positive) (ep eq : Z) :
  Zpos (digits2_pos mp) = 53 -> Zpos (digits2_pos q) = 53 ->
  -1074 <= ep + eq + 52 -> ep + eq + 53 < 971 ->
  exists (M' : positive) (E' D : Z),
    (S754_finite false mp ep * S754_finite false q eq)%go
    = S754_finite false M' E' /\
    D = Zpos (digits2_pos (mp * q)) /\ 105 <= D <= 106 /\
    2 ^ (D - 1) <= Zpos mp * Zpos q < 2 ^ D /\
    2 ^ 52 <= Zpos M' /\
    let m1 := Zpos mp * Zpos q / 2 ^ (D - 53) in
    ((E' = ep + eq + (D - 53) /\ m1 <= Zpos M' <= m1 + 1 /\ Zpos M' < 2 ^ 53) \/
     (E' = ep + eq + (D - 53) + 1 /\ m1 = 2 ^ 53 - 1 /\ Zpos M' = 2 ^ 52)).
Proof.
  intros Hdp Hdq Hlo Hhi.
  pose proof (digits2_pos_bounds mp) as Hmp. rewrite Hdp in Hmp.
  pose proof (digits2_pos_bounds q) as Hqb. rewrite Hdq in Hqb.
  change (53 - 1) with 52 in *.
  pose proof (digits2_pos_bounds (mp * q)) as HM.
  remember (Zpos (digits2_pos (mp * q))) as D eqn:HD.
  rewrite Pos2Z.inj_mul in HM.
  assert (HD' : 105 <= D <= 106).
  { change (2 ^ 52) with 4503599627370496 in *.
    change (2 ^ 53) with 9007199254740992 in *.
    assert (2 ^ 104 <= Zpos mp * Zpos q < 2 ^ 106)
      by (change (2 ^ 104) with (4503599627370496 * 4503599627370496);
          change (2 ^ 106) with (9007199254740992 * 9007199254740992); nia).
    split.
    - destruct (Z_le_gt_dec 105 D) as [|Hgt]; [done|].
      assert (2 ^ D <= 2 ^ 104) by (apply Z.pow_le_mono_r; lia). lia.
    - destruct (Z_le_gt_dec D 106) as [|Hgt]; [done|].
      assert (2 ^ 106 <= 2 ^ (D - 1)) by (apply Z.pow_le_mono_r; lia). lia. }
  cbn [fmul binary64 SFmul xorb].
  destruct (binary_round_aux_long (mp * q) (ep + eq))
    as (M' & E' & -> & Hcases); rewrite <- ?HD; try lia.
  rewrite <- HD, Pos2Z.inj_mul in Hcases.
  assert (Hm1 : 2 ^ 52 <= Zpos mp * Zpos q / 2 ^ (D - 53)).
  { apply Z.div_le_lower_bound; [apply Z.pow_pos_nonneg; lia|].
    rewrite Z.mul_comm, <- Z.pow_add_r by lia.
    replace (52 + (D - 53)) with (D - 1) by lia. apply HM. }
  exists M', E', D. repeat split; try done; lia.
Qed.

(** Rounded products with n grow with the probability, for two
    probabilities at least two binades or two units in the last place
    apart. *)
Lemma fmul_of_int_mono (mp1 mp2 : positive) (ep1 ep2 n : Z) :
  Zpos (digits2_pos mp1) = 53 -> Zpos (digits2_pos mp2) = 53 ->
  -1074 <= ep1 <= -53 -> -1074 <= ep2 <= -53 ->
  (ep1 + 2 <= ep2 \/ (ep1 = ep2 /\ Zpos mp1 + 2 <= Zpos mp2)) ->
  0 < n < 2 ^ 53 ->
  (S754_finite false mp1 ep1 * of_int n
   <=? S754_finite false mp2 ep2 * of_int n)%go = true.
Proof.
  intros Hd1 Hd2 He1 He2 Hgap Hn. destruct n as [|pn|pn]; try lia.
  destruct (of_int_pos_exact pn ltac:(lia)) as (q & -> & Hq).
  pose proof (digits2_pos_le_53 pn ltac:(lia)) as Hd.
  assert (Hdq : Zpos (digits2_pos q) = 53)
    by (rewrite (digits2_pos_shift pn q (53 - Zpos (digits2_pos pn))
                   ltac:(lia) Hq); lia).
  remember (Zpos (digits2_pos pn)) as d eqn:Hdpn.
  assert (Hd1' : 1 <= d) by lia.
  destruct (fmul_normal_rounded mp1 q ep1 (d - 53))
    as (M1 & E1 & D1 & -> & _ & HD1 & HP1 & HM1 & Hc1); try done; try lia.
  destruct (fmul_normal_rounded mp2 q ep2 (d - 53))
    as (M2 & E2 & D2 & -> & _ & HD2 & HP2 & HM2 & Hc2); try done; try lia.
  cbn zeta in Hc1, Hc2.
  pose proof (digits2_pos_bounds q) as Hqb. rewrite Hdq in Hqb.
  change (53 - 1) with 52 in Hqb.
  assert (Hpos : 0 < Zpos q) by lia.
  (* the second product is the larger one *)
  assert (HP : Zpos mp1 * Zpos q <= Zpos mp2 * Zpos q -> D1 <= D2).
  { intros Hle. destruct (Z_le_gt_dec D1 D2) as [|Hgt]; [done|].
    assert (2 ^ D2 <= 2 ^ (D1 - 1)) by (apply Z.pow_le_mono_r; lia). lia. }
  assert (Hcell : ep1 = ep2 -> Zpos mp1 + 2 <= Zpos mp2 -> D1 = D2 ->
                  Zpos mp1 * Zpos q / 2 ^ (D1 - 53) + 1
                  <= Zpos mp2 * Zpos q / 2 ^ (D2 - 53)).
  { intros _ Hmp <-.
    assert (Hs : 0 < 2 ^ (D1 - 53)) by (apply Z.pow_pos_nonneg; lia).
    assert (Hs53 : 2 ^ (D1 - 53) <= 2 ^ 53) by (apply Z.pow_le_mono_r; lia).
    rewrite <- (Z.div_add _ 1 (2 ^ (D1 - 53))) by lia.
    apply Z.div_le_mono; [done|]. change (2 ^ 53) with 9007199254740992 in *.
    change (2 ^ 52) with 4503599627370496 in *. nia. }
  cbn [fleb binary64]. unfold SFleb. cbn [SFcompare].
  rewrite Pos.compare_cont_spec. cbn [Pos.switch_Eq].
  assert (Hlevel : ep1 + 2 <= ep2 \/ (ep1 = ep2 /\ D1 < D2) \/
                   (ep1 = ep2 /\ D1 = D2 /\ Zpos mp1 + 2 <= Zpos mp2)).
  { destruct Hgap as [|[-> Hmp]]; [by left|right].
    assert (D1 <= D2) by (apply HP; nia). lia. }
  change (2 ^ 53) with 9007199254740992 in *.
  change (2 ^ 52) with 4503599627370496 in *.
  destruct (Z.compare_spec E1 E2) as [HE|HE|HE]; [|done|exfalso].
  - destruct (Pos.compare_spec M1 M2) as [|?|Hgt]; try done. exfalso.
    destruct Hlevel as [?|[[? ?]|(Hep & HDeq & Hmp)]].
    + destruct Hc1 as [(?&?&?)|(?&?&?)], Hc2 as [(?&?&?)|(?&?&?)]; lia.
    + destruct Hc1 as [(?&?&?)|(?&?&?)], Hc2 as [(?&?&?)|(?&?&?)]; lia.
    + specialize (Hcell Hep Hmp HDeq).
      destruct Hc1 as [(?&?&?)|(?&?&?)], Hc2 as [(?&?&?)|(?&?&?)]; lia.
  - destruct Hlevel as [?|[[? ?]|(Hep & HDeq & Hmp)]].
    + destruct Hc1 as [(?&?&?)|(?&?&?)], Hc2 as [(?&?&?)|(?&?&?)]; lia.
    + destruct Hc1 as [(?&?&?)|(?&?&?)], Hc2 as [(?&?&?)|(?&?&?)]; lia.
    + specialize (Hcell Hep Hmp HDeq).
      destruct Hc1 as [(?&?&?)|(?&?&?)], Hc2 as [(?&?&?)|(?&?&?)]; lia.
Qed.

Lemma quantile_threshold_mono (p1 p2 : float64) (n : Z) :
  normal_below_one p1 = true -> normal_below_one p2 = true ->
  two_apart p1 p2 = true -> 0 < n < 2 ^ 53 ->
  (p1 * of_int n <=? p2 * of_int n)%go = true.
Proof.
  destruct p1 as [| | |[] m1 e1], p2 as [| | |[] m2 e2]; try discriminate.
  cbn [normal_below_one two_apart]. intros H1 H2 Hgap Hn.
  apply andb_true_iff in H1 as [H1 ?]. apply andb_true_iff in H1 as [? ?].
  apply andb_true_iff in H2 as [H2 ?]. apply andb_true_iff in H2 as [? ?].
  apply fmul_of_int_mono; lia.
Qed.

(** For samples without NaN the five quantiles of the summary are in
    order: lower 99% bound, lower 95% bound, median, upper 95% bound,
    upper 99% bound.  The 99% interval contains the 95% interval, and
    both contain the median. *)
Theorem ComputeSummary_bounds_nested (h : heap float64) (samples : slice) :
  contents h samples <> [] ->
  Z.of_nat (length (contents h samples)) < 2 ^ 53 ->
  floats_HasNaN (contents h samples) = false ->
  exists s, snd (ComputeSummary samples h) = Returned s /\
            (fst (Summary_CI99 s) <=? fst (Summary_CI95 s))%go = true /\
            (fst (Summary_CI95 s) <=? Summary_Median s)%go = true /\
            (Summary_Median s <=? snd (Summary_CI95 s))%go = true /\
            (snd (Summary_CI95 s) <=? snd (Summary_CI99 s))%go = true.
Proof.
  intros Hne Hlen Hnan.
  destruct (ComputeSummary_rank_quantiles h samples Hne Hlen Hnan)
    as (s & Hs & Hmedian & Hlo95 & Hhi95 & Hlo99 & Hhi99 & _).
  exists s. split; [exact Hs|].
  set (sorted := slices_Sort (contents h samples)) in *.
  assert (Hn : 0 < Z.of_nat (length sorted) < 2 ^ 53).
  { unfold sorted. rewrite slices_Sort_length.
    destruct (contents h samples); [done|]. cbn [length] in *. lia. }
  assert (Hmono : forall p1 p2 a b,
            normal_below_one p1 && normal_below_one p2 && two_apart p1 p2 = true ->
            nearest_rank p1 sorted = Some a -> nearest_rank p2 sorted = Some b ->
            (a <=? b)%go = true).
  { intros p1 p2 a b Hp. apply andb_true_iff in Hp as [Hp Hgap].
    apply andb_true_iff in Hp as [H1 H2]. apply nearest_rank_mono.
    - unfold sorted. rewrite slices_Sort_HasNaN. exact Hnan.
    - apply slices_Sort_sorted.
    - apply quantile_threshold_mono; assumption. }
  split; [|split; [|split]].
  - apply (Hmono (lit 5 1000) (lit 25 1000)); [vm_compute; reflexivity|assumption..].
  - apply (Hmono (lit 25 1000) (lit 5 10)); [vm_compute; reflexivity|assumption..].
  - apply (Hmono (lit 5 10) (lit 975 1000)); [vm_compute; reflexivity|assumption..].
  - apply (Hmono (lit 975 1000) (lit 995 1000)); [vm_compute; reflexivity|assumption..].
Qed.

Lemma ComputeSummary_bounds_nested_witness :
  exists s, snd (ComputeSummary (F:=float64) (slice_at 7%positive)
                   {[ 7%positive := [of_int 3; of_int (-1); lit 5 2] ]})
            = Returned s /\
            (fst (Summary_CI99 s) <=? fst (Summary_CI95 s))%go = true /\
            (fst (Summary_CI95 s) <=? Summary_Median s)%go = true /\
            (Summary_Median s <=? snd (Summary_CI95 s))%go = true /\
            (snd (Summary_CI95 s) <=? snd (Summary_CI99 s))%go = true.
Proof.
  apply (ComputeSummary_bounds_nested
           {[ 7%positive := [of_int 3; of_int (-1); lit 5 2] ]}
           (slice_at 7%positive)); [discriminate|reflexivity|vm_compute; reflexivity].
Defined.

(** * The A/B test and the business metrics *)

(** ** The A/B test keeps its posteriors in step with its data *)

Ltac prog_step :=
  unfold mbind, prog_bind, mret, prog_ret, get_state, lift,
    set_ControlData, set_TreatmentData, set_ControlPost, set_TreatmentPost;
  cbn -[Prior_Update posterior_of_data].

Lemma Prior_Update_returns {F} `{Float64 F} (prior : Prior) (data : list F) :
  returns (Prior_Update (Some prior) data).
Proof. destruct prior; eexists; reflexivity. Qed.

Lemma posterior_of_data_cons {F} `{Float64 F}
    (prior : Prior) (data : list F) :
  data <> [] ->
  exists post, Prior_Update (Some prior) data = Returned post /\
               posterior_of_data (Some prior) data = Some post.
Proof.
  intros Hdata. destruct (Prior_Update_returns prior data) as [post Hpost].
  exists post. split; [done|]. unfold posterior_of_data. rewrite Hpost.
  by destruct data.
Qed.

Lemma updatePosteriors_follow {F} `{Float64 F} (ab : ABTest) :
  ABTest_ControlPrior ab <> None -> ABTest_TreatmentPrior ab <> None ->
  (ABTest_ControlData ab = [] -> ABTest_ControlPost ab = None) ->
  (ABTest_TreatmentData ab = [] -> ABTest_TreatmentPost ab = None) ->
  exists ab', updatePosteriors ab = (ab', Returned tt) /\
              posteriors_follow_data ab' /\
              ABTest_ControlPrior ab' = ABTest_ControlPrior ab /\
              ABTest_TreatmentPrior ab' = ABTest_TreatmentPrior ab /\
              ABTest_ControlData ab' = ABTest_ControlData ab /\
              ABTest_TreatmentData ab' = ABTest_TreatmentData ab.
Proof.
  destruct ab as [[cp|] [tp|] cd td cpost tpost]; try done.
  cbn [ABTest_ControlPrior ABTest_TreatmentPrior ABTest_ControlData
       ABTest_TreatmentData ABTest_ControlPost ABTest_TreatmentPost].
  intros _ _ Hc Ht. unfold updatePosteriors, posteriors_follow_data.
  destruct cd as [|c cd], td as [|t td].
  - rewrite Hc, Ht by done. eexists. split; [reflexivity|]. by cbn.
  - rewrite Hc by done.
    destruct (posterior_of_data_cons tp (t :: td)) as (post & Hup & Hpost);
      [done|].
    eexists. prog_step. rewrite Hup. split; [reflexivity|].
    cbn -[posterior_of_data]. by rewrite Hpost.
  - rewrite Ht by done.
    destruct (posterior_of_data_cons cp (c :: cd)) as (post & Hup & Hpost);
      [done|].
    eexists. prog_step. rewrite Hup. split; [reflexivity|].
    cbn -[posterior_of_data]. by rewrite Hpost.
  - destruct (posterior_of_data_cons cp (c :: cd)) as (post & Hup & Hpost);
      [done|].
    destruct (posterior_of_data_cons tp (t :: td)) as (post' & Hup' & Hpost');
      [done|].
    eexists. prog_step. rewrite Hup. prog_step. rewrite Hup'.
    split; [reflexivity|].
    cbn -[posterior_of_data]. by rewrite Hpost, Hpost'.
Qed.

Lemma posterior_of_data_nil {F} `{Float64 F}
    (prior : option Prior) (data : list F) :
  data = [] -> posterior_of_data prior data = None.
Proof. by intros ->. Qed.

(** A test made by [NewABTest] or [NewABTestWithPriors] and fed through
    [AddControlData] and [AddTreatmentData] always holds, for each arm,
    no posterior while the arm has no data and otherwise the prior
    updated with all the data of the arm, old and new: every call
    appends its batch and recomputes both posteriors from the priors. *)
Theorem ABTest_posteriors_follow_data {F} `{Float64 F} :
  (exists ab, NewABTest = Returned ab /\ posteriors_follow_data ab /\
              ABTest_ControlPrior ab <> None /\
              ABTest_TreatmentPrior ab <> None) /\
  (forall controlPrior treatmentPrior,
     posteriors_follow_data (NewABTestWithPriors controlPrior treatmentPrior)) /\
  (forall (ab : ABTest) (data : list F),
     posteriors_follow_data ab ->
     ABTest_ControlPrior ab <> None -> ABTest_TreatmentPrior ab <> None ->
     (exists ab', AddControlData data ab = (ab', Returned tt) /\
                  posteriors_follow_data ab' /\
                  ABTest_ControlPrior ab' = ABTest_ControlPrior ab /\
                  ABTest_TreatmentPrior ab' = ABTest_TreatmentPrior ab /\
                  ABTest_ControlData ab' = ABTest_ControlData ab ++ data /\
                  ABTest_TreatmentData ab' = ABTest_TreatmentData ab) /\
     (exists ab', AddTreatmentData data ab = (ab', Returned tt) /\
                  posteriors_follow_data ab' /\
                  ABTest_ControlPrior ab' = ABTest_ControlPrior ab /\
                  ABTest_TreatmentPrior ab' = ABTest_TreatmentPrior ab /\
                  ABTest_ControlData ab' = ABTest_ControlData ab /\
                  ABTest_TreatmentData ab' = ABTest_TreatmentData ab ++ data)).
Proof.
  split; [|split].
  - eexists. split; [reflexivity|]. by cbn.
  - by intros.
  - intros ab data [Hc Ht] Hcp Htp. split.
    + unfold AddControlData.
      destruct ab as [cp tp cd td cpost tpost].
      cbn [ABTest_ControlPrior ABTest_TreatmentPrior ABTest_ControlData
           ABTest_TreatmentData ABTest_ControlPost ABTest_TreatmentPost] in *.
      edestruct (updatePosteriors_follow
                   {| ABTest_ControlPrior := cp; ABTest_TreatmentPrior := tp;
                      ABTest_ControlData := cd ++ data;
                      ABTest_TreatmentData := td;
                      ABTest_ControlPost := cpost;
                      ABTest_TreatmentPost := tpost |})
        as (ab' & Hab' & Hfollow & Hrest); try done.
      * cbn. intros Hnil. apply app_eq_nil in Hnil as [-> _]. by rewrite Hc.
      * cbn. intros ->. by rewrite Ht.
      * exists ab'. split; [|done]. exact Hab'.
    + unfold AddTreatmentData.
      destruct ab as [cp tp cd td cpost tpost].
      cbn [ABTest_ControlPrior ABTest_TreatmentPrior ABTest_ControlData
           ABTest_TreatmentData ABTest_ControlPost ABTest_TreatmentPost] in *.
      edestruct (updatePosteriors_follow
                   {| ABTest_ControlPrior := cp; ABTest_TreatmentPrior := tp;
                      ABTest_ControlData := cd;
                      ABTest_TreatmentData := td ++ data;
                      ABTest_ControlPost := cpost;
                      ABTest_TreatmentPost := tpost |})
        as (ab' & Hab' & Hfollow & Hrest); try done.
      * cbn. intros ->. by rewrite Hc.
      * cbn. intros Hnil. apply app_eq_nil in Hnil as [-> _]. by rewrite Ht.
      * exists ab'. split; [|done]. exact Hab'.
Qed.

Lemma ABTest_posteriors_follow_data_witness :
  exists ab',
    AddControlData [of_int 1; of_int 0]
      (NewABTestWithPriors (F:=float64)
         (Some (Prior_Beta (Beta_value (of_int 1) (of_int 1))))
         (Some (Prior_Beta (Beta_value (of_int 1) (of_int 1)))))
    = (ab', Returned tt) /\
    posteriors_follow_data ab' /\
    ABTest_ControlData ab' = [of_int 1; of_int 0].
Proof.
  destruct (ABTest_posteriors_follow_data (F:=float64)) as (_ & Hnew & Hadd).
  destruct (Hadd (NewABTestWithPriors
                    (Some (Prior_Beta (Beta_value (of_int 1) (of_int 1))))
                    (Some (Prior_Beta (Beta_value (of_int 1) (of_int 1)))))
                 [of_int 1; of_int 0] (Hnew _ _)
                 ltac:(discriminate) ltac:(discriminate))
    as [(ab' & Hrun & Hfollow & _ & _ & Hdata & _) _].
  exists ab'. split; [exact Hrun|]. split; [exact Hfollow|exact Hdata].
Defined.

(** ** Run-time checks and sampling *)

Lemma index_Returned {A} (x : list A) (i : Z) (v : A) :
  index_get x i = Returned v <->
  0 <= i < Z.of_nat (length x) /\ x !! Z.to_nat i = Some v.
Proof.
  unfold index_get.
  destruct (Z.ltb_spec i 0), (Z.leb_spec (Z.of_nat (length x)) i);
    cbn [orb]; try (split; [discriminate|lia]).
  destruct (x !! Z.to_nat i) as [a|] eqn:Hx.
  - split; [intros [= ->]; split; [lia|done]|by intros [_ [= ->]]].
  - split; [discriminate|by intros [_ ?]].
Qed.

Lemma index_in_range {A} (x : list A) (i : Z) :
  0 <= i < Z.of_nat (length x) -> exists v, index_get x i = Returned v.
Proof.
  intros Hi. destruct (lookup_lt_is_Some_2 x (Z.to_nat i)) as [v Hv]; [lia|].
  exists v. by apply index_Returned.
Qed.

Lemma index_out_of_range {A} (x : list A) (i : Z) :
  Z.of_nat (length x) <= i -> panics (index_get x i).
Proof.
  intros Hi. unfold index_get.
  destruct (Z.leb_spec (Z.of_nat (length x)) i); [|lia].
  rewrite orb_true_r. by eexists.
Qed.

Lemma index_set_Returned {A} (x x' : list A) (i : Z) (v : A) :
  index_set x i v = Returned x' <->
  0 <= i < Z.of_nat (length x) /\ x' = <[Z.to_nat i := v]> x.
Proof.
  unfold index_set.
  destruct (Z.ltb_spec i 0), (Z.leb_spec (Z.of_nat (length x)) i);
    cbn [orb]; try (split; [discriminate|lia]).
  split; [intros [= <-]; split; [lia|done]|by intros [_ ->]].
Qed.

Lemma index_set_in_range {A} (x : list A) (i : Z) (v : A) :
  0 <= i < Z.of_nat (length x) ->
  index_set x i v = Returned (<[Z.to_nat i := v]> x).
Proof. intros Hi. by apply index_set_Returned. Qed.

Section SamplingFacts.
Context {F : Type} `{Float64 F} {G : Type}.
Variable distuv_Beta_Rand : distuv_Beta (F:=F) -> prog G F.
Variable distuv_Normal_Rand : distuv_Normal (F:=F) -> prog G F.

Lemma make_list_Returned (n : Z) (x : list F) :
  make_list n = Returned x <-> 0 <= n /\ x = replicate (Z.to_nat n) (of_int 0).
Proof.
  unfold make_list. destruct (Z.ltb_spec n 0).
  - split; [discriminate|lia].
  - split; [by intros [= <-]|by intros [_ ->]].
Qed.

Lemma SampleN_loop_length (Sample : prog G F) (todo : nat) :
  forall (i : Z) (samples xs : list F) (g g' : G),
    SampleN_loop Sample i todo samples g = (g', Returned xs) ->
    length xs = length samples.
Proof.
  induction todo as [|todo IH]; intros i samples xs g g'.
  - by intros [= _ <-].
  - cbn [SampleN_loop]. unfold mbind at 1, prog_bind at 1.
    destruct (Sample g) as [g1 [x|msg]]; [|discriminate].
    unfold mbind at 1, prog_bind at 1, lift.
    destruct (index_set samples i x) as [samples'|msg] eqn:Hset; [|discriminate].
    apply index_set_Returned in Hset as [_ ->].
    intros Hloop. apply IH in Hloop. by rewrite length_insert in Hloop.
Qed.

Lemma SampleN_length (Sample : prog G F) (n : Z) (xs : list F) (g g' : G) :
  SampleN Sample n g = (g', Returned xs) -> Z.of_nat (length xs) = n.
Proof.
  unfold SampleN, mbind, prog_bind, lift.
  destruct (make_list n) as [samples|msg] eqn:Hmake; [|discriminate].
  apply make_list_Returned in Hmake as [Hn ->].
  intros Hloop. apply SampleN_loop_length in Hloop.
  rewrite Hloop, length_replicate. lia.
Qed.

Lemma SampleN_loop_returns (Sample : prog G F) (todo : nat) :
  (forall g, returns (snd (Sample g))) ->
  forall (i : Z) (samples : list F) (g : G),
    0 <= i -> i + Z.of_nat todo <= Z.of_nat (length samples) ->
    returns (snd (SampleN_loop Sample i todo samples g)).
Proof.
  intros HSample. induction todo as [|todo IH]; intros i samples g Hi Hlen.
  - by eexists.
  - cbn [SampleN_loop]. unfold mbind at 1, prog_bind at 1.
    destruct (HSample g) as [x Hx]. destruct (Sample g) as [g1 r].
    cbn [snd] in Hx. subst r.
    unfold mbind at 1, prog_bind at 1, lift.
    rewrite index_set_in_range by lia.
    apply IH; [lia|]. rewrite length_insert. lia.
Qed.

Lemma SampleN_returns (Sample : prog G F) (n : Z) (g : G) :
  (forall g, returns (snd (Sample g))) -> 0 <= n ->
  returns (snd (SampleN Sample n g)).
Proof.
  intros HSample Hn. unfold SampleN, mbind, prog_bind, lift, make_list.
  destruct (Z.ltb_spec n 0); [lia|].
  apply SampleN_loop_returns; [done|lia|]. rewrite length_replicate. lia.
Qed.

Lemma Posterior_SampleN_length
    (post : Posterior) (n : Z) (xs : list F) (g g' : G) :
  Posterior_SampleN distuv_Beta_Rand distuv_Normal_Rand post n g
  = (g', Returned xs) ->
  Z.of_nat (length xs) = n.
Proof. destruct post; apply SampleN_length. Qed.

Lemma Posterior_SampleN_returns (post : Posterior) (n : Z) (g : G) :
  (forall d g, returns (snd (distuv_Beta_Rand d g))) ->
  (forall d g, returns (snd (distuv_Normal_Rand d g))) ->
  0 <= n ->
  returns (snd (Posterior_SampleN distuv_Beta_Rand distuv_Normal_Rand post n g)).
Proof.
  intros HB HN Hn. destruct post; apply SampleN_returns; try done.
  - intros g0. apply HB.
  - intros g0. apply HN.
Qed.



End SamplingFacts.

(** ** The probability of improvement *)

(** A check of [P] on the [n] integers from [w0] on. *)
Lemma check_from (P : Z -> bool) (n : nat) :
  forall w0 : Z,
    nat_rect (fun _ => Z -> bool) (fun _ => true)
             (fun _ rest w => P w && rest (w + 1)) n w0 = true ->
    forall w, w0 <= w < w0 + Z.of_nat n -> P w = true.
Proof.
  induction n as [|n IH]; intros w0 Hall w Hw; [lia|].
  cbn [nat_rect] in Hall. apply andb_true_iff in Hall as [Hw0 Hrest].
  destruct (Z.eq_dec w w0) as [->|Hne]; [done|].
  apply (IH (w0 + 1) Hrest). lia.
Qed.

(** The quotient [wins / 10000] for each of the 10001 possible counts,
    by evaluation: it lies in [0, 1], and it is above 0.95, above 0.80,
    below 0.20 exactly from 9501 wins, from 8001 wins, up to 1999 wins. *)
Lemma wins_ratio_facts (wins : Z) :
  0 <= wins <= nSamples ->
  let prob : float64 := (of_int wins / of_int nSamples)%go in
  (of_int 0 <=? prob)%go = true /\
  (prob <=? of_int 1)%go = true /\
  ((prob >? lit 95 100)%go = (9501 <=? wins)) /\
  ((prob >? lit 80 100)%go = (8001 <=? wins)) /\
  ((prob <? lit 20 100)%go = (wins <=? 1999)).
Proof.
  intros Hw.
  change (lit 95 100 : float64) with (S754_finite false 8556839292003942 (-53)).
  change (lit 80 100 : float64) with (S754_finite false 7205759403792794 (-53)).
  change (lit 20 100 : float64) with (S754_finite false 7205759403792794 (-55)).
  change (of_int nSamples : float64)
    with (S754_finite false 5497558138880000 (-39)).
  change (of_int 1 : float64) with (S754_finite false 4503599627370496 (-52)).
  change (of_int 0 : float64) with (S754_zero false).
  set (check := fun w : Z =>
         let prob : float64 :=
           (of_int w / S754_finite false 5497558138880000 (-39))%go in
         (S754_zero false <=? prob)%go
         && (prob <=? S754_finite false 4503599627370496 (-52))%go
         && Bool.eqb (prob >? S754_finite false 8556839292003942 (-53))%go
                     (9501 <=? w)
         && Bool.eqb (prob >? S754_finite false 7205759403792794 (-53))%go
                     (8001 <=? w)
         && Bool.eqb (prob <? S754_finite false 7205759403792794 (-55))%go
                     (w <=? 1999)).
  assert (Hall : nat_rect (fun _ => Z -> bool) (fun _ => true)
                          (fun _ rest w => check w && rest (w + 1))
                          (Z.to_nat 10001) 0 = true)
    by (vm_compute; reflexivity).
  assert (Hcheck : check wins = true).
  { apply (check_from check (Z.to_nat 10001) 0 Hall).
    unfold nSamples in Hw. lia. }
  clear Hall. subst check. cbv beta zeta in Hcheck.
  apply andb_true_iff in Hcheck as [Hcheck H20].
  apply andb_true_iff in Hcheck as [Hcheck H80].
  apply andb_true_iff in Hcheck as [Hcheck H95].
  apply andb_true_iff in Hcheck as [Hlo Hhi].
  apply Bool.eqb_prop in H20, H80, H95.
  intros prob. subst prob. split; [exact Hlo|]. split; [exact Hhi|].
  split; [exact H95|]. split; [exact H80|exact H20].
Qed.



(** ** The recommendation *)

(** The recommendation for a probability of improvement of [wins] wins
    in the 10000 draws: strong evidence needs at least 9501 wins (and a
    treatment loss below 0.01), moderate evidence at least 8001, and
    the control is favoured up to 1999 wins.  Exactly 95%, 80% and 20%
    fall on the weaker side of each threshold. *)
Theorem getRecommendation_by_wins (wins : Z) (treatmentLoss : float64) :
  0 <= wins <= nSamples ->
  getRecommendation (of_int wins / of_int nSamples)%go treatmentLoss
  = if (9501 <=? wins) && (treatmentLoss <? lit 1 100)%go then
      "Strong evidence favors treatment. Recommend implementation."
    else if 8001 <=? wins then
      "Moderate evidence favors treatment. Consider implementation or continue testing."
    else if wins <=? 1999 then
      "Evidence favors control. Treatment likely inferior."
    else
      "Insufficient evidence to make a recommendation. Continue testing.".
Proof.
  intros Hw. destruct (wins_ratio_facts wins Hw) as (_ & _ & H95 & H80 & H20).
  unfold getRecommendation. by rewrite H95, H80, H20.
Qed.

Lemma getRecommendation_by_wins_witness :
  getRecommendation (of_int 9500 / of_int nSamples)%go (of_int 0 : float64)
  = "Moderate evidence favors treatment. Consider implementation or continue testing.".
Proof.
  assert (Hw : 0 <= 9500 <= nSamples) by (unfold nSamples; lia).
  exact (getRecommendation_by_wins 9500 (of_int 0) Hw).
Defined.

(** ** Signs of rounded results *)

Lemma shr_fexp_nonneg (m e : Z) (l : location) :
  0 <= m -> 0 <= shr_m (fst (shr_fexp prec emax m e l)).
Proof.
  intros Hm. unfold shr_fexp, shr.
  assert (Hrec : shr_m (shr_record_of_loc m l) = m) by (by destruct l as [|[]]).
  destruct (fexp prec emax (Zdigits2 m + e) - e) as [|p|p]; cbn [fst];
    [by rewrite Hrec| |by rewrite Hrec].
  rewrite iter_pos_nat, iter_shr_1_div by (by rewrite Hrec).
  rewrite Hrec. apply Z.div_pos; [done|]. apply Z.pow_pos_nonneg; lia.
Qed.

Lemma binary_round_aux_nonneg (mx ex : Z) (lx : location) :
  0 <= mx ->
  ((of_int 0 : float64) <=? binary_round_aux prec emax false mx ex lx)%go = true.
Proof.
  intros Hm. unfold binary_round_aux.
  pose proof (shr_fexp_nonneg mx ex lx Hm) as H1.
  destruct (shr_fexp prec emax mx ex lx) as [mrs' e']. cbn [fst] in H1.
  pose proof (round_nearest_even_bounds (shr_m mrs') (loc_of_shr_record mrs'))
    as Hround.
  pose proof (shr_fexp_nonneg
                (round_nearest_even (shr_m mrs') (loc_of_shr_record mrs'))
                e' loc_Exact ltac:(lia)) as H2.
  destruct (shr_fexp prec emax _ e' loc_Exact) as [mrs'' e'']. cbn [fst] in H2.
  destruct (shr_m mrs'') as [|m|m]; [reflexivity| |lia].
  by destruct (e'' <=? emax - prec).
Qed.

Lemma binary_round_nonneg (m : positive) (e : Z) :
  ((of_int 0 : float64) <=? binary_round prec emax false m e)%go = true.
Proof.
  unfold binary_round. destruct (shl_align _ _ _) as [mz ez].
  by apply binary_round_aux_nonneg.
Qed.

(** Adding a positive number to a number that is not negative gives a
    number that is not negative (and not NaN). *)
Lemma fadd_nonneg (x d : float64) :
  (of_int 0 <=? x)%go = true -> (d >? of_int 0)%go = true ->
  (of_int 0 <=? x + d)%go = true.
Proof.
  destruct x as [sx|[]| |[] mx ex], d as [sd|[]| |[] md ed]; try done.
  intros _ _. cbn [fadd binary64 SFadd cond_Zopp binary_normalize Z.add].
  apply binary_round_nonneg.
Qed.

(** Subtracting a number that is not positive from one that is not
    negative never gives a negative number. *)
Lemma fsub_not_negative (x d : float64) :
  (x <? of_int 0)%go = false -> (d >? of_int 0)%go = false ->
  (x - d <? of_int 0)%go = false.
Proof.
  destruct x as [[]|[]| |[] mx ex], d as [[]|[]| |[] md ed]; try done.
  intros _ _. cbn [fsub binary64 SFsub cond_Zopp binary_normalize Z.sub Z.add Z.opp].
  apply fleb_not_fltb, binary_round_nonneg.
Qed.

Lemma fdiv_nSamples_nonneg (x : float64) :
  (of_int 0 <=? x)%go = true -> (of_int 0 <=? x / of_int nSamples)%go = true.
Proof.
  change (of_int nSamples : float64)
    with (S754_finite false 5497558138880000 (-39)).
  destruct x as [sx|[]| |[] mx ex]; try done. intros _.
  cbn [fdiv binary64 SFdiv xorb]. unfold SFdiv_core_binary.
  set (m' := match _ with Z0 => Zpos mx | Zpos _ => _ | Zneg _ => 0 end).
  assert (Hm' : 0 <= m').
  { subst m'. destruct (_ - _ - _) as [|p|p]; try lia.
    rewrite Z.shiftl_mul_pow2 by lia. apply Z.mul_nonneg_nonneg; [lia|].
    apply Z.pow_nonneg. lia. }
  pose proof (Z.div_pos m' (Zpos 5497558138880000) Hm' ltac:(lia)) as Hq.
  unfold Z.div in Hq. destruct (Z.div_eucl m' _) as [q r].
  by apply binary_round_aux_nonneg.
Qed.

Lemma fdiv_nSamples_not_negative (x : float64) :
  (x <? of_int 0)%go = false -> (x / of_int nSamples <? of_int 0)%go = false.
Proof.
  intros Hx. destruct x as [sx|[]| |[] mx ex] eqn:Ex; try done;
    apply fleb_not_fltb, fdiv_nSamples_nonneg; done.
Qed.

(** ** The expected losses *)

Lemma loss_loop_not_negative (c t : list float64) (todo : nat) :
  forall (i : Z) (controlLoss treatmentLoss controlLoss' treatmentLoss' : float64),
    (of_int 0 <=? controlLoss)%go = true ->
    (treatmentLoss <? of_int 0)%go = false ->
    loss_loop c t i todo controlLoss treatmentLoss
    = Returned (controlLoss', treatmentLoss') ->
    (of_int 0 <=? controlLoss')%go = true /\
    (treatmentLoss' <? of_int 0)%go = false.
Proof.
  induction todo as [|todo IH]; intros i cl tl cl' tl' Hcl Htl.
  - by intros [= <- <-].
  - cbn [loss_loop]. unfold mbind, outcome_bind.
    destruct (index_get t i) as [ti|]; [|discriminate].
    destruct (index_get c i) as [ci|]; [|discriminate].
    destruct (fltb (of_int 0) (ti - ci)%go) eqn:Hdiff; apply IH; try done.
    + by apply fadd_nonneg.
    + by apply fsub_not_negative.
Qed.

Lemma loss_loop_returns {F} `{Float64 F} (c t : list F) (todo : nat) :
  forall (i : Z) (controlLoss treatmentLoss : F),
    0 <= i ->
    i + Z.of_nat todo <= Z.of_nat (length c) ->
    i + Z.of_nat todo <= Z.of_nat (length t) ->
    returns (loss_loop c t i todo controlLoss treatmentLoss).
Proof.
  induction todo as [|todo IH]; intros i cl tl Hi Hc Ht.
  - by eexists.
  - cbn [loss_loop]. unfold mbind, outcome_bind.
    destruct (index_in_range t i) as [ti ->]; [lia|].
    destruct (index_in_range c i) as [ci ->]; [lia|].
    destruct (fltb (of_int 0) (ti - ci)%go); apply IH; lia.
Qed.

(** Neither expected loss is ever negative, whatever the samplers
    deliver: the control loss is a number >= 0 (possibly +Inf, never
    NaN), the treatment loss is >= 0 or NaN.  [ExpectedLoss] returns
    whenever the samplers do. *)
Theorem ExpectedLoss_not_negative {G : Type}
    (distuv_Beta_Rand : distuv_Beta -> prog G float64)
    (distuv_Normal_Rand : distuv_Normal -> prog G float64)
    (ab : ABTest) (g : G) :
  let run := ExpectedLoss distuv_Beta_Rand distuv_Normal_Rand ab g in
  ((forall d g, returns (snd (distuv_Beta_Rand d g))) ->
   (forall d g, returns (snd (distuv_Normal_Rand d g))) ->
   returns (snd run)) /\
  (forall controlLoss treatmentLoss,
     snd run = Returned (controlLoss, treatmentLoss) ->
     (of_int 0 <=? controlLoss)%go = true /\
     (treatmentLoss <? of_int 0)%go = false).
Proof.
  intros run. subst run. unfold ExpectedLoss.
  destruct (ABTest_ControlPost ab) as [cpost|];
    [destruct (ABTest_TreatmentPost ab) as [tpost|]|].
  2,3: split; [by eexists|]; by intros cl tl [= <- <-].
  split.
  - intros HB HN. unfold mbind, prog_bind, lift.
    destruct (Posterior_SampleN_returns distuv_Beta_Rand distuv_Normal_Rand
                cpost nSamples g HB HN) as [c Hc]; [done|].
    destruct (Posterior_SampleN _ _ cpost nSamples g) as [g1 rc] eqn:Hcs.
    cbn [snd] in Hc. subst rc.
    destruct (Posterior_SampleN_returns distuv_Beta_Rand distuv_Normal_Rand
                tpost nSamples g1 HB HN) as [t Ht]; [done|].
    destruct (Posterior_SampleN _ _ tpost nSamples g1) as [g2 rt] eqn:Hts.
    cbn [snd] in Ht. subst rt.
    apply Posterior_SampleN_length in Hcs, Hts.
    destruct (loss_loop_returns c t (Z.to_nat nSamples) 0 (of_int 0) (of_int 0))
      as [[cl tl] ->]; [done|rewrite Hcs; done|rewrite Hts; done|].
    by eexists.
  - intros cl tl. unfold mbind, prog_bind, lift.
    destruct (Posterior_SampleN _ _ cpost nSamples g) as [g1 [c|]];
      [|discriminate].
    destruct (Posterior_SampleN _ _ tpost nSamples g1) as [g2 [t|]];
      [|discriminate].
    destruct (loss_loop c t 0 (Z.to_nat nSamples) (of_int 0) (of_int 0))
      as [[cl0 tl0]|] eqn:Hloop; [|discriminate].
    apply loss_loop_not_negative in Hloop as [Hcl Htl]; [|done..].
    cbn [snd mret prog_ret]. intros [= <- <-].
    split; [by apply fdiv_nSamples_nonneg|by apply fdiv_nSamples_not_negative].
Qed.

Lemma ExpectedLoss_not_negative_witness :
  returns (snd (ExpectedLoss (constant_draw (lit 1 2))
                  (constant_draw (lit 1 2)) example_ABTest tt)) /\
  (of_int 0 <=? (of_int 0 : float64))%go = true /\
  ((of_int 0 : float64) <? of_int 0)%go = false.
Proof.
  split.
  - apply (ExpectedLoss_not_negative (constant_draw (lit 1 2))
             (constant_draw (lit 1 2)) example_ABTest tt);
      intros d g; by eexists.
  - apply (ExpectedLoss_not_negative (G:=unit) (constant_draw (lit 1 2))
             (constant_draw (lit 1 2)) (NewABTestWithPriors None None) tt).
    reflexivity.
Defined.

(** ** The relative uplift *)

Section UpliftFacts.
Context {F : Type} `{Float64 F}.

Lemma uplift_loop_returns (c t : list F) (todo : nat) :
  forall (i : Z) (uplifts : list F),
    0 <= i ->
    i + Z.of_nat todo <= Z.of_nat (length c) ->
    i + Z.of_nat todo <= Z.of_nat (length t) ->
    exists u, uplift_loop c t i todo uplifts = Returned u /\
              (length u <= length uplifts + todo)%nat /\
              (length uplifts <= length u)%nat /\
              (u = [] <-> uplifts = [] /\
                          forall j x, i <= j < i + Z.of_nat todo ->
                                      c !! Z.to_nat j = Some x ->
                                      (x >? of_int 0)%go = false).
Proof.
  induction todo as [|todo IH]; intros i uplifts Hi Hc Ht.
  - exists uplifts. split; [done|]. split; [lia|]. split; [lia|].
    split; [intros ->; split; [done|]; intros; lia|by intros [-> _]].
  - cbn [uplift_loop]. unfold mbind, outcome_bind.
    destruct (index_in_range c i) as [ci Hci]; [lia|]. rewrite Hci.
    apply index_Returned in Hci as [_ Hci].
    destruct (fltb (of_int 0) ci) eqn:Hpos.
    + destruct (index_in_range t i) as [ti ->]; [lia|].
      destruct (IH (i + 1) (uplifts ++ [((ti - ci) / ci)%go])) as (u & -> & Hle & Hge & Hnil);
        [lia..|].
      rewrite length_app in Hle, Hge. cbn [length] in Hle, Hge.
      exists u. split; [done|]. split; [lia|]. split; [lia|].
      split.
      * intros ->. cbn [length] in Hge. lia.
      * intros [_ Hall]. specialize (Hall i ci ltac:(lia) Hci). congruence.
    + destruct (IH (i + 1) uplifts) as (u & -> & Hle & Hge & Hnil); [lia..|].
      exists u. split; [done|]. split; [lia|]. split; [lia|].
      rewrite Hnil. split.
      * intros [-> Hall]. split; [done|]. intros j x Hj Hx.
        destruct (Z.eq_dec j i) as [->|Hne].
        -- rewrite Hci in Hx. by injection Hx as <-.
        -- apply (Hall j); [lia|done].
      * intros [-> Hall]. split; [done|]. intros j x Hj. apply Hall. lia.
Qed.

End UpliftFacts.

Lemma ComputeSummary_alloc_empty {G : Type} (h : heap float64) (g : G) :
  panics (snd ((uplifts ← with_heap (alloc []);
                with_heap (ComputeSummary uplifts)) (h, g))).
Proof.
  unfold mbind, prog_bind, with_heap, alloc.
  rewrite ComputeSummary_unfold. cbn [snd contents].
  rewrite lookup_insert_eq. cbn [default id].
  change (slices_Sort (F:=float64) []) with (@nil float64).
  apply summary_literal_empty.
Qed.

Lemma ComputeSummary_alloc_returns {G : Type}
    (u : list float64) (h : heap float64) (g : G) :
  u <> [] -> Z.of_nat (length u) < 2 ^ 53 ->
  returns (snd ((uplifts ← with_heap (alloc u);
                 with_heap (ComputeSummary uplifts)) (h, g))).
Proof.
  intros Hu Hlen. unfold mbind, prog_bind, with_heap, alloc.
  destruct (ComputeSummary_returns (<[fresh (dom h) := u]> h)
              (slice_at (fresh (dom h)))) as [s Hs].
  - cbn [contents]. by rewrite lookup_insert_eq.
  - cbn [contents]. by rewrite lookup_insert_eq.
  - destruct (ComputeSummary _ _) as [h' r]. cbn [snd] in Hs. subst r.
    by eexists.
Qed.

(** [RelativeUplift] keeps the pairs whose control sample is positive
    and summarises their uplifts.  With posteriors on both arms and
    samplers that return, it returns exactly when at least one of the
    10000 control samples drawn is greater than 0; when none is (every
    draw negative, zero or NaN) the summary of no uplifts panics. *)
Theorem RelativeUplift_returns_iff {G : Type}
    (distuv_Beta_Rand : distuv_Beta -> prog G float64)
    (distuv_Normal_Rand : distuv_Normal -> prog G float64)
    (ab : ABTest) (controlPost treatmentPost : Posterior)
    (h : heap float64) (g : G) :
  ABTest_ControlPost ab = Some controlPost ->
  ABTest_TreatmentPost ab = Some treatmentPost ->
  (forall d g, returns (snd (distuv_Beta_Rand d g))) ->
  (forall d g, returns (snd (distuv_Normal_Rand d g))) ->
  let run := RelativeUplift distuv_Beta_Rand distuv_Normal_Rand ab (h, g) in
  exists (g1 g2 : G) (controlSamples treatmentSamples : list float64),
    Posterior_SampleN distuv_Beta_Rand distuv_Normal_Rand controlPost nSamples g
    = (g1, Returned controlSamples) /\
    Posterior_SampleN distuv_Beta_Rand distuv_Normal_Rand treatmentPost nSamples g1
    = (g2, Returned treatmentSamples) /\
    (returns (snd run) <->
     exists x, x ∈ controlSamples /\ (x >? of_int 0)%go = true) /\
    (panics (snd run) <->
     forall x, x ∈ controlSamples -> (x >? of_int 0)%go = false).
Proof.
  intros Hcp Htp HB HN run. subst run. unfold RelativeUplift.
  rewrite Hcp, Htp.
  destruct (Posterior_SampleN_returns distuv_Beta_Rand distuv_Normal_Rand
              controlPost nSamples g HB HN) as [c Hc]; [done|].
  destruct (Posterior_SampleN _ _ controlPost nSamples g) as [g1 rc] eqn:Hcs.
  cbn [snd] in Hc. subst rc.
  destruct (Posterior_SampleN_returns distuv_Beta_Rand distuv_Normal_Rand
              treatmentPost nSamples g1 HB HN) as [t Ht]; [done|].
  destruct (Posterior_SampleN _ _ treatmentPost nSamples g1) as [g2 rt] eqn:Hts.
  cbn [snd] in Ht. subst rt.
  exists g1, g2, c, t. split; [done|]. split; [done|].
  pose proof (Posterior_SampleN_length _ _ _ _ _ _ _ Hcs) as Hclen.
  pose proof (Posterior_SampleN_length _ _ _ _ _ _ _ Hts) as Htlen.
  destruct (uplift_loop_returns c t (Z.to_nat nSamples) 0 [])
    as (u & Hu & Hle & _ & Hnil); [done|rewrite Hclen; done|rewrite Htlen; done|].
  assert (Hrun : snd ((controlSamples ← with_rng (Posterior_SampleN distuv_Beta_Rand distuv_Normal_Rand controlPost nSamples);
      treatmentSamples ← with_rng (Posterior_SampleN distuv_Beta_Rand distuv_Normal_Rand treatmentPost nSamples);
      uplifts ← lift (uplift_loop controlSamples treatmentSamples 0
                                  (Z.to_nat nSamples) []);
      uplifts ← with_heap (alloc uplifts);
      summary ← with_heap (ComputeSummary uplifts);
      mret (Summary_Mean summary, fst (Summary_CI95 summary),
            snd (Summary_CI95 summary))) (h, g))
    = snd ((summary ← (uplifts ← with_heap (alloc u);
                       with_heap (ComputeSummary uplifts));
            mret (Summary_Mean summary, fst (Summary_CI95 summary),
                  snd (Summary_CI95 summary))) (h, g2))).
  { unfold mbind at 1, prog_bind at 1, with_rng at 1. rewrite Hcs.
    unfold mbind at 1, prog_bind at 1, with_rng at 1. rewrite Hts.
    unfold mbind at 1, prog_bind at 1, lift at 1. rewrite Hu.
    unfold mbind, prog_bind. by destruct (with_heap (alloc u) (h, g2)) as [? []]. }
  rewrite Hrun. clear Hrun.
  assert (Hall : u = [] <-> forall x, x ∈ c -> (x >? of_int 0)%go = false).
  { rewrite Hnil. split.
    - intros [_ Hall] x Hx. apply list_elem_of_lookup in Hx as [j Hj].
      apply (Hall (Z.of_nat j)); [|by rewrite Nat2Z.id].
      apply lookup_lt_Some in Hj. lia.
    - intros Hall. split; [done|]. intros j x _ Hx. apply Hall.
      by apply list_elem_of_lookup_2 in Hx. }
  assert (Hsome : u <> [] <-> exists x, x ∈ c /\ (x >? of_int 0)%go = true).
  { split.
    - intros Hne. destruct (decide (Exists (fun x => fltb (of_int 0) x = true) c))
        as [Hex|Hnex].
      + apply Exists_exists in Hex. exact Hex.
      + exfalso. apply Hne, (proj2 Hall). intros x Hx.
        destruct (fltb (of_int 0) x) eqn:Hpos; [|done].
        exfalso. apply Hnex, Exists_exists. by exists x.
    - intros (x & Hx & Hpos) Hnil'.
      rewrite (proj1 Hall Hnil' x Hx) in Hpos. discriminate. }
  destruct u as [|u0 u].
  - pose proof (ComputeSummary_alloc_empty h g2) as [msg Hmsg].
    assert (Hpanic : panics (snd ((summary ← (uplifts ← with_heap (alloc []);
                       with_heap (ComputeSummary uplifts));
            mret (Summary_Mean summary, fst (Summary_CI95 summary),
                  snd (Summary_CI95 summary))) (h, g2)))).
    { unfold mbind at 1, prog_bind at 1.
      destruct ((uplifts ← with_heap (alloc []); with_heap (ComputeSummary uplifts)) (h, g2))
        as [s' r]. cbn [snd] in Hmsg. subst r. by eexists. }
    split.
    + split; [|intros Hex; by apply Hsome in Hex].
      intros [v Hv]. destruct Hpanic as [m Hm]. rewrite Hv in Hm. discriminate.
    + split; [intros _; by apply (proj1 Hall)|done].
  - destruct (ComputeSummary_alloc_returns (u0 :: u) h g2) as [s Hs];
      [done|cbn [length] in *; unfold nSamples in *; lia|].
    assert (Hret : returns (snd ((summary ← (uplifts ← with_heap (alloc (u0 :: u));
                       with_heap (ComputeSummary uplifts));
            mret (Summary_Mean summary, fst (Summary_CI95 summary),
                  snd (Summary_CI95 summary))) (h, g2)))).
    { unfold mbind at 1, prog_bind at 1.
      destruct ((uplifts ← with_heap (alloc (u0 :: u)); with_heap (ComputeSummary uplifts)) (h, g2))
        as [s' r]. cbn [snd] in Hs. subst r. by eexists. }
    split.
    + split; [intros _; by apply (proj1 Hsome)|done].
    + split; [|intros Hno; by pose proof (proj2 Hall Hno)].
      intros [m Hm]. destruct Hret as [v Hv]. rewrite Hv in Hm. discriminate.
Qed.

Lemma RelativeUplift_returns_iff_witness :
  let run := RelativeUplift (constant_draw (lit 1 2)) (constant_draw (lit 1 2))
               example_ABTest (∅, tt) in
  exists (g1 g2 : unit) (controlSamples treatmentSamples : list float64),
    Posterior_SampleN (constant_draw (lit 1 2)) (constant_draw (lit 1 2))
      (Posterior_Beta {| BetaPosterior_Beta := Beta_value (of_int 2) (of_int 2) |})
      nSamples tt
    = (g1, Returned controlSamples) /\
    Posterior_SampleN (constant_draw (lit 1 2)) (constant_draw (lit 1 2))
      (Posterior_Beta {| BetaPosterior_Beta := Beta_value (of_int 3) (of_int 1) |})
      nSamples g1
    = (g2, Returned treatmentSamples) /\
    (returns (snd run) <->
     exists x, x ∈ controlSamples /\ (x >? of_int 0)%go = true) /\
    (panics (snd run) <->
     forall x, x ∈ controlSamples -> (x >? of_int 0)%go = false).
Proof.
  apply (RelativeUplift_returns_iff (constant_draw (lit 1 2))
           (constant_draw (lit 1 2)) example_ABTest
           (Posterior_Beta {| BetaPosterior_Beta := Beta_value (of_int 2) (of_int 2) |})
           (Posterior_Beta {| BetaPosterior_Beta := Beta_value (of_int 3) (of_int 1) |})
           ∅ tt eq_refl eq_refl); intros d g; by eexists.
Defined.

(** ** Stepping through Go code with state *)

Lemma bind_Returned {S A B} (m : prog S A) (k : A -> prog S B)
    (s s' : S) (a : A) :
  m s = (s', Returned a) -> (x ← m; k x) s = k a s'.
Proof. intros Hm. unfold mbind, prog_bind. by rewrite Hm. Qed.

Lemma bind_Panicked {S A B} (m : prog S A) (k : A -> prog S B)
    (s s' : S) (msg : string) :
  m s = (s', Panicked msg) -> (x ← m; k x) s = (s', Panicked msg).
Proof. intros Hm. unfold mbind, prog_bind. by rewrite Hm. Qed.

Lemma bind_panics {S A B} (m : prog S A) (k : A -> prog S B) (s : S) :
  panics (snd (m s)) -> panics (snd ((x ← m; k x) s)).
Proof.
  intros [msg Hm]. destruct (m s) as [s' r] eqn:Hms. cbn [snd] in Hm. subst r.
  rewrite (bind_Panicked _ _ _ _ _ Hms). by eexists.
Qed.

(** ** A credible interval of full confidence *)

Lemma differences_loop_length {F} `{Float64 F} (c t : list F) (todo : nat) :
  forall (i : Z) (differences d : list F),
    differences_loop c t i todo differences = Returned d ->
    length d = length differences.
Proof.
  induction todo as [|todo IH]; intros i differences d.
  - by intros [= <-].
  - cbn [differences_loop]. unfold mbind, outcome_bind.
    destruct (index_get t i) as [ti|]; [|discriminate].
    destruct (index_get c i) as [ci|]; [|discriminate].
    destruct (index_set differences i _) as [d1|] eqn:Hset; [|discriminate].
    apply index_set_Returned in Hset as [_ ->].
    intros Hloop. apply IH in Hloop. by rewrite length_insert in Hloop.
Qed.

(** At confidence 1 the upper index is [int(1 * 10000) = 10000], one
    past the last of the 10000 sorted differences: with posteriors on
    both arms [CredibleIntervalDifference(1)] always panics, whatever
    the samplers deliver. *)
Theorem CredibleIntervalDifference_full_confidence_panics {G : Type}
    (distuv_Beta_Rand : distuv_Beta -> prog G float64)
    (distuv_Normal_Rand : distuv_Normal -> prog G float64)
    (unrepresentable : float64 -> Z)
    (ab : ABTest) (controlPost treatmentPost : Posterior)
    (h : heap float64) (g : G) :
  ABTest_ControlPost ab = Some controlPost ->
  ABTest_TreatmentPost ab = Some treatmentPost ->
  panics (snd (CredibleIntervalDifference distuv_Beta_Rand distuv_Normal_Rand
                 (float64_to_int unrepresentable) ab (of_int 1) (h, g))).
Proof.
  intros Hcp Htp. unfold CredibleIntervalDifference. rewrite Hcp, Htp.
  destruct (with_rng (H:=heap float64)
              (Posterior_SampleN distuv_Beta_Rand distuv_Normal_Rand
                 controlPost nSamples) (h, g)) as [s1 [c|msg]] eqn:Hcs;
    [|rewrite (bind_Panicked _ _ _ _ _ Hcs); by eexists].
  rewrite (bind_Returned _ _ _ _ _ Hcs). clear Hcs.
  destruct (with_rng (H:=heap float64)
              (Posterior_SampleN distuv_Beta_Rand distuv_Normal_Rand
                 treatmentPost nSamples) s1) as [s2 [t|msg]] eqn:Hts;
    [|rewrite (bind_Panicked _ _ _ _ _ Hts); by eexists].
  rewrite (bind_Returned _ _ _ _ _ Hts). clear Hts.
  rewrite (bind_Returned _ _ s2 s2 (replicate (Z.to_nat nSamples) (of_int 0)))
    by reflexivity.
  destruct (differences_loop c t 0 (Z.to_nat nSamples)
              (replicate (Z.to_nat nSamples) (of_int 0))) as [d|msg] eqn:Hd;
    [|rewrite (bind_Panicked _ _ s2 s2 msg) by reflexivity; by eexists].
  rewrite (bind_Returned _ _ s2 s2 d) by reflexivity.
  apply differences_loop_length in Hd. rewrite length_replicate in Hd.
  destruct s2 as [h2 g2].
  set (l := fresh (dom h2)).
  rewrite (bind_Returned _ _ (h2, g2) (<[l := d]> h2, g2) (slice_at l))
    by reflexivity.
  assert (Hcontents : forall x, contents (<[l := x]> h2) (slice_at l) = x).
  { intros x. cbn [contents]. by rewrite lookup_insert_eq. }
  set (h3 := <[l := d]> h2).
  assert (Hsum : exists r,
            with_heap (G:=G) (ComputeSummary (slice_at l)) (h3, g2)
            = ((<[fresh (dom h3) := slices_Sort d]> h3, g2), r)).
  { unfold with_heap. rewrite ComputeSummary_unfold. unfold h3 at 2 3 4.
    rewrite !Hcontents. by eexists. }
  destruct Hsum as [[summary|msg] Hsum];
    [|rewrite (bind_Panicked _ _ _ _ _ Hsum); by eexists].
  rewrite (bind_Returned _ _ _ _ _ Hsum). clear Hsum.
  set (h4 := <[fresh (dom h3) := slices_Sort d]> h3).
  assert (Hd4 : contents h4 (slice_at l) = d).
  { unfold h4. rewrite contents_fresh_other.
    - apply Hcontents.
    - unfold h3. rewrite Hcontents. intros ->. done. }
  change (of_int 1 =? lit 95 100)%go with false.
  change (of_int 1 =? lit 99 100)%go with false.
  cbv iota.
  assert (Hmake : with_heap (G:=G)
            (fun h => let '(h, s) := make (length (contents h (slice_at l))) h in
                      (h, Returned s)) (h4, g2)
          = ((<[fresh (dom h4) := replicate (length d) (of_int 0)]> h4, g2),
             Returned (slice_at (fresh (dom h4))))).
  { unfold with_heap, make. by rewrite Hd4. }
  rewrite (bind_Returned _ _ _ _ _ Hmake). clear Hmake.
  set (l' := fresh (dom h4)).
  set (h5 := <[l' := replicate (length d) (of_int 0)]> h4).
  assert (Hd5 : contents h5 (slice_at l) = d).
  { unfold h5, l'. rewrite contents_fresh_other; [done|].
    rewrite Hd4. intros ->. done. }
  assert (Hs5 : contents h5 (slice_at l') = replicate (length d) (of_int 0)).
  { unfold h5. cbn [contents]. by rewrite lookup_insert_eq. }
  assert (Hcopy : exists x, copy (slice_at l') (slice_at l) h5 = <[l' := x]> h5 /\
                            length x = length d).
  { unfold copy. rewrite Hd5, Hs5, length_replicate, Nat.min_id.
    eexists. split; [reflexivity|].
    rewrite length_app, length_take, length_drop, length_replicate. lia. }
  destruct Hcopy as (x & Hcopy & Hx).
  unfold mbind at 1, prog_bind at 1, with_heap at 1. rewrite Hcopy.
  unfold mbind at 1, prog_bind at 1, with_heap at 1.
  unfold slices_Sort_in_place.
  assert (Hs6 : contents (<[l' := x]> h5) (slice_at l') = x).
  { cbn [contents]. by rewrite lookup_insert_eq. }
  rewrite Hs6. cbn [slice_store].
  unfold mbind at 1, prog_bind at 1, get_state.
  assert (Hs7 : contents (<[l' := slices_Sort x]> (<[l' := x]> h5)) (slice_at l')
                = slices_Sort x).
  { cbn [contents]. by rewrite lookup_insert_eq. }
  rewrite Hs7, slices_Sort_length, Hx, Hd.
  change (Z.of_nat (Z.to_nat nSamples)) with 10000.
  change (float64_to_int unrepresentable
            ((of_int 1 - of_int 1) / of_int 2 * of_int 10000)%go) with 0.
  change (float64_to_int unrepresentable
            ((of_int 1 - (of_int 1 - of_int 1) / of_int 2) * of_int 10000)%go)
    with 10000.
  destruct (index_in_range (slices_Sort x) 0) as [lower Hlower].
  { rewrite slices_Sort_length, Hx, Hd. done. }
  destruct (index_out_of_range (slices_Sort x) 10000) as [msg Hupper].
  { rewrite slices_Sort_length, Hx, Hd. done. }
  unfold mbind, prog_bind, lift. rewrite Hlower, Hupper. by eexists.
Qed.

Lemma CredibleIntervalDifference_full_confidence_panics_witness :
  panics (snd (CredibleIntervalDifference (constant_draw (lit 1 2))
                 (constant_draw (lit 1 2)) (float64_to_int (fun _ => 0))
                 example_ABTest (of_int 1) (∅, tt))).
Proof.
  apply (CredibleIntervalDifference_full_confidence_panics
           (constant_draw (lit 1 2)) (constant_draw (lit 1 2)) (fun _ => 0)
           example_ABTest
           (Posterior_Beta {| BetaPosterior_Beta := Beta_value (of_int 2) (of_int 2) |})
           (Posterior_Beta {| BetaPosterior_Beta := Beta_value (of_int 3) (of_int 1) |})
           ∅ tt eq_refl eq_refl).
Defined.

(** ** Conversion rate and churn *)

Section OnesLoop.
Context {F : Type} `{Float64 F}.

Lemma ones_loop_Returned (todo : nat) :
  forall (i : Z) (data : list F),
    0 <= i -> i + Z.of_nat todo <= Z.of_nat (length data) ->
    ones_loop i todo data
    = Returned (take (Z.to_nat i) data ++ replicate todo (of_int 1)
                ++ drop (Z.to_nat i + todo) data).
Proof.
  induction todo as [|todo IH]; intros i data Hi Hlen.
  - cbn [ones_loop replicate app]. by rewrite Nat.add_0_r, take_drop.
  - cbn [ones_loop]. rewrite index_set_in_range by lia.
    cbn [mbind outcome_bind]. rewrite IH by (rewrite ?length_insert; lia).
    f_equal. replace (Z.to_nat (i + 1)) with (S (Z.to_nat i)) by lia.
    rewrite (take_S_r _ _ (of_int 1))
      by (apply list_lookup_insert_eq; lia).
    rewrite take_insert_ge by lia. rewrite drop_insert_lt by lia.
    rewrite <- app_assoc. cbn [app replicate].
    by replace (S (Z.to_nat i) + todo)%nat with (Z.to_nat i + S todo)%nat by lia.
Qed.

Lemma ones_loop_panics (todo : nat) :
  forall (i : Z) (data : list F),
    0 <= i <= Z.of_nat (length data) ->
    Z.of_nat (length data) < i + Z.of_nat todo ->
    panics (ones_loop i todo data).
Proof.
  induction todo as [|todo IH]; intros i data Hi Hlen; [lia|].
  cbn [ones_loop].
  destruct (Z.eq_dec i (Z.of_nat (length data))) as [->|Hne].
  - unfold index_set.
    destruct (Z.leb_spec (Z.of_nat (length data)) (Z.of_nat (length data)));
      [|lia].
    rewrite orb_true_r. by eexists.
  - rewrite index_set_in_range by lia. cbn [mbind outcome_bind].
    apply IH; rewrite length_insert; lia.
Qed.

End OnesLoop.

Lemma positives_ones_zeros (k m : nat) :
  positives (replicate k (of_int 1 : float64) ++ replicate m (of_int 0))
  = k.
Proof.
  rewrite positives_app.
  assert (H1 : positives (replicate k (of_int 1 : float64)) = k).
  { induction k as [|k IH]; [done|]. unfold positives in *.
    cbn [replicate List.filter].
    change (fltb (of_int 0) (of_int 1 : float64)) with true.
    cbn [length]. by rewrite IH. }
  assert (H0 : positives (replicate m (of_int 0 : float64)) = 0%nat).
  { induction m as [|m IH]; [done|]. unfold positives in *.
    cbn [replicate List.filter].
    by change (fltb (of_int 0) (of_int 0 : float64)) with false. }
  rewrite H1, H0. lia.
Qed.

Section ConversionFacts.
Context {G : Type}.
Variable distuv_Beta_Rand : distuv_Beta (F:=float64) -> prog G float64.
Variable distuv_Normal_Rand : distuv_Normal (F:=float64) -> prog G float64.

Lemma NewBusinessMetrics_conversion :
  exists bm, NewBusinessMetrics = Returned bm /\
             BusinessMetrics_DefaultPriors bm !! "conversion"
             = Some (Prior_Beta (Beta_value (of_int 1 : float64) (of_int 1))).
Proof.
  eexists. split; [reflexivity|]. cbn [BusinessMetrics_DefaultPriors].
  by rewrite lookup_insert_eq.
Qed.

Lemma ConversionRate_draws (bm : BusinessMetrics) (a c successes trials : Z)
    (state : heap float64 * G) :
  BusinessMetrics_DefaultPriors bm !! "conversion"
  = Some (Prior_Beta (Beta_value (of_int a) (of_int c))) ->
  0 <= a -> 0 <= c -> a + trials < 2 ^ 53 -> c + trials < 2 ^ 53 ->
  0 <= trials -> successes <= trials ->
  let s := Z.max 0 successes in
  ConversionRate distuv_Beta_Rand distuv_Normal_Rand bm successes trials state
  = estimate_of_posterior distuv_Beta_Rand distuv_Normal_Rand
      (Posterior_Beta {| BetaPosterior_Beta :=
         Beta_value (of_int (a + s)) (of_int (c + trials - s)) |}) state.
Proof.
  intros Hprior Ha Hc Hat Hct Ht Hs s.
  unfold ConversionRate, estimate_of_posterior. rewrite Hprior.
  rewrite (bind_Returned _ _ state state
             (replicate (Z.to_nat trials) (of_int 0))).
  2:{ unfold lift, make_list. destruct (Z.ltb_spec trials 0); [lia|done]. }
  rewrite (bind_Returned _ _ state state
             (replicate (Z.to_nat s) (of_int 1)
              ++ replicate (Z.to_nat (trials - s)) (of_int 0))).
  2:{ unfold lift. rewrite ones_loop_Returned
        by (rewrite ?length_replicate; lia).
      change (Z.to_nat 0) with 0%nat. cbn [take app]. rewrite drop_replicate.
      replace (Z.to_nat successes) with (Z.to_nat s) by (subst s; lia).
      by replace (Z.to_nat trials - (0 + Z.to_nat s))%nat
        with (Z.to_nat (trials - s)) by (subst s; lia). }
  rewrite (bind_Returned _ _ state state
             (Posterior_Beta {| BetaPosterior_Beta :=
                Beta_value (of_int (a + s)) (of_int (c + trials - s)) |})).
  2:{ unfold lift, Prior_Update.
      rewrite Beta_Update_whole
        by (rewrite ?length_app, ?length_replicate; subst s; lia).
      rewrite positives_ones_zeros, length_app, !length_replicate.
      cbn [mbind outcome_bind].
      replace (a + Z.of_nat (Z.to_nat s)) with (a + s) by (subst s; lia).
      by replace (c + Z.of_nat (Z.to_nat s + Z.to_nat (trials - s))
                  - Z.of_nat (Z.to_nat s))
        with (c + trials - s) by (subst s; lia). }
  reflexivity.
Qed.

Lemma ConversionRate_bad_counts (bm : BusinessMetrics) (successes trials : Z)
    (state : heap float64 * G) :
  trials < 0 \/ trials < successes \/
  BusinessMetrics_DefaultPriors bm !! "conversion" = None ->
  panics (snd (ConversionRate distuv_Beta_Rand distuv_Normal_Rand
                 bm successes trials state)).
Proof.
  intros Hbad. unfold ConversionRate.
  destruct (Z.ltb_spec trials 0) as [Hneg|Hnonneg].
  { apply bind_panics. unfold lift, make_list.
    destruct (Z.ltb_spec trials 0); [|lia]. by eexists. }
  rewrite (bind_Returned _ _ state state
             (replicate (Z.to_nat trials) (of_int 0))).
  2:{ unfold lift, make_list. destruct (Z.ltb_spec trials 0); [lia|done]. }
  destruct (Z.ltb_spec trials successes) as [Hmany|Hfew].
  { apply bind_panics. unfold lift. cbn [snd].
    apply ones_loop_panics; rewrite ?length_replicate; lia. }
  destruct Hbad as [?|[?|Hnone]]; [lia..|]. rewrite Hnone.
  destruct (ones_loop 0 (Z.to_nat successes)
              (replicate (Z.to_nat trials) (of_int 0))) as [data|msg] eqn:Hones.
  + rewrite (bind_Returned _ _ state state data) by reflexivity.
    apply bind_panics. by eexists.
  + rewrite (bind_Panicked _ _ state state msg) by reflexivity. by eexists.
Qed.

End ConversionFacts.

(** [ConversionRate] with a whole-number Beta prior under the key
    conversion, as in the default priors (Beta(1,1)): for 0 <= trials
    and successes <= trials the estimate is made of draws from the
    posterior Beta(a + s, c + trials - s), where s is the number of
    successes, or 0 if that number is negative.  For trials < 0, for
    successes > trials, and when the key is missing, it panics. *)
Theorem ConversionRate_posterior {G : Type}
    (distuv_Beta_Rand : distuv_Beta -> prog G float64)
    (distuv_Normal_Rand : distuv_Normal -> prog G float64) :
  (exists bm, NewBusinessMetrics = Returned bm /\
              BusinessMetrics_DefaultPriors bm !! "conversion"
              = Some (Prior_Beta (Beta_value (of_int 1) (of_int 1)))) /\
  (forall (bm : BusinessMetrics) (a c successes trials : Z)
          (state : heap float64 * G),
     BusinessMetrics_DefaultPriors bm !! "conversion"
     = Some (Prior_Beta (Beta_value (of_int a) (of_int c))) ->
     0 <= a -> 0 <= c -> a + trials < 2 ^ 53 -> c + trials < 2 ^ 53 ->
     0 <= trials -> successes <= trials ->
     let s := Z.max 0 successes in
     ConversionRate distuv_Beta_Rand distuv_Normal_Rand bm successes trials state
     = estimate_of_posterior distuv_Beta_Rand distuv_Normal_Rand
         (Posterior_Beta {| BetaPosterior_Beta :=
            Beta_value (of_int (a + s)) (of_int (c + trials - s)) |}) state) /\
  (forall (bm : BusinessMetrics) (successes trials : Z)
          (state : heap float64 * G),
     trials < 0 \/ trials < successes \/
     BusinessMetrics_DefaultPriors bm !! "conversion" = None ->
     panics (snd (ConversionRate distuv_Beta_Rand distuv_Normal_Rand
                    bm successes trials state))).
Proof.
  split; [exact NewBusinessMetrics_conversion|]. split.
  - intros. by apply ConversionRate_draws.
  - intros. by apply ConversionRate_bad_counts.
Qed.

Lemma ConversionRate_posterior_witness :
  ConversionRate (G:=unit)
    (fun _ g => (g, Returned (lit 1 2))) (fun _ g => (g, Returned (lit 1 2)))
    {| BusinessMetrics_DefaultPriors :=
         {[ "conversion" := Prior_Beta (Beta_value (of_int 1) (of_int 1)) ]} |}
    3 10 (∅, tt)
  = estimate_of_posterior (fun _ g => (g, Returned (lit 1 2)))
      (fun _ g => (g, Returned (lit 1 2)))
      (Posterior_Beta {| BetaPosterior_Beta :=
         Beta_value (of_int 4) (of_int 8) |}) (∅, tt).
Proof.
  destruct (ConversionRate_posterior (G:=unit)
              (fun _ g => (g, Returned (lit 1 2)))
              (fun _ g => (g, Returned (lit 1 2)))) as (_ & Hdraws & _).
  apply (Hdraws {| BusinessMetrics_DefaultPriors :=
           {[ "conversion" := Prior_Beta (Beta_value (of_int 1) (of_int 1)) ]} |}
           1 1 3 10 (∅, tt)); [reflexivity|lia|lia|reflexivity|reflexivity|lia|lia].
Defined.

(** [ChurnProbability] counts the churned customers as successes among
    all customers: with a whole-number prior Beta(a, c) under the key
    conversion (Beta(1,1) by default) and non-negative counts the
    estimate is made of draws from Beta(a + churned, c + active).  A
    negative number of active customers makes it panic. *)
Theorem ChurnProbability_posterior {G : Type}
    (distuv_Beta_Rand : distuv_Beta -> prog G float64)
    (distuv_Normal_Rand : distuv_Normal -> prog G float64)
    (bm : BusinessMetrics) (a c activeCustomers churnedCustomers : Z)
    (state : heap float64 * G) :
  BusinessMetrics_DefaultPriors bm !! "conversion"
  = Some (Prior_Beta (Beta_value (of_int a) (of_int c))) ->
  0 <= a -> 0 <= c -> 0 <= churnedCustomers ->
  a + activeCustomers + churnedCustomers < 2 ^ 53 ->
  c + activeCustomers + churnedCustomers < 2 ^ 53 ->
  (0 <= activeCustomers ->
   ChurnProbability distuv_Beta_Rand distuv_Normal_Rand bm
     activeCustomers churnedCustomers state
   = estimate_of_posterior distuv_Beta_Rand distuv_Normal_Rand
       (Posterior_Beta {| BetaPosterior_Beta :=
          Beta_value (of_int (a + churnedCustomers))
                     (of_int (c + activeCustomers)) |}) state) /\
  (- 2 ^ 63 <= activeCustomers < 0 ->
   panics (snd (ChurnProbability distuv_Beta_Rand distuv_Normal_Rand bm
                  activeCustomers churnedCustomers state))).
Proof.
  intros Hprior Ha0 Hc0 Hc Hsuma Hsumc.
  unfold ChurnProbability.
  assert (Hadd : - 2 ^ 63 <= activeCustomers ->
                 int_add activeCustomers churnedCustomers
                 = activeCustomers + churnedCustomers).
  { intros Ha. unfold int_add.
    rewrite Z.mod_small; [lia|]. split; [lia|].
    assert (2 ^ 53 < 2 ^ 63) by done. change (2 ^ 64) with (2 ^ 63 + 2 ^ 63). lia. }
  split.
  - intros Ha. rewrite Hadd by lia.
    rewrite (ConversionRate_draws distuv_Beta_Rand distuv_Normal_Rand
               bm a c churnedCustomers (activeCustomers + churnedCustomers)
               state Hprior) by lia.
    cbv zeta. rewrite Z.max_r by lia.
    by replace (c + (activeCustomers + churnedCustomers) - churnedCustomers)
      with (c + activeCustomers) by lia.
  - intros Ha. rewrite Hadd by lia.
    apply ConversionRate_bad_counts. right. left. lia.
Qed.

Lemma ChurnProbability_posterior_witness :
  ChurnProbability (G:=unit)
    (fun _ g => (g, Returned (lit 1 2))) (fun _ g => (g, Returned (lit 1 2)))
    {| BusinessMetrics_DefaultPriors :=
         {[ "conversion" := Prior_Beta (Beta_value (of_int 1) (of_int 1)) ]} |}
    90 10 (∅, tt)
  = estimate_of_posterior (fun _ g => (g, Returned (lit 1 2)))
      (fun _ g => (g, Returned (lit 1 2)))
      (Posterior_Beta {| BetaPosterior_Beta :=
         Beta_value (of_int 11) (of_int 91) |}) (∅, tt).
Proof.
  apply (ChurnProbability_posterior (G:=unit)
           (fun _ g => (g, Returned (lit 1 2)))
           (fun _ g => (g, Returned (lit 1 2)))
           {| BusinessMetrics_DefaultPriors :=
                {[ "conversion" := Prior_Beta (Beta_value (of_int 1) (of_int 1)) ]} |}
           1 1 90 10 (∅, tt));
    [reflexivity|lia|lia|lia|reflexivity|reflexivity|lia].
Defined.

(** ** Customer lifetime value *)

Section ClvFacts.
Context {F : Type} `{Float64 F}.

Lemma index_cyclic_returns (samples : list F) (i : Z) :
  samples <> [] -> 0 <= i -> returns (index_cyclic samples i).
Proof.
  intros Hne Hi. unfold index_cyclic, int_rem.
  assert (Hlen : 0 < Z.of_nat (length samples))
    by (destruct samples; [done|cbn [length]; lia]).
  destruct (Z.eqb_spec (Z.of_nat (length samples)) 0); [lia|].
  cbn [mbind outcome_bind].
  destruct (index_in_range samples (Z.rem i (Z.of_nat (length samples))))
    as [v Hv]; [|by exists v].
  rewrite Z.rem_mod_nonneg by lia. apply Z.mod_pos_bound. lia.
Qed.

Lemma index_cyclic_empty (i : Z) : panics (index_cyclic (@nil F) i).
Proof. by eexists. Qed.

Lemma clv_loop_returns (aov freq churn : list F) (todo : nat) :
  aov <> [] -> freq <> [] -> churn <> [] ->
  forall (i : Z) (clvSamples : list F),
    0 <= i -> i + Z.of_nat todo <= Z.of_nat (length clvSamples) ->
    exists clv, clv_loop aov freq churn i todo clvSamples = Returned clv /\
                length clv = length clvSamples.
Proof.
  intros Ha Hf Hc. induction todo as [|todo IH]; intros i clvSamples Hi Hlen.
  - by exists clvSamples.
  - cbn [clv_loop]. unfold mbind at 1, outcome_bind at 1.
    destruct (index_cyclic_returns aov i Ha Hi) as [a ->].
    unfold mbind at 1, outcome_bind at 1.
    destruct (index_cyclic_returns freq i Hf Hi) as [f ->].
    unfold mbind at 1, outcome_bind at 1.
    destruct (index_cyclic_returns churn i Hc Hi) as [c ->].
    destruct (fltb (of_int 0) c);
      rewrite index_set_in_range by lia; cbn [mbind outcome_bind].
    + destruct (IH (i + 1)
                  (<[Z.to_nat i := (a * f * (of_int 1 / c))%go]> clvSamples))
        as (clv & -> & Hclv); [lia|rewrite length_insert; lia|].
      exists clv. split; [done|]. by rewrite length_insert in Hclv.
    + destruct (IH (i + 1) (<[Z.to_nat i := (a * f * of_int 100)%go]> clvSamples))
        as (clv & -> & Hclv); [lia|rewrite length_insert; lia|].
      exists clv. split; [done|]. by rewrite length_insert in Hclv.
Qed.

Lemma clv_loop_panics (aov freq churn : list F) (todo : nat)
    (i : Z) (clvSamples : list F) :
  aov = [] \/ freq = [] \/ churn = [] -> 0 <= i ->
  panics (clv_loop aov freq churn i (S todo) clvSamples).
Proof.
  intros Hempty Hi. cbn [clv_loop].
  destruct aov as [|a0 aov]; [by eexists|].
  unfold mbind at 1, outcome_bind at 1.
  destruct (index_cyclic_returns (a0 :: aov) i ltac:(done) Hi) as [a ->].
  destruct freq as [|f0 freq]; [by eexists|].
  unfold mbind at 1, outcome_bind at 1.
  destruct (index_cyclic_returns (f0 :: freq) i ltac:(done) Hi) as [f ->].
  destruct churn as [|c0 churn]; [by eexists|].
  by destruct Hempty as [?|[?|?]].
Qed.

End ClvFacts.

(** [CustomerLifetimeValue] cycles through the three sample slices,
    whatever their lengths.  It returns exactly when none of them is
    empty and panics (integer division by zero) when one is.  When it
    returns, the estimate has 10000 samples in a new slice, which is
    also the [Samples] of its summary, and every slice that existed
    before is unchanged. *)
Theorem CustomerLifetimeValue_returns_iff
    (avgOrderValue purchaseFrequency churnRate : MetricEstimate (F:=float64))
    (h : heap float64) :
  let aov := contents h (MetricEstimate_Samples avgOrderValue) in
  let freq := contents h (MetricEstimate_Samples purchaseFrequency) in
  let churn := contents h (MetricEstimate_Samples churnRate) in
  let run := CustomerLifetimeValue avgOrderValue purchaseFrequency churnRate h in
  (returns (snd run) <-> aov <> [] /\ freq <> [] /\ churn <> []) /\
  (panics (snd run) <-> aov = [] \/ freq = [] \/ churn = []) /\
  (forall estimate, snd run = Returned estimate ->
     Z.of_nat (length (contents (fst run) (MetricEstimate_Samples estimate)))
     = nSamples /\
     Summary_Samples (MetricEstimate_Summary estimate)
     = MetricEstimate_Samples estimate /\
     (forall l, l ∈ dom h -> fst run !! l = h !! l)).
Proof.
  intros aov freq churn run.
  assert (Hcases : (aov <> [] /\ freq <> [] /\ churn <> []) \/
                   (aov = [] \/ freq = [] \/ churn = [])).
  { destruct aov, freq, churn; auto; left; done. }
  subst run. unfold CustomerLifetimeValue.
  rewrite (bind_Returned _ _ h h h) by reflexivity.
  rewrite (bind_Returned _ _ h h (replicate (Z.to_nat nSamples) (of_int 0)))
    by reflexivity.
  fold aov freq churn.
  destruct Hcases as [(Ha & Hf & Hc)|Hempty].
  - destruct (clv_loop_returns aov freq churn (Z.to_nat nSamples) Ha Hf Hc 0
                (replicate (Z.to_nat nSamples) (of_int 0)))
      as (clv & Hclv & Hlen); [done|by rewrite length_replicate|].
    rewrite length_replicate in Hlen.
    rewrite (bind_Returned _ _ h h clv) by (unfold lift; by rewrite Hclv).
    set (l := fresh (dom h)).
    rewrite (bind_Returned _ _ h (<[l := clv]> h) (slice_at l)) by reflexivity.
    assert (Hcontents : contents (<[l := clv]> h) (slice_at l) = clv).
    { cbn [contents]. by rewrite lookup_insert_eq. }
    assert (Hne : clv <> []).
    { intros ->. cbn [length] in Hlen. unfold nSamples in Hlen. lia. }
    destruct (ComputeSummary_returns (<[l := clv]> h) (slice_at l))
      as [summary Hsum];
      [by rewrite Hcontents
      |rewrite Hcontents, Hlen; unfold nSamples; rewrite Z2Nat.id; done|].
    pose proof (ComputeSummary_unfold (slice_at l) (<[l := clv]> h)) as Hunfold.
    rewrite Hcontents in Hunfold.
    destruct (ComputeSummary (slice_at l) (<[l := clv]> h)) as [h' r] eqn:Hcs.
    cbn [snd] in Hsum. subst r.
    injection Hunfold as Hh' Hlit.
    rewrite (bind_Returned _ _ _ _ _ Hcs). cbn [mret prog_ret snd fst].
    assert (Hret : returns (Returned (estimate_literal summary (slice_at l))))
      by by eexists.
    split; [split; [done|intros _; exact Hret]|].
    split.
    { split; [|intros [Hnil|[Hnil|Hnil]]; done].
      intros [msg Hmsg]. discriminate Hmsg. }
    intros estimate [= <-]. cbn [estimate_literal MetricEstimate_Samples
                                 MetricEstimate_Summary].
    split; [|split].
    + rewrite Hh', contents_fresh_other; [|by rewrite Hcontents].
      rewrite Hcontents, Hlen. unfold nSamples. lia.
    + symmetry in Hlit. by apply summary_literal_Returned in Hlit as [-> _].
    + intros l0 Hl0. rewrite Hh'.
      rewrite lookup_insert_ne.
      2:{ intros Heq. apply (is_fresh (dom (<[l := clv]> h))).
          rewrite Heq, dom_insert. by apply elem_of_union_r. }
      rewrite lookup_insert_ne; [done|].
      intros Heq. apply (is_fresh (dom h)). fold l. by rewrite Heq.
  - destruct (clv_loop_panics aov freq churn (Nat.pred (Z.to_nat nSamples)) 0
                (replicate (Z.to_nat nSamples) (of_int 0)) Hempty)
      as [msg Hmsg]; [done|].
    replace (S (Nat.pred (Z.to_nat nSamples))) with (Z.to_nat nSamples)
      in Hmsg by (unfold nSamples; lia).
    rewrite (bind_Panicked _ _ h h msg) by (unfold lift; by rewrite Hmsg).
    cbn [snd fst].
    split.
    { split; [intros [v Hv]; discriminate Hv|].
      intros (Ha & Hf & Hc). by destruct Hempty as [?|[?|?]]. }
    split; [split; [done|by eexists]|]. intros estimate Hest. discriminate Hest.
Qed.

Lemma CustomerLifetimeValue_returns_iff_witness :
  let estimate : MetricEstimate (F:=float64) :=
    estimate_literal
      {| Summary_Mean := of_int 2; Summary_Median := of_int 2;
         Summary_Mode := of_int 2; Summary_Variance := of_int 0;
         Summary_StdDev := of_int 0; Summary_CI95 := (of_int 2, of_int 2);
         Summary_CI99 := (of_int 2, of_int 2);
         Summary_Samples := slice_at 7%positive |} (slice_at 7%positive) in
  returns (snd (CustomerLifetimeValue estimate estimate estimate
                  {[ 7%positive := [of_int 2; of_int 3] ]})) /\
  panics (snd (CustomerLifetimeValue estimate estimate zero_MetricEstimate
                 {[ 7%positive := [of_int 2; of_int 3] ]})).
Proof.
  intros estimate. split.
  - apply (CustomerLifetimeValue_returns_iff estimate estimate estimate
             {[ 7%positive := [of_int 2; of_int 3] ]}).
    split; [discriminate|split; discriminate].
  - apply (CustomerLifetimeValue_returns_iff estimate estimate zero_MetricEstimate
             {[ 7%positive := [of_int 2; of_int 3] ]}).
    right. right. reflexivity.
Defined.

(** ** Retention *)


Section RetentionFacts.
Context {G : Type}.
Variable distuv_Beta_Rand : distuv_Beta (F:=float64) -> prog G float64.
Variable distuv_Normal_Rand : distuv_Normal (F:=float64) -> prog G float64.


End RetentionFacts.


